(** * sistema_correo.py: a shallow embedding and its verified properties

    The Python program keeps every [Carpeta], every message list and every
    [ServidorCorreo] as a mutable object reached through references.  The
    embedding keeps that shape: objects live in a store ([Mundo]) and are
    named by their address; methods are computations in a small
    state-and-exception monad, so that what is left in the store when an
    exception escapes can be stated too.

    Layout: the Python runtime pieces the program relies on ([str], [dict],
    [list.remove], [heapq]) and one module per class of the program, in
    dependency order; then the notions the statements use (walks, paths,
    preorder, well-formed stores) with the stores of the examples; then the
    lemmas and theorems. *)

From stdpp Require Import gmap strings list.
From Stdlib Require Import Ascii.

Local Open Scope Z_scope.
Local Open Scope nat_scope.

(** ** Python [str]

    Strings are sequences of code points in the Latin-1 range (one [ascii]
    per code point), on which [str.lower] stays inside the range. *)
Module str.

(** [str.lower] on one code point: A-Z and the Latin-1 capitals
    U+00C0..U+00DE (without the multiplication sign U+00D7) move up by 32. *)
Definition lower_char (c : ascii) : ascii :=
  let n := nat_of_ascii c in
  if bool_decide (65 ≤ n ≤ 90) || bool_decide (192 ≤ n ≤ 222 ∧ n ≠ 215)
  then ascii_of_nat (n + 32)
  else c.

Fixpoint lower (s : string) : string :=
  match s with
  | EmptyString => EmptyString
  | String c r => String (lower_char c) (lower r)
  end.

(** [s.startswith(p)] *)
Fixpoint startswith (p s : string) : bool :=
  match p, s with
  | EmptyString, _ => true
  | String _ _, EmptyString => false
  | String a p', String b s' => bool_decide (a = b) && startswith p' s'
  end.

(** [aguja in pajar] *)
Fixpoint contains (aguja pajar : string) : bool :=
  startswith aguja pajar ||
  match pajar with
  | EmptyString => false
  | String _ r => contains aguja r
  end.

Definition es_barra (c : ascii) : bool := bool_decide (c = "/"%char).

(** [s.lstrip("/")] *)
Fixpoint lstrip (s : string) : string :=
  match s with
  | EmptyString => EmptyString
  | String c r => if es_barra c then lstrip r else s
  end.

(** [s.rstrip("/")] *)
Fixpoint rstrip (s : string) : string :=
  match s with
  | EmptyString => EmptyString
  | String c r =>
      match rstrip r with
      | EmptyString => if es_barra c then EmptyString else String c EmptyString
      | String _ _ as r' => String c r'
      end
  end.

(** [s.strip("/")] *)
Definition strip (s : string) : string := rstrip (lstrip s).

(** [s.split("/")]: never empty; an empty string gives one empty segment. *)
Fixpoint split (s : string) : list string :=
  match s with
  | EmptyString => [EmptyString]
  | String c r =>
      if es_barra c then EmptyString :: split r
      else match split r with
           | [] => [String c EmptyString]
           | p :: ps => String c p :: ps
           end
  end.

(** ["/".join(l)] *)
Fixpoint join (l : list string) : string :=
  match l with
  | [] => EmptyString
  | [p] => p
  | p :: ps => p +:+ String "/" (join ps)
  end.

(** The string made of [n] slashes. *)
Fixpoint barras (n : nat) : string :=
  match n with
  | 0 => EmptyString
  | S k => String "/" (barras k)
  end.

End str.

(** ** Python [dict] with string keys

    Insertion-ordered, as Python's: the program iterates over [.items()] and
    [.values()], so the order is part of the behaviour. *)
Module dict.
Section Dict.
Context {V : Type}.

Fixpoint get (k : string) (d : list (string * V)) : option V :=
  match d with
  | [] => None
  | (k', v) :: r => if bool_decide (k' = k) then Some v else get k r
  end.

(** [k in d] *)
Definition contains (k : string) (d : list (string * V)) : bool :=
  match get k d with Some _ => true | None => false end.

(** [d[k] = v]: an existing key keeps its place, a new one goes last. *)
Fixpoint set (k : string) (v : V) (d : list (string * V)) : list (string * V) :=
  match d with
  | [] => [(k, v)]
  | (k', v') :: r =>
      if bool_decide (k' = k) then (k', v) :: r else (k', v') :: set k v r
  end.

Definition values (d : list (string * V)) : list V := d.*2.
End Dict.
End dict.

(** ** Exceptions, outcomes and the state monad *)

Inductive exn : Type :=
| ValueError (msg : string)
| IndexError (msg : string)
| TypeError (msg : string)
| AttributeError (msg : string).

(** What a call can do: return, raise, or (only in the model) exhaust the
    fuel of a loop or follow an address that names no object.  The last two
    have no counterpart in Python; the theorems show they do not occur. *)
Inductive resultado (A : Type) : Type :=
| Ok (a : A)
| Lanza (e : exn)
| SinCombustible
| RefColgante.
Arguments Ok {A} a.
Arguments Lanza {A} e.
Arguments SinCombustible {A}.
Arguments RefColgante {A}.

(** A computation over a store of type [S].  The store is returned also when
    the computation raises: mutations made before a [raise] stay. *)
Definition M (S A : Type) : Type := S → resultado A * S.

Definition ret {S A} (a : A) : M S A := λ s, (Ok a, s).

Definition bind {S A B} (m : M S A) (k : A → M S B) : M S B :=
  λ s, match m s with
       | (Ok a, s') => k a s'
       | (Lanza e, s') => (Lanza e, s')
       | (SinCombustible, s') => (SinCombustible, s')
       | (RefColgante, s') => (RefColgante, s')
       end.

Definition raise {S A} (e : exn) : M S A := λ s, (Lanza e, s).

(** [try: m except ValueError: h] *)
Definition try_except_ValueError {S A} (m : M S A) (h : M S A) : M S A :=
  λ s, match m s with
       | (Lanza (ValueError _), s') => h s'
       | otro => otro
       end.

(** Runs a computation on a component of the store. *)
Definition zoom {S T A} (leer : S → option T) (escribir : T → S → S)
    (m : M T A) : M S A :=
  λ s, match leer s with
       | None => (RefColgante, s)
       | Some t => let '(r, t') := m t in (r, escribir t' s)
       end.

Notation "'let*' x := m 'in' k" := (bind m (λ x, k))
  (at level 10, x pattern, m at level 100, k at level 200, only parsing).
Notation "m >> k" := (bind m (λ _, k))
  (at level 100, k at level 200, right associativity, only parsing).

(** Addresses of objects in the store. *)
Abbreviation ref := nat (only parsing).

(** ** Python [list.remove] and subscripting *)
Module pylist.
Section PyList.
Context {A : Type} (igual : A → A → bool).

(** [l.remove(x)]: drops the first element equal to [x]; [None] stands
    for the [ValueError] raised when there is none. *)
Fixpoint remove (x : A) (l : list A) : option (list A) :=
  match l with
  | [] => None
  | y :: r => if igual y x then Some r else (y ::.) <$> remove x r
  end.
End PyList.

(** [l[i]] for [0 <= i]; the program never uses a negative subscript. *)
Definition getitem {S A} (l : list A) (i : nat) : M S A :=
  match l !! i with
  | Some a => ret a
  | None => raise (IndexError "list index out of range")
  end.
End pylist.

(** ** The objects of the program

    One record per class, holding the attributes set in [__init__].  A
    [Mensaje] is never changed by the operations below apart from its read
    flag, which none of them reads, so a message is carried as a value
    together with the identity of its object. *)

(** What [Mensaje.__init__] takes from the runtime: the identity of the new
    object (what [is] and the default [==] compare), the [uuid4] string and
    the clock. *)
Record Entorno : Type := mkEntorno {
  identidad_nueva : nat;
  uuid4 : string;
  now : nat;
}.

Record Mensaje : Type := mkMensaje {
  identidad : nat;
  _id : string;
  _remitente : string;
  _destinatario : string;
  _asunto : string;
  _cuerpo : string;
  _fecha : nat;
  _leido : bool;
  _prioridad : string;
}.

(** A folder object.  [_mensajes] is the address of its list object (so that
    a copy of the list can be told from the list itself); [_subcarpetas] is
    its dict, child name to child address, in insertion order. *)
Record Carpeta : Type := mkCarpeta {
  _nombre : string;
  _mensajes : ref;
  _subcarpetas : list (string * ref);
  _padre : option ref;
}.

Record SistemaCorreo : Type := mkSistemaCorreo {
  _carpeta_raiz : ref;
}.

Record Usuario : Type := mkUsuario {
  Usuario_nombre : string;
  _email : string;
  _raiz : ref;
}.

(** The heap holds the tuples [(prioridad_num, mensaje)]. *)
Record ColaPrioridades : Type := mkColaPrioridades {
  _heap : list (Z * Mensaje);
}.

Record ServidorCorreo : Type := mkServidorCorreo {
  ServidorCorreo_nombre : string;
  _usuarios : gmap string Usuario;
  _filtros : list (string * string);
  _cola_prioridades : ColaPrioridades;
}.

Record RedServidores : Type := mkRedServidores {
  _servidores : list (string * ref);
  _conexiones : list (string * list string);
}.

(** The store: folder objects, list objects and server objects, each kind
    addressed by position.  A new object takes the next free address. *)
Record Mundo : Type := mkMundo {
  carpetas : list Carpeta;
  listas : list (list Mensaje);
  servidores : list ServidorCorreo;
}.

Definition mundo_vacio : Mundo := mkMundo [] [] [].

Section Almacen.

Definition leer_carpeta (r : ref) : M Mundo Carpeta :=
  λ w, match carpetas w !! r with
       | Some c => (Ok c, w)
       | None => (RefColgante, w)
       end.

Definition escribir_carpeta (r : ref) (c : Carpeta) : M Mundo unit :=
  λ w, (Ok tt, mkMundo (<[r := c]> (carpetas w)) (listas w) (servidores w)).

Definition nueva_carpeta (c : Carpeta) : M Mundo ref :=
  λ w, (Ok (length (carpetas w)),
        mkMundo (carpetas w ++ [c]) (listas w) (servidores w)).

Definition leer_lista (r : ref) : M Mundo (list Mensaje) :=
  λ w, match listas w !! r with
       | Some l => (Ok l, w)
       | None => (RefColgante, w)
       end.

Definition escribir_lista (r : ref) (l : list Mensaje) : M Mundo unit :=
  λ w, (Ok tt, mkMundo (carpetas w) (<[r := l]> (listas w)) (servidores w)).

Definition nueva_lista (l : list Mensaje) : M Mundo ref :=
  λ w, (Ok (length (listas w)),
        mkMundo (carpetas w) (listas w ++ [l]) (servidores w)).

Definition leer_servidor (r : ref) : M Mundo ServidorCorreo :=
  λ w, match servidores w !! r with
       | Some s => (Ok s, w)
       | None => (RefColgante, w)
       end.

Definition escribir_servidor (r : ref) (s : ServidorCorreo) : M Mundo unit :=
  λ w, (Ok tt, mkMundo (carpetas w) (listas w) (<[r := s]> (servidores w))).

Definition nuevo_servidor (s : ServidorCorreo) : M Mundo ref :=
  λ w, (Ok (length (servidores w)),
        mkMundo (carpetas w) (listas w) (servidores w ++ [s])).

End Almacen.

(** ** class Mensaje *)
Module Mensaje.

Definition prioridades : list string := ["Alta"; "Media"; "Baja"].

Definition __init__ (env : Entorno)
    (remitente destinatario asunto cuerpo prioridad : string)
    : resultado Mensaje :=
  if bool_decide (destinatario = "") then
    Lanza (ValueError "El mensaje debe tener destinatario.")
  else
    let prioridad :=
      if bool_decide (prioridad ∈ prioridades) then prioridad else "Media" in
    Ok {| identidad := identidad_nueva env;
          _id := uuid4 env;
          _remitente := remitente;
          _destinatario := destinatario;
          _asunto := asunto;
          _cuerpo := cuerpo;
          _fecha := now env;
          _leido := false;
          _prioridad := prioridad |}.

(** [a == b], which is [a is b]: the class defines no [__eq__]. *)
Definition es (a b : Mensaje) : bool :=
  bool_decide (identidad a = identidad b).

End Mensaje.

(** ** class Carpeta *)
Module Carpeta.

Definition __init__ (nombre : string) (padre : option ref) : M Mundo ref :=
  let* l := nueva_lista [] in
  nueva_carpeta {| _nombre := nombre; _mensajes := l;
                   _subcarpetas := []; _padre := padre |}.

Definition agregar_mensaje (self : ref) (mensaje : Mensaje) : M Mundo unit :=
  let* c := leer_carpeta self in
  let* l := leer_lista (_mensajes c) in
  escribir_lista (_mensajes c) (l ++ [mensaje]).

Definition quitar_mensaje (self : ref) (mensaje : Mensaje) : M Mundo unit :=
  let* c := leer_carpeta self in
  let* l := leer_lista (_mensajes c) in
  match pylist.remove Mensaje.es mensaje l with
  | Some l' => escribir_lista (_mensajes c) l'
  | None => raise (ValueError "list.remove(x): x not in list")
  end.

(** Returns the address of a new list object holding the same messages. *)
Definition mensajes (self : ref) : M Mundo ref :=
  let* c := leer_carpeta self in
  let* l := leer_lista (_mensajes c) in
  nueva_lista l.

Definition obtener_por_indice (self : ref) (idx : Z) : M Mundo (option Mensaje) :=
  let* c := leer_carpeta self in
  let* l := leer_lista (_mensajes c) in
  if bool_decide (0 ≤ idx < Z.of_nat (length l))%Z
  then let* m := pylist.getitem l (Z.to_nat idx) in ret (Some m)
  else ret None.

Definition crear_subcarpeta (self : ref) (nombre : string) : M Mundo ref :=
  let* c := leer_carpeta self in
  if dict.contains nombre (_subcarpetas c) then
    raise (ValueError ("La subcarpeta '" +:+ nombre +:+ "' ya existe."))
  else
    let* nueva := __init__ nombre (Some self) in
    let* c := leer_carpeta self in
    let* _ := escribir_carpeta self
                {| _nombre := _nombre c; _mensajes := _mensajes c;
                   _subcarpetas := dict.set nombre nueva (_subcarpetas c);
                   _padre := _padre c |} in
    ret nueva.

Definition obtener_subcarpeta (self : ref) (nombre : string)
    : M Mundo (option ref) :=
  let* c := leer_carpeta self in
  ret (dict.get nombre (_subcarpetas c)).

End Carpeta.

(** ** class Usuario *)
Module Usuario.

Definition __init__ (nombre email : string) : M Mundo Usuario :=
  let* raiz := Carpeta.__init__ "Root" None in
  let* _ := Carpeta.crear_subcarpeta raiz "Entrada" in
  let* _ := Carpeta.crear_subcarpeta raiz "Enviados" in
  let* _ := Carpeta.crear_subcarpeta raiz "Prioritarios" in
  ret {| Usuario_nombre := nombre; _email := email; _raiz := raiz |}.

Definition obtener_carpeta (self : Usuario) (nombre : string) : M Mundo ref :=
  let* sub := Carpeta.obtener_subcarpeta (_raiz self) nombre in
  match sub with
  | Some sub => ret sub
  | None => Carpeta.crear_subcarpeta (_raiz self) nombre
  end.

Definition redactar (env : Entorno) (self : Usuario)
    (destinatario asunto cuerpo prioridad : string) : resultado Mensaje :=
  Mensaje.__init__ env (_email self) destinatario asunto cuerpo prioridad.

End Usuario.

(** ** class SistemaCorreo *)
Module SistemaCorreo.

(** The [for p in partes] loop of [obtener_por_ruta]. *)
Fixpoint obtener_por_ruta_bucle (ruta : string) (partes : list string)
    (actual : ref) : M Mundo ref :=
  match partes with
  | [] => ret actual
  | p :: partes =>
      let* sub := Carpeta.obtener_subcarpeta actual p in
      match sub with
      | None =>
          raise (ValueError ("No existe la carpeta '" +:+ p +:+
                             "' en la ruta '" +:+ ruta +:+ "'"))
      | Some sub => obtener_por_ruta_bucle ruta partes sub
      end
  end.

Definition obtener_por_ruta (self : SistemaCorreo) (ruta : string)
    : M Mundo ref :=
  let partes := str.split (str.strip ruta) in
  obtener_por_ruta_bucle ruta partes (_carpeta_raiz self).

(** [texto in m.asunto.lower() or texto in m.remitente.lower()] *)
Definition coincide (texto : string) (m : Mensaje) : bool :=
  str.contains texto (str.lower (_asunto m)) ||
  str.contains texto (str.lower (_remitente m)).

(** The second loop of [_buscar]: [resultado.extend(f(sub))] for each
    subfolder in turn. *)
Fixpoint extender_con {S A B} (f : A → M S (list B)) (subs : list A)
    (resultado : list B) : M S (list B) :=
  match subs with
  | [] => ret resultado
  | sub :: subs =>
      let* r := f sub in
      extender_con f subs (resultado ++ r)
  end.

(** The inner function [_buscar]; [n] bounds the depth of the recursion. *)
Fixpoint _buscar (n : nat) (texto : string) (carpeta : ref)
    : M Mundo (list (ref * Mensaje)) :=
  match n with
  | 0 => λ w, (SinCombustible, w)
  | S n =>
      let* copia := Carpeta.mensajes carpeta in
      let* ms := leer_lista copia in
      let resultado := (λ m, (carpeta, m)) <$> filter (λ m, coincide texto m) ms in
      let* c := leer_carpeta carpeta in
      extender_con (_buscar n texto) (dict.values (_subcarpetas c)) resultado
  end.

(** A tree cannot be deeper than the number of folder objects. *)
Definition buscar_mensajes_recursivo (self : SistemaCorreo) (texto : string)
    : M Mundo (list (ref * Mensaje)) :=
  let texto := str.lower texto in
  λ w, _buscar (S (length (carpetas w))) texto (_carpeta_raiz self) w.

Definition mover_mensaje (self : SistemaCorreo) (carpeta_origen : ref)
    (indice : Z) (carpeta_destino : ref) : M Mundo unit :=
  let* mensaje := Carpeta.obtener_por_indice carpeta_origen indice in
  match mensaje with
  | None =>
      raise (IndexError (String (ascii_of_nat 205)
                           "ndice de mensaje fuera de rango."))
  | Some mensaje =>
      let* _ := Carpeta.quitar_mensaje carpeta_origen mensaje in
      Carpeta.agregar_mensaje carpeta_destino mensaje
  end.

End SistemaCorreo.

(** ** Python [heapq]

    [heappush] and [heappop] as CPython runs them: heapq.py ends with
    [from _heapq import *], so the calls of the program reach the C
    functions of Modules/_heapqmodule.c.  Their two sifting loops swap
    items in place, so the list holds every item at all times, also when a
    comparison raises.  Elements are compared with [<] only, and that
    comparison may raise.  The checks that a comparison did not change the
    size of the list are left out: [<] on the tuples of the program
    changes nothing. *)
Module heapq.
Section Heapq.
Context {A : Type} (lt : A → A → resultado bool).

Definition menor (a b : A) : M (list A) bool := λ h, (lt a b, h).

(** [arr[i]]; the positions the loops read are inside the list. *)
Definition leer (i : nat) : M (list A) A := λ h, pylist.getitem h i h.

(** [arr[i] = x] *)
Definition poner (i : nat) (x : A) : M (list A) unit :=
  λ h, if bool_decide (i < length h) then (Ok tt, <[i := x]> h)
       else (Lanza (IndexError "list assignment index out of range"), h).

(** The [while (pos > startpos)] loop of [siftdown]; [pos] goes down at
    every turn, so [n = pos] turns are enough. *)
Fixpoint siftdown_bucle (n : nat) (newitem : A) (startpos pos : nat)
    : M (list A) unit :=
  if bool_decide (startpos < pos) then
    match n with
    | 0 => λ h, (SinCombustible, h)
    | S n =>
        let parentpos := (pos - 1) `div` 2 in
        let* parent := leer parentpos in
        let* cmp := menor newitem parent in
        if (cmp : bool) then
          let* parent := leer parentpos in
          let* newitem := leer pos in
          let* _ := poner parentpos newitem in
          let* _ := poner pos parent in
          siftdown_bucle n newitem startpos parentpos
        else ret tt
    end
  else ret tt.

Definition siftdown (startpos pos : nat) : M (list A) unit :=
  λ h,
    if bool_decide (pos < length h) then
      (let* newitem := leer pos in
       siftdown_bucle pos newitem startpos pos) h
    else (Lanza (IndexError "index out of range"), h).

(** The [while (pos < limit)] loop of [siftup], with [limit = endpos >> 1];
    [pos] goes up at every turn and stays below [endpos]. *)
Fixpoint siftup_bucle (n : nat) (endpos pos : nat) : M (list A) nat :=
  if bool_decide (pos < endpos `div` 2) then
    match n with
    | 0 => λ h, (SinCombustible, h)
    | S n =>
        let childpos := 2 * pos + 1 in
        let* childpos :=
          if bool_decide (childpos + 1 < endpos) then
            let* a := leer childpos in
            let* b := leer (childpos + 1) in
            let* cmp := menor a b in
            ret (if (cmp : bool) then childpos else childpos + 1)
          else ret childpos in
        let* tmp1 := leer childpos in
        let* tmp2 := leer pos in
        let* _ := poner childpos tmp2 in
        let* _ := poner pos tmp1 in
        siftup_bucle n endpos childpos
    end
  else ret pos.

Definition siftup (pos : nat) : M (list A) unit :=
  λ h,
    let endpos := length h in
    let startpos := pos in
    if bool_decide (pos < endpos) then
      (let* pos := siftup_bucle endpos endpos pos in
       siftdown startpos pos) h
    else (Lanza (IndexError "index out of range"), h).

(** [heap.append(item)], then [siftdown(heap, 0, len(heap) - 1)]. *)
Definition heappush (item : A) : M (list A) unit :=
  λ h, siftdown 0 (length (h ++ [item]) - 1) (h ++ [item]).

Definition heappop : M (list A) A :=
  λ h, match last h with
       | None => (Lanza (IndexError "index out of range"), h)
       | Some lastelt =>
           let h := removelast h in
           match h with
           | [] => (Ok lastelt, h)
           | returnitem :: _ =>
               (let* _ := poner 0 lastelt in
                let* _ := siftup 0 in
                ret returnitem) h
           end
       end.
End Heapq.
End heapq.

(** ** class ColaPrioridades *)
Module ColaPrioridades.

Definition _valor : list (string * Z) :=
  [("Alta", 1%Z); ("Media", 2%Z); ("Baja", 3%Z)].

(** [a < b] on the tuples of the heap.  Python looks for the first
    position where the tuples differ under [==]; the numbers decide when
    they differ; otherwise the messages are compared, and two different
    [Mensaje] objects have no [<]. *)
Definition tupla_lt (a b : Z * Mensaje) : resultado bool :=
  if bool_decide (a.1 = b.1) then
    if Mensaje.es a.2 b.2 then Ok false
    else Lanza (TypeError
      "'<' not supported between instances of 'Mensaje' and 'Mensaje'")
  else Ok (bool_decide (a.1 < b.1)%Z).

Definition en_heap {A} (m : M (list (Z * Mensaje)) A) : M ColaPrioridades A :=
  zoom (λ c, Some (_heap c)) (λ h _, mkColaPrioridades h) m.

Definition __init__ : ColaPrioridades := {| _heap := [] |}.

Definition agregar (mensaje : Mensaje) : M ColaPrioridades unit :=
  let prioridad_num := default 2%Z (dict.get (_prioridad mensaje) _valor) in
  en_heap (heapq.heappush tupla_lt (prioridad_num, mensaje)).

Definition esta_vacia : M ColaPrioridades bool :=
  λ c, (Ok (bool_decide (_heap c = [])), c).

Definition procesar : M ColaPrioridades (option Mensaje) :=
  λ c, if bool_decide (_heap c = []) then (Ok None, c)
       else (let* t := en_heap (heapq.heappop tupla_lt) in ret (Some t.2)) c.

End ColaPrioridades.

(** ** class ServidorCorreo *)
Module ServidorCorreo.

Definition filtros_iniciales : list (string * string) :=
  [("urgente", "Prioritarios"); ("oferta", "Promociones");
   ("universidad", "Academicos")].

Definition __init__ (nombre : string) : M Mundo ref :=
  nuevo_servidor {| ServidorCorreo_nombre := nombre;
                    _usuarios := ∅;
                    _filtros := filtros_iniciales;
                    _cola_prioridades := ColaPrioridades.__init__ |}.

(** Runs a method of the queue object owned by server [self]. *)
Definition en_cola {A} (self : ref) (m : M ColaPrioridades A) : M Mundo A :=
  zoom (λ w, servidores w !! self)
       (λ s w, mkMundo (carpetas w) (listas w) (<[self := s]> (servidores w)))
       (zoom (λ s, Some (_cola_prioridades s))
             (λ c s, mkServidorCorreo (ServidorCorreo_nombre s) (_usuarios s)
                                      (_filtros s) c)
             m).

Definition registrar_usuario (self : ref) (usuario : Usuario) : M Mundo unit :=
  let* s := leer_servidor self in
  match _usuarios s !! _email usuario with
  | Some _ =>
      raise (ValueError ("El email " +:+ _email usuario +:+ " ya est" +:+
                         String (ascii_of_nat 225) " registrado."))
  | None =>
      escribir_servidor self
        (mkServidorCorreo (ServidorCorreo_nombre s)
           (<[_email usuario := usuario]> (_usuarios s))
           (_filtros s) (_cola_prioridades s))
  end.

Definition _obtener_usuario (self : ref) (email : string) : M Mundo Usuario :=
  let* s := leer_servidor self in
  match _usuarios s !! email with
  | Some usuario => ret usuario
  | None =>
      raise (ValueError ("No existe el usuario " +:+ email +:+
                         " en el servidor " +:+ ServidorCorreo_nombre s +:+ "."))
  end.

Definition agregar_filtro (self : ref) (palabra_clave carpeta_destino : string)
    : M Mundo unit :=
  let* s := leer_servidor self in
  escribir_servidor self
    (mkServidorCorreo (ServidorCorreo_nombre s) (_usuarios s)
       (dict.set (str.lower palabra_clave) carpeta_destino (_filtros s))
       (_cola_prioridades s)).

(** The [for palabra, carpeta in self._filtros.items()] loop with its
    [break]. *)
Fixpoint _aplicar_filtros_bucle (texto : string)
    (items : list (string * string)) (carpeta_nombre : string) : string :=
  match items with
  | [] => carpeta_nombre
  | (palabra, carpeta) :: items =>
      if str.contains palabra texto then carpeta
      else _aplicar_filtros_bucle texto items carpeta_nombre
  end.

Definition _aplicar_filtros (self : ref) (mensaje : Mensaje)
    (usuario_destino : Usuario) : M Mundo unit :=
  let* s := leer_servidor self in
  let texto := str.lower (_asunto mensaje +:+ " " +:+ _cuerpo mensaje) in
  let carpeta_nombre := _aplicar_filtros_bucle texto (_filtros s) "Entrada" in
  let* carpeta := Usuario.obtener_carpeta usuario_destino carpeta_nombre in
  Carpeta.agregar_mensaje carpeta mensaje.

Definition enviar (self : ref) (mensaje : Mensaje) : M Mundo unit :=
  let* s := leer_servidor self in
  let* _ :=
    match _usuarios s !! _remitente mensaje with
    | Some remitente =>
        let* enviados := Usuario.obtener_carpeta remitente "Enviados" in
        Carpeta.agregar_mensaje enviados mensaje
    | None => ret tt
    end in
  let* _ := en_cola self (ColaPrioridades.agregar mensaje) in
  try_except_ValueError
    (let* destinatario := _obtener_usuario self (_destinatario mensaje) in
     _aplicar_filtros self mensaje destinatario)
    (ret tt).

(** The [while not self._cola_prioridades.esta_vacia()] loop; the messages
    are returned in the order in which their lines are printed. *)
Fixpoint procesar_bucle (n : nat) (self : ref) (impresos : list Mensaje)
    : M Mundo (list Mensaje) :=
  let* vacia := en_cola self ColaPrioridades.esta_vacia in
  if (vacia : bool) then ret impresos
  else
    match n with
    | 0 => λ w, (SinCombustible, w)
    | S n =>
        let* m := en_cola self ColaPrioridades.procesar in
        match m with
        | None =>
            raise (AttributeError
                     "'NoneType' object has no attribute 'prioridad'")
        | Some m => procesar_bucle n self (impresos ++ [m])
        end
    end.

(** Every turn of the loop takes one tuple off the heap. *)
Definition procesar_mensajes_prioritarios (self : ref) : M Mundo (list Mensaje) :=
  let* s := leer_servidor self in
  procesar_bucle (length (_heap (_cola_prioridades s))) self [].

Definition recibir (self : ref) (email : string) : M Mundo ref :=
  let* usuario := _obtener_usuario self email in
  let* entrada := Usuario.obtener_carpeta usuario "Entrada" in
  Carpeta.mensajes entrada.

Definition listar (self : ref) (email carpeta : string) : M Mundo ref :=
  let* usuario := _obtener_usuario self email in
  let* c := Usuario.obtener_carpeta usuario carpeta in
  Carpeta.mensajes c.

End ServidorCorreo.

(** [Usuario.enviar_mensaje]; it comes after [ServidorCorreo], as in the
    source, because it calls [enviar]. *)
Definition Usuario_enviar_mensaje (env : Entorno) (self : Usuario) (servidor : ref)
    (destinatario asunto cuerpo prioridad : string) : M Mundo unit :=
match Usuario.redactar env self destinatario asunto cuerpo prioridad with
| Ok msg => ServidorCorreo.enviar servidor msg
| Lanza e => raise e
| SinCombustible => λ w, (SinCombustible, w)
| RefColgante => λ w, (RefColgante, w)
end.

(** ** Printed output

    Where a theorem speaks of what is printed, the lines written to the
    standard output are kept beside the store, in the state: like the
    store, they are still there when an exception escapes. *)

(** [print(linea)] *)
Definition imprimir (linea : string) : M (list string * Mundo) unit :=
  λ s, (Ok tt, (s.1 ++ [linea], s.2)).

(** Runs a computation on the store; it prints nothing. *)
Definition en_mundo {A} (m : M Mundo A) : M (list string * Mundo) A :=
  zoom (λ s, Some s.2) (λ w s, (s.1, w)) m.

(** ** class RedServidores *)
Module RedServidores.

Definition __init__ : RedServidores :=
  {| _servidores := []; _conexiones := [] |}.

(** [d.setdefault(k, [])] on the adjacency dict. *)
Definition setdefault (k : string) (d : list (string * list string))
    : list (string * list string) :=
  if dict.contains k d then d else dict.set k [] d.

(** [d.setdefault(k, []).append(x)] *)
Definition setdefault_append (k x : string) (d : list (string * list string))
    : list (string * list string) :=
  let d := setdefault k d in
  dict.set k (default [] (dict.get k d) ++ [x]) d.

Definition agregar_servidor (self : RedServidores) (servidor : ref)
    : M Mundo RedServidores :=
  let* s := leer_servidor servidor in
  ret {| _servidores := dict.set (ServidorCorreo_nombre s) servidor (_servidores self);
         _conexiones := setdefault (ServidorCorreo_nombre s) (_conexiones self) |}.

Definition conectar (self : RedServidores) (a b : string) : RedServidores :=
  {| _servidores := _servidores self;
     _conexiones := setdefault_append b a (setdefault_append a b (_conexiones self)) |}.

(** [self._conexiones.get(actual, [])] *)
Definition vecinos (self : RedServidores) (actual : string) : list string :=
  default [] (dict.get actual (_conexiones self)).

(** The [while cola] loop of [bfs]. *)
Fixpoint bfs_bucle (n : nat) (self : RedServidores) (destino : string)
    (visitados : gset string) (cola : list (string * list string))
    : resultado (option (list string)) :=
  match cola with
  | [] => Ok None
  | (actual, camino) :: cola =>
      match n with
      | 0 => SinCombustible
      | S n =>
          if bool_decide (actual = destino) then Ok (Some camino)
          else if bool_decide (actual ∈ visitados) then
            bfs_bucle n self destino visitados cola
          else
            let visitados := visitados ∪ {[actual]} in
            let nuevos :=
              (λ vecino, (vecino, camino ++ [vecino])) <$>
              filter (λ vecino, vecino ∉ visitados) (vecinos self actual) in
            bfs_bucle n self destino visitados (cola ++ nuevos)
      end
  end.

(** A bound on the number of turns: every turn takes one entry off the
    queue, and a name is expanded at most once, adding at most as many
    entries as it has neighbours. *)
Definition bfs_combustible (self : RedServidores) : nat :=
  S (sum_list ((λ kv, S (length kv.2)) <$> _conexiones self)).

Definition bfs (self : RedServidores) (origen destino : string)
    : resultado (option (list string)) :=
  bfs_bucle (bfs_combustible self) self destino ∅ [(origen, [origen])].

(** The [for vecino in ...] loop of [dfs]; [f] is the recursive call, which
    takes the shared set [visitados] and gives it back with what it added. *)
Fixpoint dfs_bucle (f : string → gset string → resultado (list string * gset string))
    (vecinos : list string) (resultado_ : list string) (visitados : gset string)
    : resultado (list string * gset string) :=
match vecinos with
| [] => Ok (resultado_, visitados)
| vecino :: vecinos =>
    if bool_decide (vecino ∉ visitados) then
      match f vecino visitados with
      | Ok (r, visitados) => dfs_bucle f vecinos (resultado_ ++ r) visitados
      | Lanza e => Lanza e
      | SinCombustible => SinCombustible
      | RefColgante => RefColgante
      end
    else dfs_bucle f vecinos resultado_ visitados
end.

(** [dfs(origen, visitados)]; [n] bounds the depth of the recursion.  The
    set is one object shared by all the calls, so it is threaded through. *)
Fixpoint dfs_rec (n : nat) (self : RedServidores) (origen : string)
    (visitados : gset string) : resultado (list string * gset string) :=
match n with
| 0 => SinCombustible
| S n =>
    let visitados := visitados ∪ {[origen]} in
    dfs_bucle (dfs_rec n self) (vecinos self origen) [origen] visitados
end.

(** Every nested call visits a name listed in some adjacency list and not
    visited before, so the depth is bounded by the number of listed names. *)
Definition dfs_combustible (self : RedServidores) : nat :=
S (sum_list ((λ kv, length kv.2) <$> _conexiones self)).

(** [dfs(origen)], with [visitados=None]. *)
Definition dfs (self : RedServidores) (origen : string) : resultado (list string) :=
match dfs_rec (dfs_combustible self) self origen ∅ with
| Ok (r, _) => Ok r
| Lanza e => Lanza e
| SinCombustible => SinCombustible
| RefColgante => RefColgante
end.

(** [" -> ".join(ruta)] *)
Fixpoint unir_flechas (ruta : list string) : string :=
match ruta with
| [] => ""
| [s] => s
| s :: ruta => s +:+ " -> " +:+ unir_flechas ruta
end.

(** Prints the route before the message is handed over, so the line is
    in the output also when [enviar] raises. *)
Definition enviar_entre_servidores (self : RedServidores) (mensaje : Mensaje)
    (nombre_origen nombre_destino : string) : M (list string * Mundo) unit :=
match bfs self nombre_origen nombre_destino with
| Ok None | Ok (Some []) => imprimir "No hay ruta entre servidores."
| Ok (Some ruta) =>
    let* _ := imprimir ("Ruta elegida (BFS): " +:+ unir_flechas ruta) in
    match dict.get nombre_destino (_servidores self) with
    | None => imprimir "Servidor destino inexistente."
    | Some servidor_destino =>
        en_mundo (ServidorCorreo.enviar servidor_destino mensaje)
    end
| Lanza e => raise e
| SinCombustible => λ s, (SinCombustible, s)
| RefColgante => λ s, (RefColgante, s)
end.

End RedServidores.

(** * Specification vocabulary

    The notions the theorems are stated with, and the invariants their
    proofs carry. *)

(** ** Walks in the server graph *)
Section Caminos.
Context (red : RedServidores) (origen destino : string).

(** [v] is listed among the neighbours of [u]. *)
Definition arista (u v : string) : Prop := v ∈ RedServidores.vecinos red u.

(** [es_camino d p]: [p] lists the names of a walk from [origen] to [d],
    each name a neighbour of the one before it.  A walk of one name has
    no edge. *)
Inductive es_camino : string → list string → Prop :=
| camino_origen : es_camino origen [origen]
| camino_paso u d p : es_camino u p → arista u d → es_camino d (p ++ [d]).

(** What is still to be paid for: the entries of the queue, and for every
    name not yet expanded one turn plus its neighbours. *)
Definition pendiente (visitados : gset string) : nat :=
  sum_list ((λ kv : string * list string,
               if decide (kv.1 ∈ visitados) then 0 else S (length kv.2))
            <$> _conexiones red).

(** [cubierto V Q nivel n w]: [w] was expanded at level at most [n], or
    waits in the queue with a walk of at most [n] names. *)
Definition cubierto (V : gset string) (Q : list (string * list string))
    (nivel : string → nat) (n : nat) (w : string) : Prop :=
  (w ∈ V ∧ nivel w ≤ n) ∨ (∃ p, (w, p) ∈ Q ∧ length p ≤ n).

(** The loop invariant.  [nivel] remembers the length of the walk with
    which each name was expanded; the queue holds walks of [k] names
    followed by walks of [k + 1] names. *)
Record inv (nivel : string → nat) (k : nat) (V : gset string)
    (Q1 Q2 : list (string * list string)) : Prop := {
  inv_q1 : Forall (λ e, length e.2 = k) Q1;
  inv_q2 : Forall (λ e, length e.2 = S k) Q2;
  inv_nivel : ∀ u, u ∈ V → nivel u ≤ k;
  inv_caminos : Forall (λ e, es_camino e.1 e.2) (Q1 ++ Q2);
  inv_destino : destino ∉ V;
  inv_origen : cubierto V (Q1 ++ Q2) nivel 1 origen;
  inv_vecinos : ∀ u d, u ∈ V → arista u d →
                cubierto V (Q1 ++ Q2) nivel (S (nivel u)) d;
}.

Definition invariante (V : gset string) (Q : list (string * list string)) : Prop :=
  ∃ nivel k Q1 Q2, Q = Q1 ++ Q2 ∧ inv nivel k V Q1 Q2.

Definition nuevos (V : gset string) (v : string) (p : list string)
    : list (string * list string) :=
  (λ vecino, (vecino, p ++ [vecino])) <$>
  filter (λ vecino, vecino ∉ V ∪ {[v]}) (RedServidores.vecinos red v).

End Caminos.

Arguments inv_q1 {_ _ _ _ _ _ _ _} _.
Arguments inv_q2 {_ _ _ _ _ _ _ _} _.
Arguments inv_nivel {_ _ _ _ _ _ _ _} _.
Arguments inv_caminos {_ _ _ _ _ _ _ _} _.
Arguments inv_destino {_ _ _ _ _ _ _ _} _.
Arguments inv_origen {_ _ _ _ _ _ _ _} _.
Arguments inv_vecinos {_ _ _ _ _ _ _ _} _.

(** The network of the demonstration: servers A, B, C and D are added, A is
    connected to C and C to B; D stays alone. *)
Definition red_de_ejemplo : M Mundo RedServidores :=
  let* a := ServidorCorreo.__init__ "A" in
  let* b := ServidorCorreo.__init__ "B" in
  let* c := ServidorCorreo.__init__ "C" in
  let* d := ServidorCorreo.__init__ "D" in
  let* red := RedServidores.agregar_servidor RedServidores.__init__ a in
  let* red := RedServidores.agregar_servidor red b in
  let* red := RedServidores.agregar_servidor red c in
  let* red := RedServidores.agregar_servidor red d in
  ret (RedServidores.conectar (RedServidores.conectar red "A" "C") "C" "B").


(** ** Sending and the priority queue *)

(** The message of the [TypeError] that [<] raises on two messages. *)
Definition falta_lt : string :=
  "'<' not supported between instances of 'Mensaje' and 'Mensaje'".

(** [ColaPrioridades._valor.get(mensaje.prioridad, 2)] *)
Definition ordinal (m : Mensaje) : Z :=
  default 2%Z (dict.get (_prioridad m) ColaPrioridades._valor).

(** A server with two registered users, as [main] builds it. *)
Definition servidor_con_usuarios : M Mundo (ref * Usuario * Usuario) :=
  let* s := ServidorCorreo.__init__ "Servidor_Local" in
  let* u1 := Usuario.__init__ "Luis" "luis@mail.com" in
  let* u2 := Usuario.__init__ "Ana" "ana@mail.com" in
  let* _ := ServidorCorreo.registrar_usuario s u1 in
  let* _ := ServidorCorreo.registrar_usuario s u2 in
  ret (s, u1, u2).

Definition mensaje_de_prueba (n : nat) (remitente destinatario asunto prioridad : string)
    : Mensaje :=
  mkMensaje n "uuid" remitente destinatario asunto "texto" 0 false prioridad.

(** Three messages from Luis to Ana, sent in this order: Alta, Media, Media. *)
Definition tres_envios : M Mundo ref :=
  let* (s, _, _) := servidor_con_usuarios in
  let* _ := ServidorCorreo.enviar s
              (mensaje_de_prueba 1 "luis@mail.com" "ana@mail.com" "uno" "Alta") in
  let* _ := ServidorCorreo.enviar s
              (mensaje_de_prueba 2 "luis@mail.com" "ana@mail.com" "dos" "Media") in
  let* _ := ServidorCorreo.enviar s
              (mensaje_de_prueba 3 "luis@mail.com" "ana@mail.com" "tres" "Media") in
  ret s.

Definition cola_de (w : Mundo) (s : ref) : option (list (Z * Mensaje)) :=
  (λ srv, _heap (_cola_prioridades srv)) <$> servidores w !! s.

(** The world after one message from outside has been sent to Ana. *)
Definition un_envio : M Mundo ref :=
  let* (s, _, _) := servidor_con_usuarios in
  let* _ := ServidorCorreo.enviar s
              (mensaje_de_prueba 1 "eva@otro.com" "ana@mail.com" "uno" "Media") in
  ret s.

Definition servidor_en (w : Mundo) (r : ref) : ServidorCorreo :=
  default (mkServidorCorreo "" ∅ [] ColaPrioridades.__init__) (servidores w !! r).

Definition con_cola (s : ServidorCorreo) (h : list (Z * Mensaje)) : ServidorCorreo :=
  mkServidorCorreo (ServidorCorreo_nombre s) (_usuarios s) (_filtros s)
                   (mkColaPrioridades h).


(** ** Well-formed stores *)

(** The messages of folder [r], read through its list object. *)
Definition mensajes_de (w : Mundo) (r : ref) : option (list Mensaje) :=
match carpetas w !! r with
| Some c => listas w !! _mensajes c
| None => None
end.

(** What every store built by the program satisfies: the list object of a
    folder exists and belongs to that folder alone; a child was created
    after its parent, exists, and points back to it. *)
Record bien_formado (w : Mundo) : Prop := {
  bf_lista : ∀ r c, carpetas w !! r = Some c → _mensajes c < length (listas w);
  bf_propia : ∀ r1 r2 c1 c2,
    carpetas w !! r1 = Some c1 → carpetas w !! r2 = Some c2 →
    _mensajes c1 = _mensajes c2 → r1 = r2;
  bf_hijo : ∀ r c nombre h,
    carpetas w !! r = Some c → (nombre, h) ∈ _subcarpetas c →
    r < h ∧ ∃ c', carpetas w !! h = Some c' ∧ _padre c' = Some r;
}.

(** A computation that keeps the store well formed, whatever it returns. *)
Definition preserva {A} (m : M Mundo A) : Prop :=
∀ w, bien_formado w → bien_formado (m w).2.

(** ** Folders for the examples *)

(** A user whose Entrada holds the given messages, in order; returns the
    user and the address of Entrada. *)
Fixpoint agregar_todos (c : ref) (ms : list Mensaje) : M Mundo unit :=
match ms with
| [] => ret tt
| m :: ms => let* _ := Carpeta.agregar_mensaje c m in agregar_todos c ms
end.

Definition buzon_con (ms : list Mensaje) : M Mundo ref :=
let* u := Usuario.__init__ "Luis" "luis@mail.com" in
let* entrada := Usuario.obtener_carpeta u "Entrada" in
let* _ := agregar_todos entrada ms in
ret entrada.

Definition carta (n : nat) (asunto : string) : Mensaje :=
mensaje_de_prueba n "ana@mail.com" "luis@mail.com" asunto "Media".

(** The text of the [IndexError] of [mover_mensaje]. *)
Definition fuera_de_rango : string :=
String (ascii_of_nat 205) "ndice de mensaje fuera de rango.".

(** ** Paths in a folder tree *)

(** [desciende w r partes r']: following the child names [partes] one by
    one from folder [r] ends in folder [r']. *)
Inductive desciende (w : Mundo) : ref → list string → ref → Prop :=
| desciende_fin r : desciende w r [] r
| desciende_paso r c p h partes r' :
    carpetas w !! r = Some c →
    dict.get p (_subcarpetas c) = Some h →
    desciende w h partes r' →
    desciende w r (p :: partes) r'.

(** The text of the [ValueError] of [obtener_por_ruta]. *)
Definition no_existe (p ruta : string) : string :=
"No existe la carpeta '" +:+ p +:+ "' en la ruta '" +:+ ruta +:+ "'".

Fixpoint tiene_barra (s : string) : bool :=
match s with
| EmptyString => false
| String c r => str.es_barra c || tiene_barra r
end.

(** [s] begins with a slash. *)
Definition empieza_con_barra (s : string) : bool :=
match s with
| EmptyString => false
| String c _ => bool_decide (c = "/"%char)
end.

(** [s] ends with a slash. *)
Fixpoint termina_con_barra (s : string) : bool :=
match s with
| EmptyString => false
| String c EmptyString => bool_decide (c = "/"%char)
| String _ r => termina_con_barra r
end.

(** The store right after [Usuario.__init__] has run in store [w]. *)
Definition mundo_con_usuario (w : Mundo) : Mundo :=
let n := length (carpetas w) in
let k := length (listas w) in
mkMundo
  (carpetas w ++
   [mkCarpeta "Root" k
      [("Entrada", n + 1); ("Enviados", n + 2); ("Prioritarios", n + 3)] None;
    mkCarpeta "Entrada" (k + 1) [] (Some n);
    mkCarpeta "Enviados" (k + 2) [] (Some n);
    mkCarpeta "Prioritarios" (k + 3) [] (Some n)])
  (listas w ++ [[]; []; []; []])
  (servidores w).

(** ** Searching the folder tree *)

(** [preorden w r l]: [l] lists the folders of the tree rooted at [r] in
    depth-first preorder: [r] itself, then the subtree of each child, the
    children taken in the order of the dict of [r]. *)
#[local] Unset Elimination Schemes.
Inductive preorden (w : Mundo) : ref → list ref → Prop :=
| preorden_nodo r c hijos :
    carpetas w !! r = Some c →
    Forall2 (preorden w) (dict.values (_subcarpetas c)) hijos →
    preorden w r (r :: concat hijos).
#[local] Set Elimination Schemes.

(** [texto] occurs in [s] when case is ignored. *)
Definition contiene_sin_distinguir (texto s : string) : Prop :=
∃ antes despues, str.lower s = antes +:+ str.lower texto +:+ despues.

(** The matches of one folder: its messages, in order, whose subject or
    sender contains [texto], each paired with the folder. *)
Definition coincidencias_en (w : Mundo) (texto : string) (r : ref)
    : list (ref * Mensaje) :=
(λ m, (r, m)) <$>
filter (λ m, SistemaCorreo.coincide (str.lower texto) m)
       (default [] (mensajes_de w r)).

Definition coincidencias (w : Mundo) (texto : string) (l : list ref)
    : list (ref * Mensaje) :=
concat (coincidencias_en w texto <$> l).

(** [w'] differs from [w] only by list objects allocated since. *)
Definition extiende (w w' : Mundo) : Prop :=
carpetas w' = carpetas w ∧ servidores w' = servidores w
∧ ∃ extra, listas w' = listas w ++ extra.

(** A tree: Entrada holds three messages and has a subfolder Trabajo with
    one more; Enviados holds one. *)
Definition arbol_de_ejemplo : M Mundo Usuario :=
let* u := Usuario.__init__ "Luis" "luis@mail.com" in
let* entrada := Usuario.obtener_carpeta u "Entrada" in
let* enviados := Usuario.obtener_carpeta u "Enviados" in
let* trabajo := Carpeta.crear_subcarpeta entrada "Trabajo" in
let* _ := Carpeta.agregar_mensaje entrada
            (mensaje_de_prueba 1 "ana@mail.com" "luis@mail.com" "Prueba red urgente" "Alta") in
let* _ := Carpeta.agregar_mensaje entrada
            (mensaje_de_prueba 2 "ana@mail.com" "luis@mail.com" "Hola" "Media") in
let* _ := Carpeta.agregar_mensaje trabajo
            (mensaje_de_prueba 3 "URGENTE@mail.com" "luis@mail.com" "Informe" "Media") in
let* _ := Carpeta.agregar_mensaje enviados
            (mensaje_de_prueba 4 "luis@mail.com" "ana@mail.com" "Re: Urgente" "Baja") in
let* _ := Carpeta.agregar_mensaje entrada
            (mensaje_de_prueba 5 "ana@mail.com" "luis@mail.com" "MUY URGENTE" "Media") in
ret u.

(** ** Delivery *)

(** The folder called [nombre] directly under the root of [u]. *)
Definition carpeta_de (w : Mundo) (u : Usuario) (nombre : string) : option ref :=
match carpetas w !! _raiz u with
| Some c => dict.get nombre (_subcarpetas c)
| None => None
end.

(** [entregado w u nombre m w']: going from [w] to [w'], message [m] was
    appended to the folder [nombre] of user [u], which was created first if
    the user had none of that name; nothing else changed in the folders
    that existed, and the servers are as they were. *)
Definition entregado (w : Mundo) (u : Usuario) (nombre : string) (m : Mensaje)
    (w' : Mundo) : Prop :=
∃ c, carpeta_de w' u nombre = Some c
   ∧ (carpeta_de w u nombre = Some c
      ∨ (carpeta_de w u nombre = None ∧ c = length (carpetas w)))
   ∧ mensajes_de w' c = Some (default [] (mensajes_de w c) ++ [m])
   ∧ (∀ r, r ≠ c → is_Some (carpetas w !! r) → mensajes_de w' r = mensajes_de w r)
   ∧ (∀ u2 n2 c2, carpeta_de w u2 n2 = Some c2 → carpeta_de w' u2 n2 = Some c2)
   ∧ servidores w' = servidores w.

(** The folder name chosen by [_aplicar_filtros] for a message. *)
Definition carpeta_destino (filtros : list (string * string)) (m : Mensaje) : string :=
ServidorCorreo._aplicar_filtros_bucle
  (str.lower (_asunto m +:+ " " +:+ _cuerpo m)) filtros "Entrada".

(** The roots of the users registered on a server are folders of the store. *)
Definition raices_validas (w : Mundo) (s : ServidorCorreo) : Prop :=
∀ email u, _usuarios s !! email = Some u → is_Some (carpetas w !! _raiz u).

(** [w] with the heap of server [self] replaced by [h]. *)
Definition con_cola_en (w : Mundo) (self : ref) (s : ServidorCorreo)
    (h : list (Z * Mensaje)) : Mundo :=
mkMundo (carpetas w) (listas w) (<[self := con_cola s h]> (servidores w)).


(** ** Texts of the errors of the server and of the folders *)

Definition ya_registrado (email : string) : string :=
"El email " +:+ email +:+ " ya est" +:+ String (ascii_of_nat 225) " registrado.".

Definition usuario_inexistente (email servidor : string) : string :=
"No existe el usuario " +:+ email +:+ " en el servidor " +:+ servidor +:+ ".".

Definition subcarpeta_repetida (nombre : string) : string :=
"La subcarpeta '" +:+ nombre +:+ "' ya existe.".

Definition no_esta_en_la_lista : string := "list.remove(x): x not in list".


(** ** Filters *)

(** The text in which [_aplicar_filtros] looks for the keywords. *)
Definition texto_de (m : Mensaje) : string :=
str.lower (_asunto m +:+ " " +:+ _cuerpo m).

(** Some keyword of the table occurs in the text. *)
Definition algun_filtro (filtros : list (string * string)) (texto : string) : bool :=
existsb (λ f, str.contains f.1 texto) filtros.


(** ** Networks *)

(** Every connection is listed on both sides. *)
Definition simetrica (red : RedServidores) : Prop :=
∀ a b, arista red a b → arista red b a.

(** Some walk leads from [o] to [d]. *)
Definition alcanzable (red : RedServidores) (o d : string) : Prop :=
∃ p, es_camino red o d p.

(** The first line printed by [enviar_entre_servidores] for a route. *)
Definition linea_de_ruta (ruta : list string) : string :=
"Ruta elegida (BFS): " +:+ RedServidores.unir_flechas ruta.

(** What bounds the depth of [dfs]: the entries of the adjacency lists
    that name a server not visited yet. *)
Definition por_visitar (red : RedServidores) (V : gset string) : nat :=
sum_list ((λ kv : string * list string, length (filter (λ x, x ∉ V) kv.2))
          <$> _conexiones red).

(** What a call of [dfs] from [o] with the set [V] hands back: the list [r]
    of the names it visited and the set [V'] it leaves. *)
Definition dfs_visita (red : RedServidores) (o : string) (V : gset string)
    (r : list string) (V' : gset string) : Prop :=
V' = V ∪ list_to_set r
∧ NoDup r
∧ (∀ x, x ∈ r → x ∉ V)
∧ head r = Some o
∧ (∀ x, x ∈ r → alcanzable red o x)
∧ (∀ x y, x ∈ r → arista red x y → y ∈ V').


(** Every message of the folders [l], each paired with its folder. *)
Definition todos_los_mensajes (w : Mundo) (l : list ref) : list (ref * Mensaje) :=
concat ((λ r, (λ m, (r, m)) <$> default [] (mensajes_de w r)) <$> l).


(** ** Filling and draining the queue *)

(** [agregar] of each message in turn. *)
Fixpoint encolar (ms : list Mensaje) : M ColaPrioridades unit :=
match ms with
| [] => ret tt
| m :: ms => let* _ := ColaPrioridades.agregar m in encolar ms
end.

(** [heappush] of each tuple in turn. *)
Fixpoint empujar (ps : list (Z * Mensaje)) : M (list (Z * Mensaje)) unit :=
match ps with
| [] => ret tt
| p :: ps => let* _ := heapq.heappush ColaPrioridades.tupla_lt p in empujar ps
end.

(** The loop of [procesar_mensajes_prioritarios], run on the queue object
    itself. *)
Fixpoint vaciar (n : nat) (impresos : list Mensaje)
    : M ColaPrioridades (list Mensaje) :=
let* vacia := ColaPrioridades.esta_vacia in
if (vacia : bool) then ret impresos
else
  match n with
  | 0 => λ c, (SinCombustible, c)
  | S n =>
      let* m := ColaPrioridades.procesar in
      match m with
      | None =>
          raise (AttributeError
                   "'NoneType' object has no attribute 'prioridad'")
      | Some m => vaciar n (impresos ++ [m])
      end
  end.

(** The messages are listed by strictly increasing priority number. *)
Definition por_prioridad (r : list Mensaje) : Prop :=
∀ i j a b, i < j → r !! i = Some a → r !! j = Some b →
           (ordinal a < ordinal b)%Z.
(** * Properties *)

(** ** Message construction *)

Lemma prioridad_valida_dec (p : string) :
  p ∈ Mensaje.prioridades ↔ p = "Alta" ∨ p = "Media" ∨ p = "Baja".
Proof.
  unfold Mensaje.prioridades. rewrite !elem_of_cons, elem_of_nil. tauto.
Qed.

(** C7. Building a message ([Mensaje.__init__], and [Usuario.redactar], which
    only passes the user's address as sender) raises exactly when the
    recipient is the empty string.  When it does not raise, the fields are
    stored as given, except that a priority outside Alta/Media/Baja is
    replaced by Media; so composing with priority "Urgent" succeeds and
    stores "Media". *)
Theorem construccion_falla_solo_sin_destinatario
    (env : Entorno) (u : Usuario) (remitente destinatario asunto cuerpo prioridad : string) :
  Usuario.redactar env u destinatario asunto cuerpo prioridad
    = Mensaje.__init__ env (_email u) destinatario asunto cuerpo prioridad
  ∧ ((∃ e, Mensaje.__init__ env remitente destinatario asunto cuerpo prioridad = Lanza e)
      ↔ destinatario = "")
  ∧ (destinatario ≠ "" →
      ∃ m, Mensaje.__init__ env remitente destinatario asunto cuerpo prioridad = Ok m
        ∧ _remitente m = remitente ∧ _destinatario m = destinatario
        ∧ _asunto m = asunto ∧ _cuerpo m = cuerpo ∧ _leido m = false
        ∧ _prioridad m ∈ Mensaje.prioridades
        ∧ (prioridad ∈ Mensaje.prioridades → _prioridad m = prioridad)
        ∧ (prioridad ∉ Mensaje.prioridades → _prioridad m = "Media"))
  ∧ (destinatario ≠ "" →
      ∃ m, Usuario.redactar env u destinatario asunto cuerpo "Urgent" = Ok m
        ∧ _prioridad m = "Media").
Proof.
  split; [reflexivity|]. unfold Usuario.redactar, Mensaje.__init__.
  split; [|split].
  - case_bool_decide; split; try done.
    + intros _. eauto.
    + intros [e He]. discriminate.
  - intros Hne. rewrite bool_decide_eq_false_2 by done.
    eexists; split; [reflexivity|]. cbn.
    repeat split; try done; case_bool_decide; try done.
    apply prioridad_valida_dec. tauto.
  - intros Hne. rewrite bool_decide_eq_false_2 by done.
    eexists; split; reflexivity.
Qed.

Lemma construccion_falla_solo_sin_destinatario_testigo :
  ∃ m, Usuario.redactar (mkEntorno 7 "id" 0) (mkUsuario "Luis" "luis@mail.com" 0)
         "ana@mail.com" "Hola" "Texto" "Urgent" = Ok m
    ∧ _prioridad m = "Media".
Proof.
  apply (construccion_falla_solo_sin_destinatario
           (mkEntorno 7 "id" 0) (mkUsuario "Luis" "luis@mail.com" 0)
           "luis@mail.com" "ana@mail.com" "Hola" "Texto" "Urgent").
  discriminate.
Defined.

(** ** Breadth-first search over the server graph *)
Section BFS.
Context (red : RedServidores) (origen destino : string).

Local Abbreviation arista := (arista red).
Local Abbreviation es_camino := (es_camino red origen).
Local Abbreviation pendiente := (pendiente red).
Local Abbreviation inv := (inv red origen destino).
Local Abbreviation invariante := (invariante red origen destino).
Local Abbreviation nuevos := (nuevos red).

Lemma es_camino_no_vacio d p : es_camino d p → p ≠ [].
Proof. destruct 1; [done|]. by destruct p. Qed.

Lemma pendiente_expandir (visitados : gset string) (actual : string) :
  actual ∉ visitados →
  pendiente (visitados ∪ {[actual]}) + length (RedServidores.vecinos red actual)
    ≤ pendiente visitados.
Proof.
  intros Hno. unfold pendiente, RedServidores.vecinos.
  induction (_conexiones red) as [|[k l] r IH]; [done|].
  cbn [fmap list_fmap sum_list dict.get fst snd] in *.
  assert (Hmono : sum_list ((λ kv : string * list string,
               if decide (kv.1 ∈ visitados ∪ {[actual]}) then 0 else S (length kv.2)) <$> r)
            ≤ sum_list ((λ kv : string * list string,
               if decide (kv.1 ∈ visitados) then 0 else S (length kv.2)) <$> r)).
  { clear. induction r as [|[k l] r IH]; [done|]. cbn.
    destruct (decide (k ∈ visitados ∪ {[actual]})), (decide (k ∈ visitados));
      try lia. set_solver. }
  case_bool_decide as Hk.
  - subst k. cbn. rewrite decide_True by set_solver.
    rewrite decide_False by done. lia.
  - destruct (decide (k ∈ visitados ∪ {[actual]})), (decide (k ∈ visitados));
      try lia; set_solver.
Qed.

Lemma pendiente_inicial :
  RedServidores.bfs_combustible red = S (pendiente ∅).
Proof.
  unfold RedServidores.bfs_combustible, pendiente. by f_equal.
Qed.

Lemma invariante_inicial : invariante ∅ [(origen, [origen])].
Proof.
  exists (λ _, 0), 1, [(origen, [origen])], []. split; [done|].
  split.
  - by repeat constructor.
  - constructor.
  - set_solver.
  - repeat constructor.
  - set_solver.
  - right. exists [origen]. split; [set_solver | done].
  - set_solver.
Qed.

Lemma cubierto_mono V Q nivel n n' w :
  n ≤ n' → cubierto V Q nivel n w → cubierto V Q nivel n' w.
Proof.
  intros Hn [[? ?]|(p & ? & ?)]; [left | right; exists p]; split; auto; lia.
Qed.

(** Every walk from [origen] ends in an expanded name or is matched by a
    queue entry that is not longer. *)
Lemma camino_cubierto nivel k V Q1 Q2 w q :
  inv nivel k V Q1 Q2 → es_camino w q →
  (w ∈ V ∧ nivel w ≤ length q) ∨
  (∃ v p, (v, p) ∈ Q1 ++ Q2 ∧ length p ≤ length q).
Proof.
  intros Hinv. induction 1 as [|u d p Hp IH Hud].
  - destruct (inv_origen Hinv) as [[? ?]|(p & ? & ?)]; [by left|].
    right. by exists origen, p.
  - rewrite length_app. cbn. destruct IH as [[HuV Hn]|(v & p' & Hin & Hlen)].
    + destruct (inv_vecinos Hinv u d HuV Hud) as [[? ?]|(p' & ? & ?)].
      * left. split; [done | lia].
      * right. exists d, p'. split; [done | lia].
    + right. exists v, p'. split; [done | lia].
Qed.

(** With the head of the queue at hand, [k] is the length of its walk. *)
Lemma invariante_cabeza V v p Q :
  invariante V ((v, p) :: Q) →
  ∃ nivel Q1 Q2, Q = Q1 ++ Q2 ∧ inv nivel (length p) V ((v, p) :: Q1) Q2.
Proof.
  intros (nivel & k & Q1 & Q2 & HQ & Hinv).
  destruct Q1 as [|e Q1].
  - cbn in HQ. subst Q2. exists nivel, Q, []. split; [by rewrite app_nil_r|].
    destruct Hinv as [H1 H2 H3 H4 H5 H6 H7]. cbn in *.
    pose proof (Forall_inv H2) as Hk. cbn in Hk. rewrite Hk.
    split; rewrite ?app_nil_r; cbn; try done.
    intros u Hu. specialize (H3 u Hu). lia.
  - cbn in HQ. injection HQ as <- ->. exists nivel, Q1, Q2. split; [done|].
    pose proof (Forall_inv (inv_q1 Hinv)) as Hk. cbn in Hk.
    by rewrite Hk.
Qed.

Lemma inv_saltar nivel k V v p Q1 Q2 :
  inv nivel k V ((v, p) :: Q1) Q2 → v ∈ V → inv nivel k V Q1 Q2.
Proof.
  intros [H1 H2 H3 H4 H5 H6 H7] Hv.
  assert (Hcub : ∀ n w, cubierto V (((v, p) :: Q1) ++ Q2) nivel n w →
                        cubierto V (Q1 ++ Q2) nivel n w).
  { intros n w [?|(p' & Hin & Hlen)]; [by left|].
    cbn in Hin. apply elem_of_cons in Hin as [[= -> ->]|Hin].
    - left. split; [done|]. pose proof (Forall_inv H1) as Hk. cbn in Hk.
      specialize (H3 v Hv). lia.
    - right. by exists p'. }
  split; try done.
  - by eapply Forall_inv_tail.
  - by eapply Forall_inv_tail.
  - by apply Hcub.
  - intros u d Hu Hud. by apply Hcub, H7.
Qed.

Lemma inv_expandir nivel k V v p Q1 Q2 :
  inv nivel k V ((v, p) :: Q1) Q2 → v ∉ V → v ≠ destino →
  inv (λ u, if decide (u = v) then k else nivel u) k (V ∪ {[v]})
      Q1 (Q2 ++ nuevos V v p).
Proof.
  intros [H1 H2 H3 H4 H5 H6 H7] Hv Hd.
  pose proof (Forall_inv H1) as Hk. cbn in Hk.
  pose proof (Forall_inv H4) as Hvp. cbn in Hvp.
  set (nivel' := λ u, if decide (u = v) then k else nivel u).
  assert (Hcub : ∀ n w, cubierto V (((v, p) :: Q1) ++ Q2) nivel n w →
            cubierto (V ∪ {[v]}) (Q1 ++ Q2 ++ nuevos V v p) nivel' n w).
  { intros n w [[Hw Hn]|(p' & Hin & Hlen)].
    - left. split; [set_solver|]. unfold nivel'.
      rewrite decide_False by set_solver. done.
    - cbn in Hin. apply elem_of_cons in Hin as [[= -> ->]|Hin].
      + left. split; [set_solver|]. unfold nivel'.
        rewrite decide_True by done. lia.
      + right. exists p'. split; [|done]. rewrite app_assoc.
        apply elem_of_app. by left. }
  split.
  - by eapply Forall_inv_tail.
  - apply Forall_app. split; [done|]. unfold nuevos.
    apply Forall_fmap, Forall_forall. intros x _. cbn.
    rewrite length_app. cbn. lia.
  - intros u Hu. unfold nivel'. case_decide; [lia|].
    apply H3. set_solver.
  - rewrite app_assoc. apply Forall_app. split; [by eapply Forall_inv_tail|].
    unfold nuevos. apply Forall_fmap, Forall_forall. intros x Hx. cbn.
    apply list_elem_of_filter in Hx as [_ Hx]. by eapply camino_paso.
  - set_solver.
  - by apply Hcub.
  - intros u d Hu Hud. destruct (decide (u = v)) as [->|Hne].
    + assert (nivel' v = k) as -> by (unfold nivel'; by rewrite decide_True).
      destruct (decide (d ∈ V ∪ {[v]})) as [HdV|HdV].
      * left. split; [done|]. unfold nivel'. case_decide; [lia|].
        assert (d ∈ V) as HdV' by set_solver. specialize (H3 d HdV'). lia.
      * right. exists (p ++ [d]). split.
        -- rewrite app_assoc. apply elem_of_app. right. unfold nuevos.
           apply list_elem_of_fmap. exists d. split; [done|].
           by apply list_elem_of_filter.
        -- rewrite length_app. cbn. lia.
    + assert (nivel' u = nivel u) as ->
        by (unfold nivel'; by rewrite decide_False).
      apply Hcub, H7; [set_solver | done].
Qed.

(** The walk at the head of the queue is the shortest one waiting. *)
Lemma inv_cabeza_minima nivel V v p Q1 Q2 e :
  inv nivel (length p) V ((v, p) :: Q1) Q2 →
  e ∈ ((v, p) :: Q1) ++ Q2 → length p ≤ length e.2.
Proof.
  intros Hinv [He|He]%elem_of_app.
  - pose proof (inv_q1 Hinv) as H1.
    rewrite Forall_forall in H1. by rewrite (H1 e He).
  - pose proof (inv_q2 Hinv) as H2.
    rewrite Forall_forall in H2. rewrite (H2 e He). lia.
Qed.

Lemma bfs_bucle_correcto n : ∀ V Q,
  invariante V Q → length Q + pendiente V ≤ n →
  match RedServidores.bfs_bucle n red destino V Q with
  | Ok (Some p) =>
      es_camino destino p ∧ ∀ q, es_camino destino q → length p ≤ length q
  | Ok None => ∀ q, ¬ es_camino destino q
  | _ => False
  end.
Proof.
  assert (Hvacia : ∀ V, invariante V [] → ∀ q, ¬ es_camino destino q).
  { intros V (nivel & k & Q1 & Q2 & HQ & Hinv) q Hq.
    symmetry in HQ. apply app_eq_nil in HQ as [-> ->].
    destruct (camino_cubierto _ _ _ _ _ _ _ Hinv Hq) as [[? _]|(v & p & Hin & _)].
    - by apply (inv_destino Hinv).
    - by apply elem_of_nil in Hin. }
  induction n as [|n IH]; intros V Q Hinv Hn.
  - destruct Q; [|cbn in Hn; lia]. cbn. eauto.
  - destruct Q as [|[actual camino] Q]; [cbn; eauto|].
    cbn [RedServidores.bfs_bucle].
    destruct (invariante_cabeza _ _ _ _ Hinv) as (nivel & Q1 & Q2 & -> & Hi).
    case_bool_decide as Hd.
    + subst actual. split.
      * exact (Forall_inv (inv_caminos Hi)).
      * intros q Hq.
        destruct (camino_cubierto _ _ _ _ _ _ _ Hi Hq) as [[? _]|(v & p & Hin & Hlen)].
        -- by destruct (inv_destino Hi).
        -- pose proof (inv_cabeza_minima _ _ _ _ _ _ _ Hi Hin). cbn in *. lia.
    + case_bool_decide as Hv.
      * apply IH.
        -- exists nivel, (length camino), Q1, Q2. split; [done|].
           by eapply inv_saltar.
        -- cbn in Hn. lia.
      * apply IH.
        -- eexists _, (length camino), Q1, (Q2 ++ nuevos V actual camino).
           split; [by rewrite app_assoc|]. by apply inv_expandir.
        -- pose proof (pendiente_expandir V actual Hv).
           cbn in Hn. rewrite length_app, length_fmap.
           pose proof (length_filter (λ vecino, vecino ∉ V ∪ {[actual]})
                         (RedServidores.vecinos red actual)).
           lia.
Qed.

End BFS.

(** A walk in the usual sense: it starts at the origin, ends at the
    destination, and every name is listed among the neighbours of the name
    before it. *)
Lemma es_camino_caracterizacion (red : RedServidores) (o d : string) (p : list string) :
  es_camino red o d p ↔
  head p = Some o ∧ last p = Some d
  ∧ ∀ i u v, p !! i = Some u → p !! S i = Some v → arista red u v.
Proof.
  split.
  - induction 1 as [|u d p Hp (Hh & Hl & Hc) Hud].
    + repeat split; try done; intros i u v _ Hv; by destruct i.
    + assert (Hne : p ≠ []) by (by eapply es_camino_no_vacio).
      split; [by destruct p|]. split; [by rewrite last_snoc|].
      intros i x y Hx Hy.
      destruct (decide (S i < length p)) as [Hlt|Hge].
      * rewrite lookup_app_l in Hx by lia. rewrite lookup_app_l in Hy by lia.
        by eapply Hc.
      * assert (S i = length p) as Hi.
        { apply lookup_lt_Some in Hy. rewrite length_app in Hy. cbn in Hy. lia. }
        rewrite lookup_app_l in Hx by lia.
        rewrite Hi, list_lookup_middle in Hy by done. injection Hy as <-.
        rewrite last_lookup in Hl.
        replace (pred (length p)) with i in Hl by lia. congruence.
  - revert d. induction p as [|x q IH] using rev_ind; intros d (Hh & Hl & Hc).
    + done.
    + rewrite last_snoc in Hl. injection Hl as ->.
      destruct (decide (q = [])) as [->|Hne].
      * cbn in Hh. injection Hh as ->. constructor.
      * destruct (last q) as [u|] eqn:Hu; [|by apply last_None in Hu].
        apply (camino_paso _ _ u).
        -- apply IH. split; [by destruct q|]. split; [done|].
           intros i a b Ha Hb. apply (Hc i).
           ++ by apply lookup_app_l_Some.
           ++ by apply lookup_app_l_Some.
        -- rewrite last_lookup in Hu. apply (Hc (pred (length q))).
           ++ by apply lookup_app_l_Some.
           ++ assert (0 < length q) by (destruct q; [done|cbn; lia]).
              replace (S (pred (length q))) with (length q) by lia.
              by apply list_lookup_middle.
Qed.

Lemma bfs_correcto (red : RedServidores) (origen destino : string) :
  match RedServidores.bfs red origen destino with
  | Ok (Some p) =>
      es_camino red origen destino p ∧
      ∀ q, es_camino red origen destino q → length p ≤ length q
  | Ok None => ∀ q, ¬ es_camino red origen destino q
  | _ => False
  end.
Proof.
  unfold RedServidores.bfs. apply bfs_bucle_correcto.
  - apply invariante_inicial.
  - rewrite pendiente_inicial. cbn. lia.
Qed.

(** C4. For every adjacency table (so for every network built with
    [agregar_servidor] and [conectar]) and every two names, [bfs] returns
    either a walk from the origin to the destination that no other such walk
    beats in length, or [None], and then no walk exists.  On the network
    A-C, C-B it returns A, C, B from A to B, and [None] from A to the
    isolated D. *)
Theorem bfs_devuelve_camino_minimo (red : RedServidores) (origen destino : string) :
  ((∃ p, RedServidores.bfs red origen destino = Ok (Some p)
         ∧ es_camino red origen destino p
         ∧ ∀ q, es_camino red origen destino q → length p ≤ length q)
   ∨ (RedServidores.bfs red origen destino = Ok None
      ∧ ∀ q, ¬ es_camino red origen destino q))
  ∧ (∃ r w, red_de_ejemplo mundo_vacio = (Ok r, w)
            ∧ RedServidores.bfs r "A" "B" = Ok (Some ["A"; "C"; "B"])
            ∧ RedServidores.bfs r "A" "D" = Ok None).
Proof.
  split.
  - pose proof (bfs_correcto red origen destino) as H.
    destruct (RedServidores.bfs red origen destino) as [[p|]| | |]; try done.
    + left. exists p. by destruct H.
    + by right.
  - eexists _, _. split; [vm_compute; reflexivity|]. split; vm_compute; reflexivity.
Qed.

(** C9. Searching from a name to itself returns the one-name walk, whatever
    the adjacency table holds (the name need not be a server nor have an
    entry); and [bfs] never returns an empty walk. *)
Theorem bfs_mismo_nombre (red : RedServidores) (s origen destino : string) :
  RedServidores.bfs red s s = Ok (Some [s])
  ∧ RedServidores.bfs RedServidores.__init__ s s = Ok (Some [s])
  ∧ RedServidores.bfs red origen destino ≠ Ok (Some []).
Proof.
  split; [|split].
  - unfold RedServidores.bfs, RedServidores.bfs_combustible. cbn.
    by rewrite bool_decide_eq_true_2.
  - unfold RedServidores.bfs, RedServidores.bfs_combustible. cbn.
    by rewrite bool_decide_eq_true_2.
  - intros H. pose proof (bfs_correcto red origen destino) as Hc.
    rewrite H in Hc. destruct Hc as [Hc _].
    by apply es_camino_no_vacio in Hc.
Qed.

(** ** The priority queue *)

Lemma tupla_lt_empate (n : Z) (m1 m2 : Mensaje) :
  identidad m1 ≠ identidad m2 →
  ColaPrioridades.tupla_lt (n, m2) (n, m1) = Lanza (TypeError falta_lt).
Proof.
  intros Hne. unfold ColaPrioridades.tupla_lt, Mensaje.es. cbn.
  rewrite bool_decide_eq_true_2 by done.
  rewrite bool_decide_eq_false_2 by congruence. done.
Qed.

Lemma heappush_vacio {A} (lt : A → A → resultado bool) (x : A) :
  heapq.heappush lt x [] = (Ok tt, [x]).
Proof. reflexivity. Qed.

Lemma heappush_empate (n : Z) (m1 m2 : Mensaje) :
  identidad m1 ≠ identidad m2 →
  heapq.heappush ColaPrioridades.tupla_lt (n, m2) [(n, m1)]
    = (Lanza (TypeError falta_lt), [(n, m1); (n, m2)]).
Proof.
  intros Hne. unfold heapq.heappush, heapq.siftdown.
  cbn -[ColaPrioridades.tupla_lt].
  unfold bind, heapq.leer, heapq.menor, pylist.getitem, ret.
  cbn -[ColaPrioridades.tupla_lt].
  rewrite !bool_decide_eq_true_2 by lia. cbn -[ColaPrioridades.tupla_lt].
  by rewrite tupla_lt_empate.
Qed.

(** C1 (the code departs from the claim). The heap holds tuples
    [(prioridad_num, mensaje)] and [Mensaje] has no [<]: as soon as two
    different messages of the same priority are compared, [heappush] raises
    [TypeError].  Adding a second message of the priority of the first one
    raises, with both tuples left in the heap; and after the sends Alta,
    Media, Media (which go through), [procesar_mensajes_prioritarios] raises
    on its first [heappop], before the line of any message is printed, and
    leaves two messages queued. *)
Theorem cola_no_admite_prioridades_repetidas (m1 m2 : Mensaje) :
  identidad m1 ≠ identidad m2 →
  _prioridad m1 = _prioridad m2 →
  (let* _ := ColaPrioridades.agregar m1 in ColaPrioridades.agregar m2)
    ColaPrioridades.__init__
  = (Lanza (TypeError falta_lt),
     {| _heap := [(ordinal m1, m1); (ordinal m1, m2)] |})
  ∧ ∃ s w, tres_envios mundo_vacio = (Ok s, w)
      ∧ (map identidad ∘ map snd) <$> cola_de w s = Some [1; 2; 3]
      ∧ ∃ w', ServidorCorreo.procesar_mensajes_prioritarios s w
                = (Lanza (TypeError falta_lt), w')
            ∧ (map identidad ∘ map snd) <$> cola_de w' s = Some [2; 3].
Proof.
  intros Hne Hpri. split.
  - unfold ColaPrioridades.agregar, ColaPrioridades.en_heap, zoom, bind.
    cbn -[heapq.heappush ColaPrioridades._valor]. rewrite <- Hpri. fold (ordinal m1).
    rewrite heappush_vacio. cbn -[heapq.heappush].
    by rewrite heappush_empate.
  - eexists _, _. split; [vm_compute; reflexivity|].
    split; [vm_compute; reflexivity|].
    eexists. split; vm_compute; reflexivity.
Qed.

Lemma cola_no_admite_prioridades_repetidas_testigo :
  let m1 := mensaje_de_prueba 1 "luis@mail.com" "ana@mail.com" "uno" "Media" in
  let m2 := mensaje_de_prueba 2 "luis@mail.com" "ana@mail.com" "dos" "Media" in
  identidad m1 ≠ identidad m2
  ∧ _prioridad m1 = _prioridad m2
  ∧ (let* _ := ColaPrioridades.agregar m1 in ColaPrioridades.agregar m2)
      ColaPrioridades.__init__
    = (Lanza (TypeError falta_lt), {| _heap := [(2%Z, m1); (2%Z, m2)] |}).
Proof.
  intros m1 m2.
  assert (H1 : identidad m1 ≠ identidad m2) by discriminate.
  assert (H2 : _prioridad m1 = _prioridad m2) by reflexivity.
  exact (conj H1 (conj H2
    (proj1 (cola_no_admite_prioridades_repetidas m1 m2 H1 H2)))).
Defined.

(** C2 (the code departs from the claim). When the queue of the server
    holds one message of the priority of the message being sent, and the
    two are different objects, [enviar] raises [TypeError] from
    [heappush]: nothing is delivered, whoever the recipient is, and the
    only change in the store is the tuple appended to the heap. *)
Theorem enviar_lanza_si_la_cola_empata
    (w : Mundo) (self : ref) (s : ServidorCorreo) (m1 m2 : Mensaje) :
  servidores w !! self = Some s →
  _heap (_cola_prioridades s) = [(ordinal m2, m1)] →
  identidad m1 ≠ identidad m2 →
  _usuarios s !! _remitente m2 = None →
  ServidorCorreo.enviar self m2 w
  = (Lanza (TypeError falta_lt),
     mkMundo (carpetas w) (listas w)
       (<[self := con_cola s [(ordinal m2, m1); (ordinal m2, m2)]]> (servidores w))).
Proof.
  intros Hs Hheap Hne Hrem.
  unfold ServidorCorreo.enviar, bind, leer_servidor. rewrite Hs, Hrem. cbn.
  unfold ServidorCorreo.en_cola, zoom. rewrite Hs.
  unfold ColaPrioridades.agregar, ColaPrioridades.en_heap, zoom.
  cbn -[heapq.heappush ColaPrioridades._valor]. fold (ordinal m2).
  rewrite Hheap, heappush_empate by done. done.
Qed.

Lemma enviar_lanza_si_la_cola_empata_testigo :
  let w := (un_envio mundo_vacio).2 in
  let m1 := mensaje_de_prueba 1 "eva@otro.com" "ana@mail.com" "uno" "Media" in
  let m2 := mensaje_de_prueba 2 "eva@otro.com" "nadie@otro.com" "dos" "Media" in
  servidores w !! 0 = Some (servidor_en w 0)
  ∧ _heap (_cola_prioridades (servidor_en w 0)) = [(ordinal m2, m1)]
  ∧ identidad m1 ≠ identidad m2
  ∧ _usuarios (servidor_en w 0) !! _remitente m2 = None
  ∧ ServidorCorreo.enviar 0 m2 w
    = (Lanza (TypeError falta_lt),
       mkMundo (carpetas w) (listas w)
         (<[0 := con_cola (servidor_en w 0) [(ordinal m2, m1); (ordinal m2, m2)]]>
            (servidores w))).
Proof.
  intros w m1 m2.
  assert (H1 : servidores w !! 0 = Some (servidor_en w 0)) by (vm_compute; reflexivity).
  assert (H2 : _heap (_cola_prioridades (servidor_en w 0)) = [(ordinal m2, m1)])
    by (vm_compute; reflexivity).
  assert (H3 : identidad m1 ≠ identidad m2) by discriminate.
  assert (H4 : _usuarios (servidor_en w 0) !! _remitente m2 = None)
    by (vm_compute; reflexivity).
  exact (conj H1 (conj H2 (conj H3 (conj H4
    (enviar_lanza_si_la_cola_empata w 0 (servidor_en w 0) m1 m2 H1 H2 H3 H4))))).
Defined.

(** ** The store stays well formed *)

Lemma bien_formado_vacio : bien_formado mundo_vacio.
Proof. split; intros *; cbn; by rewrite lookup_nil. Qed.

Lemma preserva_ret {A} (a : A) : preserva (ret a).
Proof. by intros w Hw. Qed.

Lemma preserva_raise {A} (e : exn) : preserva (@raise Mundo A e).
Proof. by intros w Hw. Qed.

Lemma preserva_bind {A B} (m : M Mundo A) (k : A → M Mundo B) :
  preserva m → (∀ a, preserva (k a)) → preserva (bind m k).
Proof.
  intros Hm Hk w Hw. unfold bind. specialize (Hm w Hw).
  destruct (m w) as [[a| | |] w']; cbn in *; try done. by apply Hk.
Qed.

Lemma preserva_try {A} (m h : M Mundo A) :
  preserva m → preserva h → preserva (try_except_ValueError m h).
Proof.
  intros Hm Hh w Hw. unfold try_except_ValueError. specialize (Hm w Hw).
  destruct (m w) as [[a|[]| |] w']; cbn in *; try done. by apply Hh.
Qed.

Lemma preserva_leer_carpeta r : preserva (leer_carpeta r).
Proof. intros w Hw. unfold leer_carpeta. by destruct (carpetas w !! r). Qed.

Lemma preserva_leer_lista r : preserva (leer_lista r).
Proof. intros w Hw. unfold leer_lista. by destruct (listas w !! r). Qed.

Lemma preserva_leer_servidor r : preserva (leer_servidor r).
Proof. intros w Hw. unfold leer_servidor. by destruct (servidores w !! r). Qed.

Lemma bien_formado_servidores w ss :
  bien_formado w → bien_formado (mkMundo (carpetas w) (listas w) ss).
Proof. intros [H1 H2 H3]. by split. Qed.

Lemma preserva_escribir_servidor r s : preserva (escribir_servidor r s).
Proof. intros w Hw. by apply bien_formado_servidores. Qed.

Lemma preserva_nuevo_servidor s : preserva (nuevo_servidor s).
Proof. intros w Hw. by apply bien_formado_servidores. Qed.

Lemma preserva_en_cola {A} self (m : M ColaPrioridades A) :
  preserva (ServidorCorreo.en_cola self m).
Proof.
  intros w Hw. unfold ServidorCorreo.en_cola, zoom.
  destruct (servidores w !! self) as [s|]; [|done]. cbn.
  destruct (m (_cola_prioridades s)) as [r c]. cbn.
  by apply bien_formado_servidores.
Qed.

Lemma bien_formado_listas w ls :
  bien_formado w → length ls = length (listas w) →
  bien_formado (mkMundo (carpetas w) ls (servidores w)).
Proof. intros [H1 H2 H3] Hl. split; cbn; [|done..]. rewrite Hl. done. Qed.

Lemma preserva_escribir_lista r l : preserva (escribir_lista r l).
Proof.
  intros w Hw. apply bien_formado_listas; [done|]. apply length_insert.
Qed.

Lemma preserva_nueva_lista l : preserva (nueva_lista l).
Proof.
  intros w [H1 H2 H3]. split; cbn; [|done..].
  intros r c Hc. rewrite length_app. specialize (H1 r c Hc). cbn. lia.
Qed.

Lemma Carpeta_init_efecto nombre padre w :
  Carpeta.__init__ nombre padre w
  = (Ok (length (carpetas w)),
     mkMundo (carpetas w ++ [mkCarpeta nombre (length (listas w)) [] padre])
             (listas w ++ [[]]) (servidores w)).
Proof. reflexivity. Qed.

(** A new folder keeps the store well formed when the parent it names, if
    any, is an existing folder. *)
Lemma bien_formado_Carpeta_init nombre padre w :
  bien_formado w →
  bien_formado (Carpeta.__init__ nombre padre w).2.
Proof.
  intros [H1 H2 H3]. rewrite Carpeta_init_efecto. split; cbn.
  - intros r c [Hc|[_ Hc]]%lookup_app_Some.
    + rewrite length_app. specialize (H1 r c Hc). cbn. lia.
    + apply list_lookup_singleton_Some in Hc as [_ <-]. cbn.
      rewrite length_app. cbn. lia.
  - intros r1 r2 c1 c2 [Hc1|[Hr1 Hc1]]%lookup_app_Some
                       [Hc2|[Hr2 Hc2]]%lookup_app_Some Heq.
    + eauto.
    + apply list_lookup_singleton_Some in Hc2 as [_ <-]. cbn in Heq.
      specialize (H1 r1 c1 Hc1). lia.
    + apply list_lookup_singleton_Some in Hc1 as [_ <-]. cbn in Heq.
      specialize (H1 r2 c2 Hc2). lia.
    + apply list_lookup_singleton_Some in Hc1 as [? _].
      apply list_lookup_singleton_Some in Hc2 as [? _]. lia.
  - intros r c nombre' h [Hc|[_ Hc]]%lookup_app_Some Hin.
    + destruct (H3 r c nombre' h Hc Hin) as (Hlt & c' & Hc' & Hp).
      split; [done|]. exists c'. split; [|done]. by apply lookup_app_l_Some.
    + apply list_lookup_singleton_Some in Hc as [_ <-]. cbn in Hin.
      by apply elem_of_nil in Hin.
Qed.

Lemma preserva_Carpeta_init nombre padre : preserva (Carpeta.__init__ nombre padre).
Proof. intros w Hw. by apply bien_formado_Carpeta_init. Qed.

Lemma dict_get_elem {V} (k : string) (v : V) d :
  dict.get k d = Some v → (k, v) ∈ d.
Proof.
  induction d as [|[k' v'] d IH]; cbn; [done|].
  case_bool_decide as Hk.
  - intros [= ->]. subst. apply elem_of_cons. by left.
  - intros H. apply elem_of_cons. right. auto.
Qed.

Lemma dict_set_nuevo {V} (k : string) (v : V) d :
  dict.get k d = None → dict.set k v d = d ++ [(k, v)].
Proof.
  induction d as [|[k' v'] d IH]; cbn; [done|].
  case_bool_decide; [done|]. intros Hg. by rewrite IH.
Qed.

Lemma dict_get_set_eq {V} (k : string) (v : V) d :
  dict.get k (dict.set k v d) = Some v.
Proof.
  induction d as [|[k' v'] d IH]; cbn.
  - by rewrite bool_decide_eq_true_2.
  - case_bool_decide as Hk; cbn.
    + by rewrite bool_decide_eq_true_2.
    + by rewrite bool_decide_eq_false_2.
Qed.

Lemma dict_get_set_ne {V} (k k' : string) (v : V) d :
  k ≠ k' → dict.get k' (dict.set k v d) = dict.get k' d.
Proof.
  intros Hne. induction d as [|[k0 v0] d IH]; cbn.
  - by rewrite bool_decide_eq_false_2.
  - case_bool_decide as Hk; cbn.
    + subst k0. by rewrite !bool_decide_eq_false_2.
    + by rewrite IH.
Qed.

(** What [crear_subcarpeta] does, by cases. *)
Lemma crear_subcarpeta_efecto self nombre w :
  Carpeta.crear_subcarpeta self nombre w =
  match carpetas w !! self with
  | None => (RefColgante, w)
  | Some c =>
      match dict.get nombre (_subcarpetas c) with
      | Some _ =>
          (Lanza (ValueError ("La subcarpeta '" +:+ nombre +:+ "' ya existe.")), w)
      | None =>
          (Ok (length (carpetas w)),
           mkMundo
             (<[self := mkCarpeta (_nombre c) (_mensajes c)
                          (_subcarpetas c ++ [(nombre, length (carpetas w))])
                          (_padre c)]>
                (carpetas w ++ [mkCarpeta nombre (length (listas w)) [] (Some self)]))
             (listas w ++ [[]]) (servidores w))
      end
  end.
Proof.
  unfold Carpeta.crear_subcarpeta, bind, leer_carpeta, dict.contains.
  destruct (carpetas w !! self) as [c|] eqn:Hc; [|done].
  destruct (dict.get nombre (_subcarpetas c)) eqn:Hg; [done|].
  rewrite Carpeta_init_efecto. cbn.
  rewrite lookup_app_l by (by eapply lookup_lt_Some).
  rewrite Hc. unfold escribir_carpeta, ret. cbn.
  by rewrite (dict_set_nuevo _ _ _ Hg).
Qed.

Lemma preserva_crear_subcarpeta self nombre :
  preserva (Carpeta.crear_subcarpeta self nombre).
Proof.
  intros w Hw. rewrite crear_subcarpeta_efecto.
  destruct (carpetas w !! self) as [c|] eqn:Hc; [|done].
  destruct (dict.get nombre (_subcarpetas c)) eqn:Hg; [done|]. cbn.
  pose proof (lookup_lt_Some _ _ _ Hc) as Hself.
  destruct Hw as [H1 H2 H3].
  assert (Hlook : ∀ r x,
    <[self := mkCarpeta (_nombre c) (_mensajes c)
                (_subcarpetas c ++ [(nombre, length (carpetas w))]) (_padre c)]>
      (carpetas w ++ [mkCarpeta nombre (length (listas w)) [] (Some self)]) !! r
      = Some x →
    (r = self ∧ x = mkCarpeta (_nombre c) (_mensajes c)
                      (_subcarpetas c ++ [(nombre, length (carpetas w))]) (_padre c))
    ∨ (r ≠ self ∧ carpetas w !! r = Some x)
    ∨ (r = length (carpetas w)
       ∧ x = mkCarpeta nombre (length (listas w)) [] (Some self))).
  { intros r x Hr. destruct (decide (r = self)) as [->|Hne].
    - rewrite list_lookup_insert_eq in Hr by (rewrite length_app; lia).
      left. split; congruence.
    - rewrite list_lookup_insert_ne in Hr by done.
      apply lookup_app_Some in Hr as [Hr|[Hge Hr]]; [by right; left|].
      apply list_lookup_singleton_Some in Hr as [Hz <-].
      right; right. split; [lia|done]. }
  split; cbn.
  - intros r x Hr. rewrite length_app. cbn.
    destruct (Hlook r x Hr) as [[-> ->]|[[_ Hx]|[-> ->]]]; cbn.
    + specialize (H1 _ _ Hc). lia.
    + specialize (H1 _ _ Hx). lia.
    + lia.
  - intros r1 r2 x1 x2 Hr1 Hr2 Heq.
    destruct (Hlook r1 x1 Hr1) as [[-> ->]|[[Hn1 Hx1]|[-> ->]]];
    destruct (Hlook r2 x2 Hr2) as [[-> ->]|[[Hn2 Hx2]|[-> ->]]];
      cbn in Heq; try done.
    + exfalso. apply Hn2. symmetry. by eapply (H2 self r2).
    + specialize (H1 _ _ Hc). lia.
    + exfalso. apply Hn1. by eapply (H2 r1 self).
    + eauto.
    + specialize (H1 _ _ Hx1). lia.
    + specialize (H1 _ _ Hc). lia.
    + specialize (H1 _ _ Hx2). lia.
  - assert (Hviejo : ∀ r x, carpetas w !! r = Some x →
      ∃ x', <[self := mkCarpeta (_nombre c) (_mensajes c)
                (_subcarpetas c ++ [(nombre, length (carpetas w))]) (_padre c)]>
              (carpetas w ++ [mkCarpeta nombre (length (listas w)) [] (Some self)]) !! r
            = Some x' ∧ _padre x' = _padre x).
    { intros r x Hx. destruct (decide (r = self)) as [->|Hne].
      - rewrite list_lookup_insert_eq by (rewrite length_app; lia).
        eexists. split; [done|]. cbn. congruence.
      - rewrite list_lookup_insert_ne by done.
        exists x. split; [|done]. by apply lookup_app_l_Some. }
    intros r x nom h Hr Hin.
    destruct (Hlook r x Hr) as [[-> ->]|[[Hn Hx]|[-> ->]]]; cbn in Hin.
    + apply elem_of_app in Hin as [Hin|Hin].
      * destruct (H3 _ _ _ _ Hc Hin) as (Hlt & c' & Hc' & Hp).
        split; [done|]. destruct (Hviejo _ _ Hc') as (x' & Hx' & Hpx).
        exists x'. split; [done|]. congruence.
      * apply list_elem_of_singleton in Hin as [= -> ->]. split; [done|].
        eexists. split.
        -- rewrite list_lookup_insert_ne by lia.
           rewrite lookup_app_r by lia. by rewrite Nat.sub_diag.
        -- reflexivity.
    + destruct (H3 _ _ _ _ Hx Hin) as (Hlt & c' & Hc' & Hp).
      split; [done|]. destruct (Hviejo _ _ Hc') as (x' & Hx' & Hpx).
      exists x'. split; [done|]. congruence.
    + by apply elem_of_nil in Hin.
Qed.

Lemma preserva_agregar_mensaje self m : preserva (Carpeta.agregar_mensaje self m).
Proof.
  unfold Carpeta.agregar_mensaje.
  apply preserva_bind; [apply preserva_leer_carpeta|]. intros c.
  apply preserva_bind; [apply preserva_leer_lista|]. intros l.
  apply preserva_escribir_lista.
Qed.

Lemma preserva_quitar_mensaje self m : preserva (Carpeta.quitar_mensaje self m).
Proof.
  unfold Carpeta.quitar_mensaje.
  apply preserva_bind; [apply preserva_leer_carpeta|]. intros c.
  apply preserva_bind; [apply preserva_leer_lista|]. intros l.
  destruct (pylist.remove _ _ _);
    [apply preserva_escribir_lista | apply preserva_raise].
Qed.

Lemma preserva_mensajes self : preserva (Carpeta.mensajes self).
Proof.
  unfold Carpeta.mensajes.
  apply preserva_bind; [apply preserva_leer_carpeta|]. intros c.
  apply preserva_bind; [apply preserva_leer_lista|]. intros l.
  apply preserva_nueva_lista.
Qed.

Lemma preserva_obtener_subcarpeta self nombre :
  preserva (Carpeta.obtener_subcarpeta self nombre).
Proof.
  unfold Carpeta.obtener_subcarpeta.
  apply preserva_bind; [apply preserva_leer_carpeta|]. intros c.
  apply preserva_ret.
Qed.

Lemma preserva_obtener_carpeta u nombre : preserva (Usuario.obtener_carpeta u nombre).
Proof.
  unfold Usuario.obtener_carpeta.
  apply preserva_bind; [apply preserva_obtener_subcarpeta|]. intros [sub|];
    [apply preserva_ret | apply preserva_crear_subcarpeta].
Qed.

Lemma preserva_Usuario_init nombre email : preserva (Usuario.__init__ nombre email).
Proof.
  unfold Usuario.__init__.
  apply preserva_bind; [apply preserva_Carpeta_init|]. intros raiz.
  do 3 (apply preserva_bind; [apply preserva_crear_subcarpeta|]; intros _).
  apply preserva_ret.
Qed.

Lemma preserva_mover_mensaje sis origen indice destino :
  preserva (SistemaCorreo.mover_mensaje sis origen indice destino).
Proof.
  unfold SistemaCorreo.mover_mensaje, Carpeta.obtener_por_indice.
  apply preserva_bind.
  - apply preserva_bind; [apply preserva_leer_carpeta|]. intros c.
    apply preserva_bind; [apply preserva_leer_lista|]. intros l.
    case_bool_decide; [|apply preserva_ret].
    apply preserva_bind; [|intros; apply preserva_ret].
    unfold pylist.getitem. destruct (l !! _);
      [apply preserva_ret | apply preserva_raise].
  - intros [m|]; [|apply preserva_raise].
    apply preserva_bind; [apply preserva_quitar_mensaje|]. intros _.
    apply preserva_agregar_mensaje.
Qed.

Lemma preserva_registrar_usuario self u :
  preserva (ServidorCorreo.registrar_usuario self u).
Proof.
  unfold ServidorCorreo.registrar_usuario.
  apply preserva_bind; [apply preserva_leer_servidor|]. intros s.
  destruct (_usuarios s !! _email u);
    [apply preserva_raise | apply preserva_escribir_servidor].
Qed.

Lemma preserva_enviar self m : preserva (ServidorCorreo.enviar self m).
Proof.
  unfold ServidorCorreo.enviar.
  apply preserva_bind; [apply preserva_leer_servidor|]. intros s.
  apply preserva_bind.
  { destruct (_usuarios s !! _remitente m); [|apply preserva_ret].
    apply preserva_bind; [apply preserva_obtener_carpeta|]. intros c.
    apply preserva_agregar_mensaje. }
  intros _. apply preserva_bind; [apply preserva_en_cola|]. intros _.
  apply preserva_try; [|apply preserva_ret].
  apply preserva_bind.
  { unfold ServidorCorreo._obtener_usuario.
    apply preserva_bind; [apply preserva_leer_servidor|]. intros s'.
    destruct (_usuarios s' !! _); [apply preserva_ret | apply preserva_raise]. }
  intros u. unfold ServidorCorreo._aplicar_filtros.
  apply preserva_bind; [apply preserva_leer_servidor|]. intros s'.
  apply preserva_bind; [apply preserva_obtener_carpeta|]. intros c.
  apply preserva_agregar_mensaje.
Qed.

(** ** Moving a message between folders *)

Create HintDb preserva.
#[local] Hint Resolve preserva_ret preserva_raise preserva_bind
  preserva_agregar_mensaje preserva_quitar_mensaje preserva_mensajes
  preserva_obtener_carpeta preserva_Usuario_init preserva_crear_subcarpeta
  preserva_mover_mensaje preserva_enviar preserva_registrar_usuario
  preserva_nuevo_servidor preserva_Carpeta_init : preserva.

Lemma preserva_agregar_todos c ms : preserva (agregar_todos c ms).
Proof. induction ms; cbn; auto with preserva. Qed.

Lemma preserva_buzon_con ms : preserva (buzon_con ms).
Proof.
  unfold buzon_con. pose proof preserva_agregar_todos. auto 10 with preserva.
Qed.

Lemma remove_unico (l : list Mensaje) : ∀ i m,
  l !! i = Some m →
  (∀ j m', l !! j = Some m' → identidad m' = identidad m → j = i) →
  pylist.remove Mensaje.es m l = Some (delete i l).
Proof.
  induction l as [|y l IH]; intros i m Hi Hu; [done|].
  cbn. unfold Mensaje.es at 1. destruct i as [|i]; cbn in *.
  - injection Hi as ->. by rewrite bool_decide_eq_true_2.
  - case_bool_decide as Hy.
    + specialize (Hu 0 y eq_refl Hy). done.
    + rewrite (IH i m Hi); [done|].
      intros j m' Hj Hid. specialize (Hu (S j) m' Hj Hid). lia.
Qed.

Lemma obtener_por_indice_efecto w r c l idx :
  carpetas w !! r = Some c → listas w !! _mensajes c = Some l →
  Carpeta.obtener_por_indice r idx w
  = (Ok (if bool_decide (0 ≤ idx < Z.of_nat (length l))%Z
         then l !! Z.to_nat idx else None), w).
Proof.
  intros Hc Hl. unfold Carpeta.obtener_por_indice, bind, leer_carpeta, leer_lista.
  rewrite Hc, Hl. case_bool_decide as Hi; [|done].
  unfold pylist.getitem.
  destruct (lookup_lt_is_Some_2 l (Z.to_nat idx)) as [m Hm]; [lia|].
  by rewrite Hm.
Qed.

Lemma quitar_mensaje_efecto w r c l l' m :
  carpetas w !! r = Some c → listas w !! _mensajes c = Some l →
  pylist.remove Mensaje.es m l = Some l' →
  Carpeta.quitar_mensaje r m w
  = (Ok tt, mkMundo (carpetas w) (<[_mensajes c := l']> (listas w)) (servidores w)).
Proof.
  intros Hc Hl Hr. unfold Carpeta.quitar_mensaje, bind, leer_carpeta, leer_lista.
  by rewrite Hc, Hl, Hr.
Qed.

Lemma agregar_mensaje_efecto w r c l m :
  carpetas w !! r = Some c → listas w !! _mensajes c = Some l →
  Carpeta.agregar_mensaje r m w
  = (Ok tt, mkMundo (carpetas w) (<[_mensajes c := l ++ [m]]> (listas w))
                    (servidores w)).
Proof.
  intros Hc Hl. unfold Carpeta.agregar_mensaje, bind, leer_carpeta, leer_lista.
  by rewrite Hc, Hl.
Qed.

Lemma mensajes_de_Some w r l :
  mensajes_de w r = Some l →
  ∃ c, carpetas w !! r = Some c ∧ listas w !! _mensajes c = Some l.
Proof.
  unfold mensajes_de. destruct (carpetas w !! r) as [c|]; [|done]. eauto.
Qed.

(** C3 (amended). With an index outside [0, len) [mover_mensaje] raises
    [IndexError] and changes nothing.  Otherwise, when the message at that
    index occurs nowhere else in the source folder, the call succeeds and:
    if the destination is another folder, the source loses exactly that
    position (earlier messages stay, later ones move down by one, the
    message is no longer there) and the destination gains the same message
    at its end; if the destination is the source itself, the message moves
    to the end of that folder.  No other folder changes. *)
Theorem mover_mensaje_efecto
    (w : Mundo) (sis : SistemaCorreo) (origen destino : ref) (indice : Z)
    (lo ld : list Mensaje) :
  bien_formado w →
  mensajes_de w origen = Some lo →
  mensajes_de w destino = Some ld →
  (¬ (0 ≤ indice < Z.of_nat (length lo))%Z →
     SistemaCorreo.mover_mensaje sis origen indice destino w
     = (Lanza (IndexError fuera_de_rango), w))
  ∧ (∀ m, (0 ≤ indice)%Z → lo !! Z.to_nat indice = Some m →
       (∀ j m', lo !! j = Some m' → identidad m' = identidad m →
                j = Z.to_nat indice) →
       ∃ w', SistemaCorreo.mover_mensaje sis origen indice destino w = (Ok tt, w')
         ∧ carpetas w' = carpetas w
         ∧ (∀ r, r ≠ origen → r ≠ destino → mensajes_de w' r = mensajes_de w r)
         ∧ (origen ≠ destino →
              mensajes_de w' origen = Some (delete (Z.to_nat indice) lo)
              ∧ mensajes_de w' destino = Some (ld ++ [m]))
         ∧ (origen = destino →
              mensajes_de w' origen = Some (delete (Z.to_nat indice) lo ++ [m]))
         ∧ (∀ m', m' ∈ delete (Z.to_nat indice) lo → identidad m' ≠ identidad m)
         ∧ (∀ j, j < Z.to_nat indice →
                 delete (Z.to_nat indice) lo !! j = lo !! j)
         ∧ (∀ j, Z.to_nat indice ≤ j →
                 delete (Z.to_nat indice) lo !! j = lo !! S j)).
Proof.
  intros Hw Ho Hd.
  destruct (mensajes_de_Some _ _ _ Ho) as (co & Hco & Hlo).
  destruct (mensajes_de_Some _ _ _ Hd) as (cd & Hcd & Hld).
  unfold SistemaCorreo.mover_mensaje, bind.
  rewrite (obtener_por_indice_efecto _ _ _ _ _ Hco Hlo).
  split.
  - intros Hfuera. by rewrite bool_decide_eq_false_2.
  - intros m Hpos Hm Hunico.
    pose proof (lookup_lt_Some _ _ _ Hm) as Hlt.
    rewrite bool_decide_eq_true_2 by lia. rewrite Hm.
    rewrite (quitar_mensaje_efecto _ _ _ _ _ _ Hco Hlo
               (remove_unico _ _ _ Hm Hunico)).
    set (i := Z.to_nat indice) in *.
    pose proof (lookup_lt_Some _ _ _ Hlo) as Hlo_lt.
    pose proof (lookup_lt_Some _ _ _ Hld) as Hld_lt.
    assert (Hpropia : ∀ r c, carpetas w !! r = Some c → r ≠ origen →
                             _mensajes c ≠ _mensajes co).
    { intros r c Hc Hne Heq. apply Hne.
      by eapply (bf_propia _ Hw r origen c co). }
    destruct (decide (origen = destino)) as [->|Hne].
    + assert (cd = co) as -> by congruence.
      erewrite agregar_mensaje_efecto; [|exact Hco|cbn; by apply list_lookup_insert_eq].
      eexists. split; [reflexivity|]. cbn.
      rewrite list_insert_insert_eq.
      split; [done|]. split; [|split; [done|split]].
      * intros r Hr _. unfold mensajes_de. cbn.
        destruct (carpetas w !! r) as [c|] eqn:Hc; [|done].
        rewrite list_lookup_insert_ne; [done|].
        intros Heq. by eapply Hpropia.
      * intros _. unfold mensajes_de. cbn. rewrite Hco.
        by apply list_lookup_insert_eq.
      * split; [|split].
        -- intros m' [j Hj]%list_elem_of_lookup Hid.
           destruct (decide (j < i)).
           ++ rewrite list_lookup_delete_lt in Hj by done.
              specialize (Hunico j m' Hj Hid). lia.
           ++ rewrite list_lookup_delete_ge in Hj by lia.
              specialize (Hunico (S j) m' Hj Hid). lia.
        -- intros j Hj. by apply list_lookup_delete_lt.
        -- intros j Hj. by apply list_lookup_delete_ge.
    + assert (Hmne : _mensajes cd ≠ _mensajes co).
      { by apply (Hpropia destino). }
      erewrite agregar_mensaje_efecto;
        [|exact Hcd|cbn; rewrite list_lookup_insert_ne by done; exact Hld].
      eexists. split; [reflexivity|]. cbn.
      split; [done|]. split; [|split; [|split; [done|split; [|split]]]].
      * intros r Hr1 Hr2. unfold mensajes_de. cbn.
        destruct (carpetas w !! r) as [c|] eqn:Hc; [|done].
        rewrite !list_lookup_insert_ne; [done|..].
        -- intros Heq. by eapply Hpropia.
        -- intros Heq. apply Hr2. by eapply (bf_propia _ Hw r destino c cd).
      * intros _. unfold mensajes_de. cbn. rewrite Hco, Hcd. split.
        -- rewrite list_lookup_insert_ne by done.
           by apply list_lookup_insert_eq.
        -- apply list_lookup_insert_eq. by rewrite length_insert.
      * intros m' [j Hj]%list_elem_of_lookup Hid.
        destruct (decide (j < i)).
        -- rewrite list_lookup_delete_lt in Hj by done.
           specialize (Hunico j m' Hj Hid). lia.
        -- rewrite list_lookup_delete_ge in Hj by lia.
           specialize (Hunico (S j) m' Hj Hid). lia.
      * intros j Hj. by apply list_lookup_delete_lt.
      * intros j Hj. by apply list_lookup_delete_ge.
Qed.

Lemma mover_mensaje_efecto_testigo :
  let w := (buzon_con [carta 1 "a"; carta 2 "b"; carta 3 "c"] mundo_vacio).2 in
  bien_formado w
  ∧ mensajes_de w 1 = Some [carta 1 "a"; carta 2 "b"; carta 3 "c"]
  ∧ mensajes_de w 3 = Some []
  ∧ ∃ w', SistemaCorreo.mover_mensaje (mkSistemaCorreo 0) 1 1%Z 3 w = (Ok tt, w')
      ∧ mensajes_de w' 1 = Some [carta 1 "a"; carta 3 "c"]
      ∧ mensajes_de w' 3 = Some [carta 2 "b"].
Proof.
  intros w.
  assert (H1 : bien_formado w) by apply preserva_buzon_con, bien_formado_vacio.
  assert (H2 : mensajes_de w 1 = Some [carta 1 "a"; carta 2 "b"; carta 3 "c"])
    by reflexivity.
  assert (H3 : mensajes_de w 3 = Some []) by reflexivity.
  destruct (mover_mensaje_efecto w (mkSistemaCorreo 0) 1 3 1%Z _ _ H1 H2 H3)
    as [_ Hmueve].
  destruct (Hmueve (carta 2 "b")) as (w' & Hr & _ & _ & Hdist & _); [lia|done|..].
  { intros [|[|[|j]]] m'; cbn; intros [= <-]; done. }
  destruct Hdist as [Ho Hd]; [lia|].
  exact (conj H1 (conj H2 (conj H3
           (ex_intro _ w' (conj Hr (conj Ho Hd)))))).
Defined.

(** C3 as stated fails when the destination is the source folder: the
    message taken from index 0 is appended to the same list, so it is still
    among the messages of the source. *)
Lemma mover_a_la_misma_carpeta :
  let w := (buzon_con [carta 1 "a"; carta 2 "b"] mundo_vacio).2 in
  mensajes_de w 1 = Some [carta 1 "a"; carta 2 "b"]
  ∧ ∃ w', SistemaCorreo.mover_mensaje (mkSistemaCorreo 0) 1 0%Z 1 w = (Ok tt, w')
      ∧ mensajes_de w' 1 = Some [carta 2 "b"; carta 1 "a"]
      ∧ ¬ (∀ l, mensajes_de w' 1 = Some l → carta 1 "a" ∉ l).
Proof.
  intros w. split; [reflexivity|]. eexists. split; [reflexivity|].
  split; [reflexivity|]. intros H. apply (H _ eq_refl). set_solver.
Qed.

(** When the same message object sits twice in the source, [list.remove]
    takes the first occurrence, whatever the index asked for. *)
Remark mover_con_mensaje_repetido :
  let w := (buzon_con [carta 1 "a"; carta 2 "b"; carta 1 "a"] mundo_vacio).2 in
  ∃ w', SistemaCorreo.mover_mensaje (mkSistemaCorreo 0) 1 2%Z 3 w = (Ok tt, w')
      ∧ mensajes_de w' 1 = Some [carta 2 "b"; carta 1 "a"]
      ∧ mensajes_de w' 3 = Some [carta 1 "a"].
Proof. intros w. eexists. repeat split. Qed.

(** ** The list returned by [mensajes] *)

(** C8. [mensajes] returns a new list object holding the messages of the
    folder.  Whatever is then written into that object (any sequence of
    appends, removals or reorderings leaves it with some contents [l']),
    the messages of every folder are what they were, and a second call
    returns the original contents again. *)
Theorem mensajes_devuelve_copia (w : Mundo) (self : ref) (l : list Mensaje) :
  bien_formado w →
  mensajes_de w self = Some l →
  ∃ copia w1,
    Carpeta.mensajes self w = (Ok copia, w1)
    ∧ listas w1 !! copia = Some l
    ∧ (∀ r c, carpetas w !! r = Some c → _mensajes c ≠ copia)
    ∧ ∀ l' : list Mensaje,
        let w2 := (escribir_lista copia l' w1).2 in
        listas w2 !! copia = Some l'
        ∧ mensajes_de w2 self = Some l
        ∧ (∀ r, mensajes_de w2 r = mensajes_de w r)
        ∧ ∃ copia' w3, Carpeta.mensajes self w2 = (Ok copia', w3)
                       ∧ listas w3 !! copia' = Some l.
Proof.
  intros Hw Hl. destruct (mensajes_de_Some _ _ _ Hl) as (c & Hc & Hlc).
  assert (Hajena : ∀ r x, carpetas w !! r = Some x → _mensajes x ≠ length (listas w)).
  { intros r x Hx. pose proof (bf_lista _ Hw r x Hx). lia. }
  exists (length (listas w)),
         (mkMundo (carpetas w) (listas w ++ [l]) (servidores w)).
  split; [|split; [|split]].
  - unfold Carpeta.mensajes, bind, leer_carpeta, leer_lista. by rewrite Hc, Hlc.
  - cbn. rewrite lookup_app_r by lia. by rewrite Nat.sub_diag.
  - exact Hajena.
  - intros l'. cbn.
    assert (Hotras : ∀ r, mensajes_de
              (mkMundo (carpetas w)
                 (<[length (listas w) := l']> (listas w ++ [l])) (servidores w)) r
              = mensajes_de w r).
    { intros r. unfold mensajes_de. cbn.
      destruct (carpetas w !! r) as [x|] eqn:Hx; [|done].
      rewrite list_lookup_insert_ne by (symmetry; by eapply Hajena).
      apply lookup_app_l. by eapply (bf_lista _ Hw). }
    split; [|split; [|split]].
    + apply list_lookup_insert_eq. rewrite length_app. cbn. lia.
    + by rewrite Hotras.
    + exact Hotras.
    + assert (Hlc2 : <[length (listas w) := l']> (listas w ++ [l]) !! _mensajes c
                     = Some l).
      { rewrite list_lookup_insert_ne by (symmetry; by eapply Hajena).
        rewrite lookup_app_l by (by eapply (bf_lista _ Hw)). done. }
      eexists _, _. split.
      * unfold Carpeta.mensajes, bind, leer_carpeta, leer_lista. cbn.
        rewrite Hc. cbn. rewrite Hlc2. reflexivity.
      * cbn. rewrite lookup_app_r by done. by rewrite Nat.sub_diag.
Qed.

Lemma mensajes_devuelve_copia_testigo :
  let w := (buzon_con [carta 1 "a"; carta 2 "b"] mundo_vacio).2 in
  bien_formado w
  ∧ mensajes_de w 1 = Some [carta 1 "a"; carta 2 "b"]
  ∧ ∃ copia w1,
      Carpeta.mensajes 1 w = (Ok copia, w1)
      ∧ mensajes_de (escribir_lista copia [carta 3 "c"] w1).2 1
        = Some [carta 1 "a"; carta 2 "b"].
Proof.
  intros w.
  assert (H1 : bien_formado w) by apply preserva_buzon_con, bien_formado_vacio.
  assert (H2 : mensajes_de w 1 = Some [carta 1 "a"; carta 2 "b"]) by reflexivity.
  destruct (mensajes_devuelve_copia w 1 _ H1 H2) as (copia & w1 & Hm & _ & _ & Hmut).
  destruct (Hmut [carta 3 "c"]) as (_ & Hself & _).
  exact (conj H1 (conj H2 (ex_intro _ copia (ex_intro _ w1 (conj Hm Hself))))).
Defined.

(** By contrast, writing into the list object of the folder itself is seen
    by the folder: the store does tell a list from a copy of it. *)
Remark lista_interna_compartida (w : Mundo) (self : ref) (c : Carpeta)
    (l l' : list Mensaje) :
  carpetas w !! self = Some c → listas w !! _mensajes c = Some l →
  mensajes_de (escribir_lista (_mensajes c) l' w).2 self = Some l'.
Proof.
  intros Hc Hl. unfold mensajes_de. cbn. rewrite Hc.
  apply list_lookup_insert_eq. by eapply lookup_lt_Some.
Qed.

(** ** Slash-separated paths *)

Lemma lstrip_barras (s : string) :
  ∃ a, s = str.barras a +:+ str.lstrip s.
Proof.
  induction s as [|c r [a IH]]; [by exists 0|]. cbn.
  unfold str.es_barra. case_bool_decide as Hc.
  - subst c. exists (S a).
    change (String "/" r = String "/" (str.barras a +:+ str.lstrip r)).
    by rewrite <- IH.
  - by exists 0.
Qed.

Lemma lstrip_sin_barra_inicial (s : string) : str.lstrip (str.lstrip s) = str.lstrip s.
Proof.
  induction s as [|c r IH]; [done|]. cbn.
  destruct (str.es_barra c) eqn:Hc; [done|]. cbn. by rewrite Hc.
Qed.

Lemma rstrip_barras (s : string) :
  ∃ b, s = str.rstrip s +:+ str.barras b.
Proof.
  induction s as [|c r [b IH]]; [by exists 0|]. cbn.
  destruct (str.rstrip r) as [|c' r'] eqn:Hr.
  - cbn in IH. unfold str.es_barra. case_bool_decide as Hc.
    + subst c. exists (S b). exact (f_equal (String "/") IH).
    + exists b. exact (f_equal (String c) IH).
  - exists b. exact (f_equal (String c) IH).
Qed.

Lemma rstrip_idempotente (s : string) : str.rstrip (str.rstrip s) = str.rstrip s.
Proof.
  induction s as [|c r IH]; [done|]. cbn.
  destruct (str.rstrip r) as [|c' r'] eqn:Hr.
  - destruct (str.es_barra c) eqn:Hc; [done|]. cbn. by rewrite Hc.
  - cbn -[str.rstrip]. change (str.rstrip (String c (String c' r')))
      with (match str.rstrip (String c' r') with
            | EmptyString =>
                if str.es_barra c then EmptyString else String c EmptyString
            | String _ _ as r'' => String c r''
            end).
    by rewrite IH.
Qed.

Lemma lstrip_longitud (s : string) :
  String.length (str.lstrip s) ≤ String.length s.
Proof.
  induction s as [|c r IH]; [done|]. cbn.
  destruct (str.es_barra c); cbn; lia.
Qed.

Lemma rstrip_conserva_inicio (s : string) :
  str.lstrip s = s → str.lstrip (str.rstrip s) = str.rstrip s.
Proof.
  destruct s as [|c r]; [done|]. cbn.
  destruct (str.es_barra c) eqn:Hc.
  - intros H. exfalso. pose proof (lstrip_longitud r) as Hl.
    rewrite H in Hl. cbn in Hl. lia.
  - intros _. destruct (str.rstrip r); cbn; by rewrite Hc.
Qed.

Lemma strip_efecto (s : string) :
  (∃ a b, s = str.barras a +:+ str.strip s +:+ str.barras b)
  ∧ str.lstrip (str.strip s) = str.strip s
  ∧ str.rstrip (str.strip s) = str.strip s.
Proof.
  unfold str.strip. split; [|split].
  - destruct (lstrip_barras s) as [a Ha].
    destruct (rstrip_barras (str.lstrip s)) as [b Hb].
    exists a, b. by rewrite <- Hb.
  - apply rstrip_conserva_inicio, lstrip_sin_barra_inicial.
  - apply rstrip_idempotente.
Qed.

Lemma strip_barras (n : nat) : str.strip (str.barras n) = "".
Proof.
  unfold str.strip.
  assert (H : str.lstrip (str.barras n) = "") by (induction n; cbn; auto).
  by rewrite H.
Qed.

Lemma split_no_vacio (s : string) : str.split s ≠ [].
Proof.
  induction s as [|c r IH]; [done|]. cbn.
  destruct (str.es_barra c); [done|]. by destruct (str.split r).
Qed.

Lemma join_split (s : string) : str.join (str.split s) = s.
Proof.
  induction s as [|c r IH]; [done|]. cbn.
  pose proof (split_no_vacio r) as Hne.
  destruct (str.es_barra c) eqn:Hc.
  - unfold str.es_barra in Hc. apply bool_decide_eq_true in Hc. subst c.
    destruct (str.split r) as [|p ps]; [done|]. cbn in *. by rewrite IH.
  - destruct (str.split r) as [|p ps]; [done|]. cbn in *.
    destruct ps; cbn in *; by rewrite <- IH.
Qed.

Lemma split_sin_barras (s : string) :
  Forall (λ p, tiene_barra p = false) (str.split s).
Proof.
  induction s as [|c r IH]; [by repeat constructor|]. cbn.
  destruct (str.es_barra c) eqn:Hc; [by constructor|].
  destruct (str.split r) as [|p ps].
  - repeat constructor. cbn. by rewrite Hc.
  - inversion IH; subst. constructor; [|done]. cbn. by rewrite Hc.
Qed.

(** ** What [strip] leaves *)

Lemma lstrip_no_empieza (s : string) :
  empieza_con_barra (str.lstrip s) = false.
Proof.
  induction s as [|c r IH]; [done|]. cbn [str.lstrip].
  unfold str.es_barra. case_bool_decide as Hc; [done|].
  cbn. by rewrite bool_decide_eq_false_2.
Qed.

Lemma rstrip_no_termina (s : string) :
  termina_con_barra (str.rstrip s) = false.
Proof.
  induction s as [|c r IH]; [done|]. cbn [str.rstrip].
  destruct (str.rstrip r) as [|c' r'] eqn:Hr.
  - unfold str.es_barra. case_bool_decide as Hc; [done|].
    cbn. by rewrite bool_decide_eq_false_2.
  - exact IH.
Qed.

Lemma rstrip_conserva_no_empieza (s : string) :
  empieza_con_barra s = false → empieza_con_barra (str.rstrip s) = false.
Proof.
  destruct s as [|c r]; [done|]. cbn [empieza_con_barra str.rstrip]. intros Hc.
  destruct (str.rstrip r); unfold str.es_barra; rewrite ?Hc; cbn; by rewrite ?Hc.
Qed.

Lemma lstrip_barras_app (a : nat) (t : string) :
  str.lstrip (str.barras a +:+ t) = str.lstrip t.
Proof. induction a as [|a IH]; [done|]. cbn. exact IH. Qed.

Lemma rstrip_solo_barras (b : nat) : str.rstrip (str.barras b) = "".
Proof. induction b as [|b IH]; [done|]. cbn. by rewrite IH. Qed.

Lemma rstrip_app_barras (t : string) (b : nat) :
  str.rstrip (t +:+ str.barras b) = str.rstrip t.
Proof.
  induction t as [|c r IH]; [apply rstrip_solo_barras|].
  change (String c r +:+ str.barras b) with (String c (r +:+ str.barras b)).
  cbn [str.rstrip]. by rewrite IH.
Qed.

Lemma rstrip_sin_barra_final (s : string) :
  termina_con_barra s = false → str.rstrip s = s.
Proof.
  induction s as [|c r IH]; [done|]. intros Hs. cbn [str.rstrip].
  destruct r as [|c' r'].
  - cbn in *. unfold str.es_barra. by rewrite Hs.
  - rewrite IH by exact Hs. done.
Qed.

Lemma lstrip_sin_barra_inicio (s : string) :
  empieza_con_barra s = false → str.lstrip s = s.
Proof.
  destruct s as [|c r]; [done|]. cbn. unfold str.es_barra. by intros ->.
Qed.

(** [strip] is the one way of taking slashes off both ends until none is
    left there. *)
Lemma strip_unico (a b : nat) (s : string) :
  empieza_con_barra s = false → termina_con_barra s = false →
  str.strip (str.barras a +:+ s +:+ str.barras b) = s.
Proof.
  intros He Ht. unfold str.strip. rewrite lstrip_barras_app.
  destruct s as [|c r].
  - change ("" +:+ str.barras b) with (str.barras b).
    assert (H : str.lstrip (str.barras b) = "") by (induction b; cbn; auto).
    by rewrite H.
  - rewrite lstrip_sin_barra_inicio.
    + rewrite rstrip_app_barras. by apply rstrip_sin_barra_final.
    + exact He.
Qed.

Lemma barras_suma (a b : nat) (t : string) :
  str.barras a +:+ str.barras b +:+ t = str.barras (a + b) +:+ t.
Proof.
  induction a as [|a IH]; [done|].
  change (String "/" (str.barras a +:+ str.barras b +:+ t)
          = String "/" (str.barras (a + b) +:+ t)).
  by rewrite IH.
Qed.

Lemma app_barras_suma (t : string) (a b : nat) :
  (t +:+ str.barras a) +:+ str.barras b = t +:+ str.barras (a + b).
Proof.
  induction t as [|c r IH].
  - change (str.barras a +:+ str.barras b = str.barras (a + b)).
    induction a as [|a IHa]; [done|]. exact (f_equal (String "/") IHa).
  - change (String c ((r +:+ str.barras a) +:+ str.barras b)
            = String c (r +:+ str.barras (a + b))).
    by rewrite IH.
Qed.

Lemma app_asociativa (s t u : string) : (s +:+ t) +:+ u = s +:+ t +:+ u.
Proof.
  induction s as [|c r IH]; [done|].
  change (String c ((r +:+ t) +:+ u) = String c (r +:+ t +:+ u)). by rewrite IH.
Qed.

(** Slashes added at either end of a path are stripped with its own. *)
Lemma strip_mas_barras (a b : nat) (ruta : string) :
  str.strip (str.barras a +:+ ruta +:+ str.barras b) = str.strip ruta.
Proof.
  destruct (strip_efecto ruta) as ((a' & b' & Hruta) & Hl & Hr).
  assert (He : empieza_con_barra (str.strip ruta) = false).
  { unfold str.strip. apply rstrip_conserva_no_empieza, lstrip_no_empieza. }
  assert (Ht : termina_con_barra (str.strip ruta) = false)
    by apply rstrip_no_termina.
  rewrite Hruta at 1.
  rewrite app_asociativa, app_barras_suma, barras_suma.
  by apply strip_unico.
Qed.

(** ** Resolving a path *)

Lemma desciende_unico w r partes r1 r2 :
  desciende w r partes r1 → desciende w r partes r2 → r1 = r2.
Proof.
  induction 1 as [|r c p h partes r1 Hc Hg _ IH]; inversion 1; subst; [done|].
  apply IH. congruence.
Qed.

Lemma desciende_mayor w r partes r' :
  bien_formado w → desciende w r partes r' → partes ≠ [] → r < r'.
Proof.
  intros Hw. induction 1 as [|r c p h partes r' Hc Hg Hd IH]; [done|].
  intros _. destruct (bf_hijo _ Hw r c p h Hc (dict_get_elem _ _ _ Hg)) as [Hlt _].
  destruct partes; [inversion Hd; by subst|].
  etrans; [exact Hlt|]. by apply IH.
Qed.

Lemma desciende_app w r antes despues r1 r2 :
  desciende w r antes r1 → desciende w r1 despues r2 →
  desciende w r (antes ++ despues) r2.
Proof. induction 1; cbn; [done|]. intros. econstructor; eauto. Qed.

Lemma obtener_subcarpeta_efecto w r nombre :
  Carpeta.obtener_subcarpeta r nombre w
  = match carpetas w !! r with
    | Some c => (Ok (dict.get nombre (_subcarpetas c)), w)
    | None => (RefColgante, w)
    end.
Proof.
  unfold Carpeta.obtener_subcarpeta, bind, leer_carpeta, ret.
  by destruct (carpetas w !! r).
Qed.

(** The loop, by cases: it returns the folder reached, or raises naming the
    first name that is not a child; the store is left as it was. *)
Lemma obtener_por_ruta_bucle_efecto w ruta : ∀ partes actual,
  bien_formado w → is_Some (carpetas w !! actual) →
  (∃ r, SistemaCorreo.obtener_por_ruta_bucle ruta partes actual w = (Ok r, w)
        ∧ desciende w actual partes r)
  ∨ (∃ antes p despues r c,
        partes = antes ++ p :: despues
        ∧ desciende w actual antes r
        ∧ carpetas w !! r = Some c
        ∧ dict.get p (_subcarpetas c) = None
        ∧ SistemaCorreo.obtener_por_ruta_bucle ruta partes actual w
          = (Lanza (ValueError (no_existe p ruta)), w)).
Proof.
  intros partes. induction partes as [|p partes IH]; intros actual Hw [c Hc].
  - left. exists actual. split; [done|constructor].
  - cbn [SistemaCorreo.obtener_por_ruta_bucle].
    unfold bind. rewrite obtener_subcarpeta_efecto, Hc.
    destruct (dict.get p (_subcarpetas c)) as [h|] eqn:Hg.
    + destruct (bf_hijo _ Hw actual c p h Hc (dict_get_elem _ _ _ Hg))
        as (_ & c' & Hc' & _).
      destruct (IH h Hw (mk_is_Some _ _ Hc'))
        as [(r & Hr & Hd)|(antes & q & despues & r & cr & -> & Hd & Hcr & Hq & Hr)].
      * left. exists r. split; [done|]. by econstructor.
      * right. exists (p :: antes), q, despues, r, cr.
        repeat split; try done. by econstructor.
    + right. exists [], p, partes, actual, c. repeat split; try done. constructor.
Qed.

Lemma obtener_por_ruta_bucle_Ok w ruta : ∀ partes actual r w',
  SistemaCorreo.obtener_por_ruta_bucle ruta partes actual w = (Ok r, w') →
  w' = w ∧ desciende w actual partes r.
Proof.
  intros partes. induction partes as [|p partes IH]; intros actual r w'.
  - cbn. intros [= <- <-]. split; [done|constructor].
  - cbn [SistemaCorreo.obtener_por_ruta_bucle].
    unfold bind. rewrite obtener_subcarpeta_efecto.
    destruct (carpetas w !! actual) as [c|] eqn:Hc; [|done].
    destruct (dict.get p (_subcarpetas c)) as [h|] eqn:Hg; [|done].
    intros H. destruct (IH _ _ _ H) as [-> Hd]. split; [done|]. by econstructor.
Qed.

Lemma insertar_al_final {A} (l k : list A) (x y : A) :
  <[length l := x]> (l ++ y :: k) = l ++ x :: k.
Proof.
  rewrite <- (Nat.add_0_r (length l)) at 1. by rewrite insert_app_r.
Qed.

Lemma Usuario_init_efecto nombre email w :
  Usuario.__init__ nombre email w
  = (Ok (mkUsuario nombre email (length (carpetas w))), mundo_con_usuario w).
Proof.
  unfold Usuario.__init__, bind. rewrite Carpeta_init_efecto.
  rewrite crear_subcarpeta_efecto. cbn [carpetas listas servidores].
  rewrite list_lookup_middle by done. cbn [_subcarpetas dict.get].
  rewrite <- !app_assoc. cbn [app]. rewrite insertar_al_final.
  rewrite crear_subcarpeta_efecto. cbn [carpetas listas servidores].
  rewrite list_lookup_middle by done. cbn [_subcarpetas dict.get app].
  rewrite bool_decide_eq_false_2 by done.
  rewrite <- !app_assoc. cbn [app]. rewrite insertar_al_final.
  rewrite crear_subcarpeta_efecto. cbn [carpetas listas servidores].
  rewrite list_lookup_middle by done. cbn [_subcarpetas dict.get app].
  rewrite !bool_decide_eq_false_2 by done.
  rewrite <- !app_assoc. cbn [app]. rewrite insertar_al_final.
  unfold ret, mundo_con_usuario. cbn [_nombre _mensajes _padre _subcarpetas].
  rewrite !length_app. cbn [length].
  repeat f_equal; lia.
Qed.

Lemma raiz_de_usuario w :
  carpetas (mundo_con_usuario w) !! length (carpetas w)
  = Some (mkCarpeta "Root" (length (listas w))
            [("Entrada", length (carpetas w) + 1);
             ("Enviados", length (carpetas w) + 2);
             ("Prioritarios", length (carpetas w) + 3)] None).
Proof. unfold mundo_con_usuario. cbn. by rewrite list_lookup_middle. Qed.

Lemma entrada_de_usuario w :
  carpetas (mundo_con_usuario w) !! (length (carpetas w) + 1)
  = Some (mkCarpeta "Entrada" (length (listas w) + 1) [] (Some (length (carpetas w)))).
Proof.
  unfold mundo_con_usuario. cbn. rewrite lookup_app_r by lia.
  by replace (length (carpetas w) + 1 - length (carpetas w)) with 1 by lia.
Qed.

(** The path text only goes into the message of the error. *)
Lemma obtener_por_ruta_bucle_texto w ruta1 ruta2 : ∀ partes actual r w',
  SistemaCorreo.obtener_por_ruta_bucle ruta1 partes actual w = (Ok r, w') →
  SistemaCorreo.obtener_por_ruta_bucle ruta2 partes actual w = (Ok r, w').
Proof.
  intros partes. induction partes as [|p partes IH]; intros actual r w'; [done|].
  cbn [SistemaCorreo.obtener_por_ruta_bucle]. unfold bind.
  rewrite obtener_subcarpeta_efecto.
  destruct (carpetas w !! actual) as [c|]; [|done].
  destruct (dict.get p (_subcarpetas c)) as [h|]; [|done]. apply IH.
Qed.

(** C6. [obtener_por_ruta] removes the slashes at both ends of the path,
    cuts what is left at every slash and follows the names from the root,
    one child at a time.  What is left after stripping neither begins nor
    ends with a slash, and slashes added at either end of a path do not
    change the folder returned.  It returns the folder reached, or raises
    [ValueError] naming the first name that is not a child of the folder
    reached so far; either way the store is left as it was.  For a user just
    created, "Entrada" resolves to the Entrada folder and "NoExiste" raises
    naming 'NoExiste'. *)
Theorem obtener_por_ruta_recorre (w : Mundo) (sis : SistemaCorreo) (ruta : string) :
  bien_formado w →
  is_Some (carpetas w !! _carpeta_raiz sis) →
  let partes := str.split (str.strip ruta) in
  (∃ a b, ruta = str.barras a +:+ str.strip ruta +:+ str.barras b)
  ∧ str.lstrip (str.strip ruta) = str.strip ruta
  ∧ str.rstrip (str.strip ruta) = str.strip ruta
  ∧ str.join partes = str.strip ruta
  ∧ Forall (λ p, tiene_barra p = false) partes
  ∧ ((∃ r, SistemaCorreo.obtener_por_ruta sis ruta w = (Ok r, w)
           ∧ desciende w (_carpeta_raiz sis) partes r)
     ∨ (∃ antes p despues r c,
           partes = antes ++ p :: despues
           ∧ desciende w (_carpeta_raiz sis) antes r
           ∧ carpetas w !! r = Some c
           ∧ dict.get p (_subcarpetas c) = None
           ∧ SistemaCorreo.obtener_por_ruta sis ruta w
             = (Lanza (ValueError (no_existe p ruta)), w)))
  ∧ (∀ nombre email, ∃ u w1 entrada c,
        Usuario.__init__ nombre email w = (Ok u, w1)
        ∧ SistemaCorreo.obtener_por_ruta (mkSistemaCorreo (_raiz u)) "Entrada" w1
          = (Ok entrada, w1)
        ∧ Usuario.obtener_carpeta u "Entrada" w1 = (Ok entrada, w1)
        ∧ carpetas w1 !! entrada = Some c
        ∧ _nombre c = "Entrada" ∧ _padre c = Some (_raiz u)
        ∧ SistemaCorreo.obtener_por_ruta (mkSistemaCorreo (_raiz u)) "NoExiste" w1
          = (Lanza (ValueError (no_existe "NoExiste" "NoExiste")), w1))
  ∧ empieza_con_barra (str.strip ruta) = false
  ∧ termina_con_barra (str.strip ruta) = false
  ∧ (∀ a b s, empieza_con_barra s = false → termina_con_barra s = false →
       str.strip (str.barras a +:+ s +:+ str.barras b) = s)
  ∧ (∀ a b r,
       SistemaCorreo.obtener_por_ruta sis ruta w = (Ok r, w) ↔
       SistemaCorreo.obtener_por_ruta sis
         (str.barras a +:+ ruta +:+ str.barras b) w = (Ok r, w)).
Proof.
  intros Hw Hraiz partes.
  destruct (strip_efecto ruta) as (H1 & H2 & H3).
  split; [done|]. split; [done|]. split; [done|].
  split; [apply join_split|]. split; [apply split_sin_barras|].
  split; [by apply obtener_por_ruta_bucle_efecto|].
  split; [|split; [|split; [|split]]];
    [|unfold str.strip; apply rstrip_conserva_no_empieza, lstrip_no_empieza
     |apply rstrip_no_termina
     |intros a b s; apply strip_unico
     |intros a b r; unfold SistemaCorreo.obtener_por_ruta;
      rewrite strip_mas_barras; split; apply obtener_por_ruta_bucle_texto].
  intros nombre email.
  exists (mkUsuario nombre email (length (carpetas w))), (mundo_con_usuario w),
         (length (carpetas w) + 1).
  eexists. split; [apply Usuario_init_efecto|].
  split; [|split; [|split; [apply entrada_de_usuario|split; [done|split; [done|]]]]].
  - unfold SistemaCorreo.obtener_por_ruta.
    change (str.split (str.strip "Entrada")) with ["Entrada"].
    cbn [SistemaCorreo.obtener_por_ruta_bucle _carpeta_raiz _raiz].
    unfold bind. by rewrite obtener_subcarpeta_efecto, raiz_de_usuario.
  - unfold Usuario.obtener_carpeta, bind. cbn [_raiz].
    by rewrite obtener_subcarpeta_efecto, raiz_de_usuario.
  - unfold SistemaCorreo.obtener_por_ruta.
    change (str.split (str.strip "NoExiste")) with ["NoExiste"].
    cbn [SistemaCorreo.obtener_por_ruta_bucle _carpeta_raiz _raiz].
    unfold bind. by rewrite obtener_subcarpeta_efecto, raiz_de_usuario.
Qed.

Lemma obtener_por_ruta_recorre_testigo :
  let w := (buzon_con [] mundo_vacio).2 in
  bien_formado w
  ∧ is_Some (carpetas w !! 0)
  ∧ (∃ antes p despues,
      str.split (str.strip "/Enviados/Facturas/") = antes ++ p :: despues
      ∧ SistemaCorreo.obtener_por_ruta (mkSistemaCorreo 0) "/Enviados/Facturas/" w
        = (Lanza (ValueError (no_existe p "/Enviados/Facturas/")), w))
  ∧ str.strip "//Enviados/Facturas/" = "Enviados/Facturas"
  ∧ SistemaCorreo.obtener_por_ruta (mkSistemaCorreo 0) "/Entrada//" w = (Ok 1, w).
Proof.
  intros w.
  assert (H1 : bien_formado w) by apply preserva_buzon_con, bien_formado_vacio.
  assert (H2 : is_Some (carpetas w !! 0)) by (eexists; reflexivity).
  pose proof (obtener_por_ruta_recorre w (mkSistemaCorreo 0)
                "/Enviados/Facturas/" H1 H2) as (_ & _ & _ & _ & _ & H & _ & _ & _ & Hs & _).
  pose proof (obtener_por_ruta_recorre w (mkSistemaCorreo 0)
                "Entrada" H1 H2) as (_ & _ & _ & _ & _ & _ & _ & _ & _ & _ & He).
  refine (conj H1 (conj H2 (conj _ (conj (Hs 2 1 "Enviados/Facturas" eq_refl eq_refl)
                                         (proj1 (He 1 2 1) eq_refl))))).
  destruct H as [(r & Hr & _)|(antes & p & despues & r & c & Hp & _ & _ & _ & Hr)];
    [discriminate Hr|].
  exact (ex_intro _ antes (ex_intro _ p (ex_intro _ despues (conj Hp Hr)))).
Defined.

(** C10. [obtener_por_ruta] never returns the root it starts from: the
    path always has at least one name, and every name is resolved as a
    child.  For the empty path and for a path made of slashes only, what is
    left after stripping is the empty string, cut into the single name "";
    it is looked up as a child of the root, so the call raises [ValueError]
    naming '' unless the root has a child called "" (then that child is
    returned).  The tree of a user just created has no such child. *)
Theorem obtener_por_ruta_nunca_raiz (w : Mundo) (sis : SistemaCorreo) :
  bien_formado w →
  (∀ ruta r w', SistemaCorreo.obtener_por_ruta sis ruta w = (Ok r, w') →
                r ≠ _carpeta_raiz sis)
  ∧ (∀ n, str.split (str.strip (str.barras n)) = [""])
  ∧ (∀ n c, carpetas w !! _carpeta_raiz sis = Some c →
            SistemaCorreo.obtener_por_ruta sis (str.barras n) w
            = match dict.get "" (_subcarpetas c) with
              | Some h => (Ok h, w)
              | None => (Lanza (ValueError (no_existe "" (str.barras n))), w)
              end)
  ∧ (∀ nombre email n, ∃ u w1,
        Usuario.__init__ nombre email w = (Ok u, w1)
        ∧ SistemaCorreo.obtener_por_ruta (mkSistemaCorreo (_raiz u)) (str.barras n) w1
          = (Lanza (ValueError (no_existe "" (str.barras n))), w1)).
Proof.
  intros Hw. split; [|split; [|split]].
  - intros ruta r w' Hr. unfold SistemaCorreo.obtener_por_ruta in Hr.
    apply obtener_por_ruta_bucle_Ok in Hr as [_ Hd].
    apply (desciende_mayor _ _ _ _ Hw) in Hd; [lia|apply split_no_vacio].
  - intros n. by rewrite strip_barras.
  - intros n c Hc. unfold SistemaCorreo.obtener_por_ruta. rewrite strip_barras.
    cbn [str.split SistemaCorreo.obtener_por_ruta_bucle]. unfold bind.
    rewrite obtener_subcarpeta_efecto, Hc.
    by destruct (dict.get "" (_subcarpetas c)).
  - intros nombre email n. eexists _, _. split; [apply Usuario_init_efecto|].
    unfold SistemaCorreo.obtener_por_ruta. rewrite strip_barras.
    cbn [str.split SistemaCorreo.obtener_por_ruta_bucle _carpeta_raiz _raiz].
    unfold bind. by rewrite obtener_subcarpeta_efecto, raiz_de_usuario.
Qed.

Lemma obtener_por_ruta_nunca_raiz_testigo :
  let w := (buzon_con [] mundo_vacio).2 in
  bien_formado w
  ∧ SistemaCorreo.obtener_por_ruta (mkSistemaCorreo 0) "///" w
    = (Lanza (ValueError (no_existe "" "///")), w).
Proof.
  intros w.
  assert (H1 : bien_formado w) by apply preserva_buzon_con, bien_formado_vacio.
  pose proof (obtener_por_ruta_nunca_raiz w (mkSistemaCorreo 0) H1)
    as (_ & _ & H & _).
  exact (conj H1 (H 3 _ eq_refl)).
Defined.

(** ** Recursive search *)

Lemma startswith_correcto (p s : string) :
  str.startswith p s = true ↔ ∃ despues, s = p +:+ despues.
Proof.
  revert s. induction p as [|a p IH]; intros s; cbn.
  - split; [|done]. intros _. by exists s.
  - destruct s as [|b s].
    + split; [done|]. intros [d Hd]. discriminate.
    + rewrite andb_true_iff, bool_decide_eq_true, IH. split.
      * intros [-> [d ->]]. by exists d.
      * intros [d Hd]. injection Hd as -> ->. split; [done|]. by exists d.
Qed.

Lemma contains_correcto (aguja pajar : string) :
  str.contains aguja pajar = true ↔
  ∃ antes despues, pajar = antes +:+ aguja +:+ despues.
Proof.
  induction pajar as [|c r IH].
  - cbn. rewrite orb_false_r, startswith_correcto. split.
    + intros [d Hd]. by exists "", d.
    + intros [[|a antes] [d Hd]]; [by exists d|discriminate].
  - cbn [str.contains]. rewrite orb_true_iff, startswith_correcto, IH. split.
    + intros [[d Hd]|(antes & d & Hd)].
      * by exists "", d.
      * exists (String c antes), d. by rewrite Hd.
    + intros [[|a antes] [d Hd]].
      * left. by exists d.
      * right. injection Hd as -> ->. by exists antes, d.
Qed.

Lemma lower_idempotente (s : string) : str.lower (str.lower s) = str.lower s.
Proof.
  induction s as [|c r IH]; [done|]. cbn. f_equal; [|done].
  clear. destruct c as [[] [] [] [] [] [] [] []]; vm_compute; reflexivity.
Qed.

Lemma coincide_correcto (texto : string) (m : Mensaje) :
  SistemaCorreo.coincide (str.lower texto) m = true ↔
  contiene_sin_distinguir texto (_asunto m)
  ∨ contiene_sin_distinguir texto (_remitente m).
Proof.
  unfold SistemaCorreo.coincide, contiene_sin_distinguir.
  by rewrite orb_true_iff, !contains_correcto.
Qed.

Lemma extiende_refl w : extiende w w.
Proof. repeat split. exists []. by rewrite app_nil_r. Qed.

Lemma extiende_nueva_lista w w' l :
  extiende w w' →
  extiende w (mkMundo (carpetas w') (listas w' ++ [l]) (servidores w')).
Proof.
  intros (Hc & Hs & extra & He). repeat split; cbn; try done.
  exists (extra ++ [l]). by rewrite He, app_assoc.
Qed.

Lemma extiende_mensajes w w' r c :
  bien_formado w → extiende w w' → carpetas w !! r = Some c →
  ∃ ms, listas w' !! _mensajes c = Some ms ∧ mensajes_de w r = Some ms.
Proof.
  intros Hw (Hc & Hs & extra & He) Hr.
  pose proof (bf_lista _ Hw r c Hr) as Hlt.
  destruct (lookup_lt_is_Some_2 _ _ Hlt) as [ms Hms].
  exists ms. split.
  - rewrite He. by apply lookup_app_l_Some.
  - unfold mensajes_de. by rewrite Hr.
Qed.

Lemma coincidencias_app w texto l1 l2 :
  coincidencias w texto (l1 ++ l2)
  = coincidencias w texto l1 ++ coincidencias w texto l2.
Proof. unfold coincidencias. by rewrite fmap_app, concat_app. Qed.

Section Buscar.
Context (w0 : Mundo) (texto : string) (Hw0 : bien_formado w0).

(** The loop over the subfolders, given that the recursive call is right
    on each of them. *)
Lemma extender_con_buscar n : ∀ hs hijos acc w,
  (∀ h l w, h ∈ hs → extiende w0 w → preorden w0 h l →
     ∃ w', SistemaCorreo._buscar n (str.lower texto) h w
             = (Ok (coincidencias w0 texto l), w')
           ∧ extiende w0 w') →
  extiende w0 w →
  Forall2 (preorden w0) hs hijos →
  ∃ w', SistemaCorreo.extender_con (SistemaCorreo._buscar n (str.lower texto)) hs acc w
          = (Ok (acc ++ coincidencias w0 texto (concat hijos)), w')
        ∧ extiende w0 w'.
Proof.
  intros hs hijos acc w Hrec Hext HF. revert acc w Hext.
  induction HF as [|h l hs hijos Hh HF IH]; intros acc w Hext.
  - exists w. split; [|done]. cbn. unfold ret.
    by rewrite app_nil_r.
  - cbn [SistemaCorreo.extender_con]. unfold bind.
    destruct (Hrec h l w) as (w1 & Hr & Hext1); [set_solver|done..|].
    rewrite Hr.
    destruct (IH (λ h l w Hin, Hrec h l w (list_elem_of_further _ _ _ Hin))
                 (acc ++ coincidencias w0 texto l) w1 Hext1)
      as (w2 & Hr2 & Hext2).
    exists w2. split; [|done]. rewrite Hr2. cbn [concat].
    by rewrite coincidencias_app, app_assoc.
Qed.

Lemma buscar_correcto n : ∀ r l w,
  extiende w0 w → preorden w0 r l → length (carpetas w0) < n + r →
  ∃ w', SistemaCorreo._buscar n (str.lower texto) r w
          = (Ok (coincidencias w0 texto l), w')
        ∧ extiende w0 w'.
Proof.
  induction n as [|n IH]; intros r l w Hext Hpre Hn.
  - inversion Hpre as [r' c hijos Hc _]; subst.
    apply lookup_lt_Some in Hc. lia.
  - inversion Hpre as [r' c hijos Hc HF]; subst.
    destruct (extiende_mensajes _ _ _ _ Hw0 Hext Hc) as (ms & Hms & Hde).
    pose proof Hext as (Hcar & _ & _).
    cbn [SistemaCorreo._buscar]. unfold bind at 1.
    assert (Hcopia : Carpeta.mensajes r w
              = (Ok (length (listas w)),
                 mkMundo (carpetas w0) (listas w ++ [ms]) (servidores w))).
    { unfold Carpeta.mensajes, bind, leer_carpeta, leer_lista.
      rewrite Hcar, Hc, Hms. unfold nueva_lista. by rewrite Hcar. }
    rewrite Hcopia. unfold bind at 1, leer_lista. cbn [listas].
    rewrite list_lookup_middle by done.
    unfold bind at 1, leer_carpeta. cbn [carpetas]. rewrite Hc.
    destruct (extender_con_buscar n (dict.values (_subcarpetas c)) hijos
                ((λ m, (r, m)) <$> filter (λ m, SistemaCorreo.coincide (str.lower texto) m) ms)
                (mkMundo (carpetas w0) (listas w ++ [ms]) (servidores w)))
      as (w' & Hr & Hext').
    + intros h lh wh Hin Hexth Hpreh. apply IH; [done..|].
      unfold dict.values in Hin. apply list_elem_of_fmap in Hin as [[nom h'] [-> Hin]].
      destruct (bf_hijo _ Hw0 r c nom h' Hc Hin) as [Hlt _]. cbn. lia.
    + rewrite <- Hcar. by apply (extiende_nueva_lista w0 w).
    + done.
    + exists w'. split; [|done]. rewrite Hr. do 2 f_equal.
      unfold coincidencias. cbn [fmap list_fmap concat]. f_equal.
      unfold coincidencias_en. by rewrite Hde.
Qed.

End Buscar.

(** Every folder of a well-formed store heads a tree. *)
Lemma preorden_existe w :
  bien_formado w → ∀ k r, length (carpetas w) ≤ k + r →
  is_Some (carpetas w !! r) → ∃ l, preorden w r l.
Proof.
  intros Hw. induction k as [|k IH]; intros r Hk [c Hc].
  - apply lookup_lt_Some in Hc. lia.
  - assert (Hhijos : ∀ hs, (∀ h, h ∈ hs → r < h ∧ is_Some (carpetas w !! h)) →
                           ∃ hijos, Forall2 (preorden w) hs hijos).
    { induction hs as [|h hs IHhs]; intros Hhs; [by exists []|].
      destruct (Hhs h) as [Hlt Hsome]; [set_solver|].
      destruct (IH h) as [l Hl]; [lia|done|].
      destruct IHhs as [hijos Hhijos]; [intros; apply Hhs; set_solver|].
      exists (l :: hijos). by constructor. }
    destruct (Hhijos (dict.values (_subcarpetas c))) as [hijos HF].
    { intros h Hin. unfold dict.values in Hin.
      apply list_elem_of_fmap in Hin as [[nom h'] [-> Hin]].
      destruct (bf_hijo _ Hw r c nom h' Hc Hin) as (Hlt & c' & Hc' & _).
      split; [done|]. by exists c'. }
    exists (r :: concat hijos). by econstructor.
Qed.

Lemma preorden_unico w : ∀ k r l1 l2,
  bien_formado w → length (carpetas w) ≤ k + r →
  preorden w r l1 → preorden w r l2 → l1 = l2.
Proof.
  induction k as [|k IH]; intros r l1 l2 Hw Hk H1 H2.
  - inversion H1 as [r' c hijos Hc _]; subst. apply lookup_lt_Some in Hc. lia.
  - inversion H1 as [r1 c1 hijos1 Hc1 HF1]; subst.
    inversion H2 as [r2 c2 hijos2 Hc2 HF2]; subst.
    assert (c2 = c1) as -> by congruence. f_equal. f_equal.
    assert (Hmay : ∀ h, h ∈ dict.values (_subcarpetas c1) → r < h).
    { intros h Hin. unfold dict.values in Hin.
      apply list_elem_of_fmap in Hin as [[nom h'] [-> Hin]].
      by destruct (bf_hijo _ Hw r c1 nom h' Hc1 Hin). }
    clear Hc1 Hc2 H1 H2. revert hijos2 HF2.
    induction HF1 as [|h l hs hijos1 Hl HF1 IHF]; intros hijos2 HF2.
    + by inversion HF2.
    + inversion HF2 as [|h' l' hs' hijos2' Hl' HF2']; subst. f_equal.
      * apply (IH h); [done| |done..].
        assert (r < h) by (apply Hmay; set_solver). lia.
      * apply IHF; [|done]. intros; apply Hmay; set_solver.
Qed.

Lemma coincidencias_elem w texto l r m :
  (r, m) ∈ coincidencias w texto l ↔
  r ∈ l ∧ ∃ ms, mensajes_de w r = Some ms ∧ m ∈ ms
              ∧ (contiene_sin_distinguir texto (_asunto m)
                 ∨ contiene_sin_distinguir texto (_remitente m)).
Proof.
  assert (Hen : ∀ r', (r, m) ∈ coincidencias_en w texto r' ↔
            r' = r ∧ ∃ ms, mensajes_de w r = Some ms ∧ m ∈ ms
              ∧ (contiene_sin_distinguir texto (_asunto m)
                 ∨ contiene_sin_distinguir texto (_remitente m))).
  { intros r'. unfold coincidencias_en. rewrite list_elem_of_fmap. split.
    - intros (m' & [= <- <-] & Hm).
      apply list_elem_of_filter in Hm as [Hco Hm]. split; [done|].
      destruct (mensajes_de w r) as [ms|]; [|by apply elem_of_nil in Hm].
      exists ms. split; [done|]. split; [done|].
      apply coincide_correcto. by apply Is_true_true.
    - intros (-> & ms & Hms & Hm & Hco). exists m. split; [done|].
      rewrite Hms. apply list_elem_of_filter. split; [|done].
      apply Is_true_true. by apply coincide_correcto. }
  induction l as [|r' l IH].
  - unfold coincidencias. cbn. rewrite !elem_of_nil. tauto.
  - change (coincidencias w texto (r' :: l))
      with (coincidencias_en w texto r' ++ coincidencias w texto l).
    rewrite elem_of_app, elem_of_cons, IH, Hen. naive_solver.
Qed.

(** C5. On a well-formed store, [buscar_mensajes_recursivo] returns, for the
    folders of the tree under the root taken in depth-first preorder, the
    messages of each folder, in their order in the folder, whose subject or
    sender contains the text when case is ignored, each paired with its
    folder: those pairs and no others.  The search only allocates the
    copies made by [mensajes].  In the example tree, "urgente" finds the
    two matching messages of Entrada, then the one of its subfolder Trabajo
    (matched on the sender), then the one of Enviados. *)
Theorem buscar_mensajes_recursivo_preorden
    (w : Mundo) (sis : SistemaCorreo) (texto : string) :
  bien_formado w →
  is_Some (carpetas w !! _carpeta_raiz sis) →
  (∃ l w',
      preorden w (_carpeta_raiz sis) l
      ∧ (∀ l', preorden w (_carpeta_raiz sis) l' → l' = l)
      ∧ SistemaCorreo.buscar_mensajes_recursivo sis texto w
        = (Ok (coincidencias w texto l), w')
      ∧ extiende w w'
      ∧ (∀ r m, (r, m) ∈ coincidencias w texto l ↔
           r ∈ l ∧ ∃ ms, mensajes_de w r = Some ms ∧ m ∈ ms
                       ∧ (contiene_sin_distinguir texto (_asunto m)
                          ∨ contiene_sin_distinguir texto (_remitente m))))
  ∧ (∃ u w1 w2 res,
        arbol_de_ejemplo mundo_vacio = (Ok u, w1)
        ∧ preorden w1 (_raiz u) [0; 1; 4; 2; 3]
        ∧ SistemaCorreo.buscar_mensajes_recursivo (mkSistemaCorreo (_raiz u))
            "urgente" w1 = (Ok res, w2)
        ∧ (λ rm, (rm.1, identidad rm.2)) <$> res = [(1, 1); (1, 5); (4, 3); (2, 4)]).
Proof.
  intros Hw Hraiz. split.
  - destruct (preorden_existe w Hw (length (carpetas w)) (_carpeta_raiz sis))
      as [l Hl]; [lia|done|].
    destruct (buscar_correcto w texto Hw (S (length (carpetas w)))
                (_carpeta_raiz sis) l w (extiende_refl w) Hl)
      as (w' & Hr & Hext); [lia|].
    exists l, w'. split; [done|]. split.
    { intros l' Hl'. by eapply (preorden_unico w (length (carpetas w))); [|lia|..]. }
    split; [exact Hr|]. split; [done|]. intros r m. apply coincidencias_elem.
  - eexists _, _, _, _. split; [vm_compute; reflexivity|].
    split; [|split; [vm_compute; reflexivity|vm_compute; reflexivity]].
    eapply (preorden_nodo _ 0 _ [[1; 4]; [2]; [3]]); [reflexivity|].
    repeat constructor.
    + eapply (preorden_nodo _ 1 _ [[4]]); [reflexivity|].
      repeat constructor. eapply (preorden_nodo _ 4 _ []); [reflexivity|constructor].
    + eapply (preorden_nodo _ 2 _ []); [reflexivity|constructor].
    + eapply (preorden_nodo _ 3 _ []); [reflexivity|constructor].
Qed.

Lemma preserva_arbol_de_ejemplo : preserva arbol_de_ejemplo.
Proof. unfold arbol_de_ejemplo. auto 20 with preserva. Qed.

Lemma buscar_mensajes_recursivo_preorden_testigo :
  let w := (arbol_de_ejemplo mundo_vacio).2 in
  bien_formado w
  ∧ is_Some (carpetas w !! 0)
  ∧ ∃ l w', preorden w 0 l
      ∧ SistemaCorreo.buscar_mensajes_recursivo (mkSistemaCorreo 0) "Hola" w
        = (Ok (coincidencias w "Hola" l), w').
Proof.
  intros w.
  assert (H1 : bien_formado w) by apply preserva_arbol_de_ejemplo, bien_formado_vacio.
  assert (H2 : is_Some (carpetas w !! 0)) by (eexists; reflexivity).
  destruct (buscar_mensajes_recursivo_preorden w (mkSistemaCorreo 0) "Hola" H1 H2)
    as [(l & w' & Hl & _ & Hr & _) _].
  exact (conj H1 (conj H2 (ex_intro _ l (ex_intro _ w' (conj Hl Hr))))).
Defined.

(** ** Sending when the queue accepts the message *)

(** The filter loop picks the folder of the first keyword, in the order of
    the table, that occurs in the text; with no such keyword, Entrada. *)
Lemma aplicar_filtros_bucle_primera (texto : string) (filtros : list (string * string)) :
  (∃ antes palabra carpeta despues,
      filtros = antes ++ (palabra, carpeta) :: despues
      ∧ Forall (λ f, str.contains f.1 texto = false) antes
      ∧ str.contains palabra texto = true
      ∧ ServidorCorreo._aplicar_filtros_bucle texto filtros "Entrada" = carpeta)
  ∨ (Forall (λ f, str.contains f.1 texto = false) filtros
     ∧ ServidorCorreo._aplicar_filtros_bucle texto filtros "Entrada" = "Entrada").
Proof.
  induction filtros as [|[palabra carpeta] filtros IH].
  - right. by split.
  - cbn. destruct (str.contains palabra texto) eqn:Hc.
    + left. exists [], palabra, carpeta, filtros. by repeat split.
    + destruct IH as [(antes & p & c & despues & -> & Hantes & Hp & Hr)|[Hno Hr]].
      * left. exists ((palabra, carpeta) :: antes), p, c, despues.
        repeat split; try done. by constructor.
      * right. split; [by constructor|done].
Qed.

Lemma dict_get_app {V} (k : string) (d d' : list (string * V)) :
  dict.get k (d ++ d')
  = match dict.get k d with Some v => Some v | None => dict.get k d' end.
Proof.
  induction d as [|[k0 v0] d IH]; cbn; [done|]. by case_bool_decide.
Qed.

Lemma entregar_efecto w u nombre m :
  bien_formado w → is_Some (carpetas w !! _raiz u) →
  ∃ w', (let* c := Usuario.obtener_carpeta u nombre in
         Carpeta.agregar_mensaje c m) w = (Ok tt, w')
      ∧ entregado w u nombre m w'
      ∧ (∀ r, is_Some (carpetas w !! r) → is_Some (carpetas w' !! r)).
Proof.
  intros Hw [cr Hcr]. unfold bind, Usuario.obtener_carpeta, bind.
  rewrite obtener_subcarpeta_efecto, Hcr.
  destruct (dict.get nombre (_subcarpetas cr)) as [c|] eqn:Hg.
  - unfold ret.
    destruct (bf_hijo _ Hw _ _ _ _ Hcr (dict_get_elem _ _ _ Hg)) as (_ & cc & Hcc & _).
    pose proof (bf_lista _ Hw _ _ Hcc) as Hlt.
    destruct (lookup_lt_is_Some_2 _ _ Hlt) as [l Hl].
    rewrite (agregar_mensaje_efecto _ _ _ _ _ Hcc Hl).
    eexists. split; [done|]. split; [|done].
    exists c. unfold carpeta_de, mensajes_de. cbn. rewrite Hcr, Hcc, Hl.
    split; [done|]. split; [by left|]. split; [by apply list_lookup_insert_eq|].
    split; [|done]. intros r Hr [x Hx]. rewrite Hx.
    apply list_lookup_insert_ne. intros Heq. apply Hr. symmetry.
    by eapply (bf_propia _ Hw c r cc x).
  - rewrite crear_subcarpeta_efecto, Hcr, Hg.
    pose proof (lookup_lt_Some _ _ _ Hcr) as Hraiz.
    set (n := length (carpetas w)). set (k := length (listas w)).
    set (cr' := mkCarpeta (_nombre cr) (_mensajes cr)
                  (_subcarpetas cr ++ [(nombre, n)]) (_padre cr)).
    set (cn := mkCarpeta nombre k [] (Some (_raiz u))).
    assert (Hn : <[_raiz u := cr']> (carpetas w ++ [cn]) !! n = Some cn).
    { rewrite list_lookup_insert_ne by (unfold n; lia).
      by apply list_lookup_middle. }
    assert (Hk : (listas w ++ [[]]) !! k = Some []) by (by apply list_lookup_middle).
    erewrite agregar_mensaje_efecto; [|exact Hn|exact Hk].
    eexists. split; [done|]. cbn [carpetas listas servidores].
    assert (Hviejas : ∀ r x, carpetas w !! r = Some x →
              ∃ x', <[_raiz u := cr']> (carpetas w ++ [cn]) !! r = Some x'
                    ∧ _mensajes x' = _mensajes x
                    ∧ ∀ q h, dict.get q (_subcarpetas x) = Some h →
                             dict.get q (_subcarpetas x') = Some h).
    { intros r x Hx. destruct (decide (r = _raiz u)) as [->|Hne].
      - exists cr'. rewrite list_lookup_insert_eq by (rewrite length_app; lia).
        assert (x = cr) as -> by congruence.
        split; [done|]. split; [done|]. intros q h Hq.
        unfold cr'. cbn [_subcarpetas]. by rewrite dict_get_app, Hq.
      - exists x. rewrite list_lookup_insert_ne by done.
        split; [by apply lookup_app_l_Some|]. by split. }
    split.
    + exists n. unfold carpeta_de, mensajes_de. cbn [carpetas listas servidores].
      rewrite list_lookup_insert_eq by (rewrite length_app; lia).
      rewrite Hcr, Hn. cbn [_subcarpetas _mensajes].
      split.
      { unfold cr'. cbn [_subcarpetas]. rewrite dict_get_app, Hg. cbn.
        by rewrite bool_decide_eq_true_2. }
      split; [by right|].
      rewrite (lookup_ge_None_2 (carpetas w) n) by done. cbn.
      split; [apply list_lookup_insert_eq; rewrite length_app; cbn; lia|].
      split; [|split; [|done]].
      * intros r Hr [x Hx]. rewrite Hx.
        destruct (Hviejas r x Hx) as (x' & Hx' & Hm & _). rewrite Hx', Hm.
        pose proof (bf_lista _ Hw _ _ Hx) as Hlt.
        rewrite list_lookup_insert_ne by (unfold k; lia).
        by apply lookup_app_l.
      * intros u2 n2 c2. destruct (carpetas w !! _raiz u2) as [x|] eqn:Hx; [|done].
        destruct (Hviejas _ x Hx) as (x' & Hx' & _ & Hsub). rewrite Hx'. apply Hsub.
    + intros r [x Hx]. destruct (Hviejas r x Hx) as (x' & Hx' & _). by exists x'.
Qed.

Lemma en_cola_agregar_efecto w self s m h' r :
  servidores w !! self = Some s →
  heapq.heappush ColaPrioridades.tupla_lt (ordinal m, m) (_heap (_cola_prioridades s))
    = (r, h') →
  ServidorCorreo.en_cola self (ColaPrioridades.agregar m) w
  = (r, con_cola_en w self s h').
Proof.
  intros Hs Hpush. unfold ServidorCorreo.en_cola, zoom. rewrite Hs.
  unfold ColaPrioridades.agregar, ColaPrioridades.en_heap, zoom.
  cbn -[heapq.heappush ColaPrioridades._valor]. fold (ordinal m).
  by rewrite Hpush.
Qed.

(** What [enviar] does when [heappush] accepts the message (the queue is
    empty, or no comparison meets a tie): the sender, if registered, gets
    the message in Enviados; the tuple is in the heap; the recipient, if
    registered, gets the message in the folder chosen by the filters, and
    if not registered nothing else happens.  The call returns normally. *)
Lemma enviar_si_la_cola_acepta w self s m h' :
  bien_formado w →
  servidores w !! self = Some s →
  raices_validas w s →
  heapq.heappush ColaPrioridades.tupla_lt (ordinal m, m) (_heap (_cola_prioridades s))
    = (Ok tt, h') →
  ∃ w1 w',
    ServidorCorreo.enviar self m w = (Ok tt, w')
    ∧ match _usuarios s !! _remitente m with
      | Some u => entregado w u "Enviados" m w1
      | None => w1 = w
      end
    ∧ match _usuarios s !! _destinatario m with
      | Some u =>
          entregado (con_cola_en w1 self s h') u (carpeta_destino (_filtros s) m) m w'
      | None => w' = con_cola_en w1 self s h'
      end.
Proof.
  intros Hw Hs Hraices Hpush.
  assert (Hprimero : ∃ w1,
    (match _usuarios s !! _remitente m with
     | Some remitente =>
         let* enviados := Usuario.obtener_carpeta remitente "Enviados" in
         Carpeta.agregar_mensaje enviados m
     | None => ret tt
     end) w = (Ok tt, w1)
    ∧ match _usuarios s !! _remitente m with
      | Some u => entregado w u "Enviados" m w1
      | None => w1 = w
      end
    ∧ bien_formado w1 ∧ servidores w1 = servidores w
    ∧ ∀ r, is_Some (carpetas w !! r) → is_Some (carpetas w1 !! r)).
  { destruct (_usuarios s !! _remitente m) as [u|] eqn:Hu.
    - destruct (entregar_efecto w u "Enviados" m Hw (Hraices _ _ Hu))
        as (w1 & Hr & Hent & Hvivas).
      exists w1. split; [done|]. split; [done|]. split.
      + pose proof (preserva_bind _ _ (preserva_obtener_carpeta u "Enviados")
                      (λ c, preserva_agregar_mensaje c m) w Hw) as Hp.
        by rewrite Hr in Hp.
      + split; [|done]. by destruct Hent as (c & _ & _ & _ & _ & _ & ?).
    - exists w. split; [done|]. split; [done|]. split; [done|]. by split. }
  destruct Hprimero as (w1 & Hr1 & Hent1 & Hw1 & Hs1 & Hvivas).
  assert (Hs1' : servidores w1 !! self = Some s) by (by rewrite Hs1).
  set (w2 := con_cola_en w1 self s h').
  assert (Hs2 : servidores w2 !! self = Some (con_cola s h')).
  { unfold w2, con_cola_en. cbn. apply list_lookup_insert_eq.
    by eapply lookup_lt_Some. }
  assert (Hw2 : bien_formado w2) by (by apply bien_formado_servidores).
  assert (Hsegundo : ∃ w',
    try_except_ValueError
      (let* destinatario := ServidorCorreo._obtener_usuario self (_destinatario m) in
       ServidorCorreo._aplicar_filtros self m destinatario)
      (ret tt) w2 = (Ok tt, w')
    ∧ match _usuarios s !! _destinatario m with
      | Some u => entregado w2 u (carpeta_destino (_filtros s) m) m w'
      | None => w' = w2
      end).
  { unfold try_except_ValueError, bind at 1, ServidorCorreo._obtener_usuario,
      bind at 1, leer_servidor. rewrite Hs2. cbn [_usuarios con_cola].
    destruct (_usuarios s !! _destinatario m) as [u|] eqn:Hu.
    - unfold ret at 1, ServidorCorreo._aplicar_filtros, bind at 1, leer_servidor.
      rewrite Hs2. cbn [_filtros con_cola].
      destruct (entregar_efecto w2 u (carpeta_destino (_filtros s) m) m Hw2)
        as (w' & Hr & Hent & _).
      { apply Hvivas. by eapply Hraices. }
      exists w'. split; [|done]. unfold carpeta_destino in Hr. by rewrite Hr.
    - exists w2. by split. }
  destruct Hsegundo as (w' & Hr2 & Hent2).
  exists w1, w'. split; [|by split].
  unfold ServidorCorreo.enviar, bind at 1, leer_servidor. rewrite Hs.
  unfold bind at 1. rewrite Hr1. unfold bind at 1.
  rewrite (en_cola_agregar_efecto _ _ _ _ _ _ Hs1' Hpush). exact Hr2.
Qed.

(** With an empty queue the push always goes through. *)
Corollary enviar_con_cola_vacia w self s m :
  bien_formado w →
  servidores w !! self = Some s →
  raices_validas w s →
  _heap (_cola_prioridades s) = [] →
  ∃ w', ServidorCorreo.enviar self m w = (Ok tt, w')
      ∧ cola_de w' self = Some [(ordinal m, m)].
Proof.
  intros Hw Hs Hraices Hvacia.
  destruct (enviar_si_la_cola_acepta w self s m [(ordinal m, m)] Hw Hs Hraices)
    as (w1 & w' & Hr & H1 & H2); [by rewrite Hvacia, heappush_vacio|].
  exists w'. split; [done|].
  assert (Hs1 : servidores w1 = servidores w).
  { destruct (_usuarios s !! _remitente m); [|by subst].
    by destruct H1 as (c & _ & _ & _ & _ & _ & ?). }
  assert (Hs' : servidores w' = servidores (con_cola_en w1 self s [(ordinal m, m)])).
  { destruct (_usuarios s !! _destinatario m); [|by subst].
    by destruct H2 as (c & _ & _ & _ & _ & _ & ?). }
  unfold cola_de. rewrite Hs'. cbn. rewrite Hs1.
  rewrite list_lookup_insert_eq by (by eapply lookup_lt_Some). done.
Qed.


(** * Further properties of the code *)

(** ** Registering users *)

(** X1. Registering a user whose address is free succeeds, touches no
    folder, and from then on the server finds that user under that address
    and keeps finding every other user as before; registering again under
    the same address raises [ValueError] naming the address and changes
    nothing, so the first registration stays. *)
Theorem registrar_usuario_una_vez
    (w : Mundo) (self : ref) (s : ServidorCorreo) (u : Usuario) :
  servidores w !! self = Some s →
  _usuarios s !! _email u = None →
  ∃ w', ServidorCorreo.registrar_usuario self u w = (Ok tt, w')
      ∧ carpetas w' = carpetas w ∧ listas w' = listas w
      ∧ ServidorCorreo._obtener_usuario self (_email u) w' = (Ok u, w')
      ∧ (∀ email u2, email ≠ _email u →
           ServidorCorreo._obtener_usuario self email w = (Ok u2, w) →
           ServidorCorreo._obtener_usuario self email w' = (Ok u2, w'))
      ∧ (∀ u2, _email u2 = _email u →
           ServidorCorreo.registrar_usuario self u2 w'
           = (Lanza (ValueError (ya_registrado (_email u))), w')).
Proof.
  intros Hs Hlibre.
  pose proof (lookup_lt_Some _ _ _ Hs) as Hlt.
  eexists. split.
  { unfold ServidorCorreo.registrar_usuario, bind, leer_servidor.
    rewrite Hs, Hlibre. reflexivity. }
  cbn [carpetas listas servidores]. split; [done|]. split; [done|].
  split; [|split].
  - unfold ServidorCorreo._obtener_usuario, bind, leer_servidor. cbn [servidores].
    rewrite list_lookup_insert_eq by done. cbn [_usuarios].
    by rewrite lookup_insert_eq.
  - intros email u2 Hne. unfold ServidorCorreo._obtener_usuario, bind, leer_servidor.
    cbn [servidores]. rewrite Hs, list_lookup_insert_eq by done. cbn [_usuarios].
    rewrite lookup_insert_ne by done.
    destruct (_usuarios s !! email); [|done]. by intros [= ->].
  - intros u2 Hu2. unfold ServidorCorreo.registrar_usuario, bind, leer_servidor.
    cbn [servidores]. rewrite list_lookup_insert_eq by done. cbn [_usuarios].
    rewrite Hu2, lookup_insert_eq. by rewrite <- Hu2.
Qed.

Lemma registrar_usuario_una_vez_testigo :
  let w := (ServidorCorreo.__init__ "Local" mundo_vacio).2 in
  let u := mkUsuario "Luis" "luis@mail.com" 0 in
  servidores w !! 0 = Some (servidor_en w 0)
  ∧ _usuarios (servidor_en w 0) !! _email u = None
  ∧ ∃ w', ServidorCorreo.registrar_usuario 0 u w = (Ok tt, w')
        ∧ ServidorCorreo.registrar_usuario 0 u w'
          = (Lanza (ValueError (ya_registrado "luis@mail.com")), w').
Proof.
  intros w u.
  assert (H1 : servidores w !! 0 = Some (servidor_en w 0)) by reflexivity.
  assert (H2 : _usuarios (servidor_en w 0) !! _email u = None) by reflexivity.
  destruct (registrar_usuario_una_vez w 0 _ u H1 H2) as (w' & Hr & _ & _ & _ & _ & Hdos).
  exact (conj H1 (conj H2 (ex_intro _ w' (conj Hr (Hdos u eq_refl))))).
Defined.


(** ** Creating and finding subfolders *)

(** What a successful [crear_subcarpeta] leaves behind. *)
Lemma crear_subcarpeta_marco w self c nombre :
  bien_formado w →
  carpetas w !! self = Some c →
  dict.get nombre (_subcarpetas c) = None →
  ∃ w', Carpeta.crear_subcarpeta self nombre w = (Ok (length (carpetas w)), w')
      ∧ carpetas w' !! length (carpetas w)
        = Some (mkCarpeta nombre (length (listas w)) [] (Some self))
      ∧ mensajes_de w' (length (carpetas w)) = Some []
      ∧ (∀ r, is_Some (carpetas w !! r) → mensajes_de w' r = mensajes_de w r)
      ∧ (∀ r x, carpetas w !! r = Some x →
           ∃ x', carpetas w' !! r = Some x'
                 ∧ _nombre x' = _nombre x ∧ _padre x' = _padre x
                 ∧ _mensajes x' = _mensajes x
                 ∧ ∀ q, dict.get q (_subcarpetas x')
                        = if bool_decide (r = self ∧ q = nombre)
                          then Some (length (carpetas w))
                          else dict.get q (_subcarpetas x))
      ∧ servidores w' = servidores w.
Proof.
  intros Hw Hc Hg. rewrite crear_subcarpeta_efecto, Hc, Hg.
  pose proof (lookup_lt_Some _ _ _ Hc) as Hself.
  set (n := length (carpetas w)). set (k := length (listas w)).
  set (c' := mkCarpeta (_nombre c) (_mensajes c)
               (_subcarpetas c ++ [(nombre, n)]) (_padre c)).
  set (cn := mkCarpeta nombre k [] (Some self)).
  eexists. split; [done|]. cbn [carpetas listas servidores].
  assert (Hn : <[self := c']> (carpetas w ++ [cn]) !! n = Some cn).
  { rewrite list_lookup_insert_ne by (unfold n; lia). by apply list_lookup_middle. }
  assert (Hviejas : ∀ r x, carpetas w !! r = Some x →
            ∃ x', <[self := c']> (carpetas w ++ [cn]) !! r = Some x'
                  ∧ _nombre x' = _nombre x ∧ _padre x' = _padre x
                  ∧ _mensajes x' = _mensajes x
                  ∧ ∀ q, dict.get q (_subcarpetas x')
                         = if bool_decide (r = self ∧ q = nombre)
                           then Some n else dict.get q (_subcarpetas x)).
  { intros r x Hx. destruct (decide (r = self)) as [->|Hne].
    - exists c'. rewrite list_lookup_insert_eq by (rewrite length_app; lia).
      assert (x = c) as -> by congruence.
      repeat split; try done. intros q. unfold c'. cbn [_subcarpetas].
      rewrite dict_get_app. case_bool_decide as Hq.
      + destruct Hq as [_ ->]. rewrite Hg. cbn. by rewrite bool_decide_eq_true_2.
      + destruct (dict.get q (_subcarpetas c)); [done|]. cbn.
        rewrite bool_decide_eq_false_2; [done|]. intros ->. by apply Hq.
    - exists x. rewrite list_lookup_insert_ne by done.
      split; [by apply lookup_app_l_Some|]. repeat split; try done.
      intros q. rewrite bool_decide_eq_false_2; [done|]. by intros [? _]. }
  split; [done|]. split; [|split; [|split; [done|done]]].
  - unfold mensajes_de. cbn [carpetas listas]. rewrite Hn. cbn [_mensajes].
    by apply list_lookup_middle.
  - intros r [x Hx]. unfold mensajes_de. cbn [carpetas listas]. rewrite Hx.
    destruct (Hviejas r x Hx) as (x' & Hx' & _ & _ & Hm & _). rewrite Hx', Hm.
    apply lookup_app_l. by eapply (bf_lista _ Hw).
Qed.

(** X2. [crear_subcarpeta] with a name already taken raises [ValueError]
    naming it and changes nothing.  With a free name it returns a new, empty
    folder of that name whose parent is the folder it was created in; that
    folder is then found under the name, every other name resolves as
    before, the messages of the existing folders are untouched, and creating
    the same name again raises. *)
Theorem crear_subcarpeta_una_vez (w : Mundo) (self : ref) (c : Carpeta) (nombre : string) :
  bien_formado w →
  carpetas w !! self = Some c →
  (is_Some (dict.get nombre (_subcarpetas c)) →
     Carpeta.crear_subcarpeta self nombre w
     = (Lanza (ValueError (subcarpeta_repetida nombre)), w))
  ∧ (dict.get nombre (_subcarpetas c) = None →
     ∃ nueva w' cn,
       Carpeta.crear_subcarpeta self nombre w = (Ok nueva, w')
       ∧ carpetas w !! nueva = None
       ∧ carpetas w' !! nueva = Some cn
       ∧ _nombre cn = nombre ∧ _padre cn = Some self ∧ _subcarpetas cn = []
       ∧ mensajes_de w' nueva = Some []
       ∧ Carpeta.obtener_subcarpeta self nombre w' = (Ok (Some nueva), w')
       ∧ (∀ otro, otro ≠ nombre →
            Carpeta.obtener_subcarpeta self otro w'
            = (Ok (dict.get otro (_subcarpetas c)), w'))
       ∧ (∀ r, is_Some (carpetas w !! r) → mensajes_de w' r = mensajes_de w r)
       ∧ Carpeta.crear_subcarpeta self nombre w'
         = (Lanza (ValueError (subcarpeta_repetida nombre)), w')).
Proof.
  intros Hw Hc. split.
  - intros [h Hh]. by rewrite crear_subcarpeta_efecto, Hc, Hh.
  - intros Hg.
    destruct (crear_subcarpeta_marco w self c nombre Hw Hc Hg)
      as (w' & Hr & Hn & Hmn & Hms & Hviejas & _).
    destruct (Hviejas self c Hc) as (c' & Hc' & _ & _ & _ & Hsub).
    exists (length (carpetas w)), w', (mkCarpeta nombre (length (listas w)) [] (Some self)).
    split; [done|]. split; [by apply lookup_ge_None_2|].
    split; [done|]. split; [done|]. split; [done|]. split; [done|]. split; [done|].
    split; [|split; [|split; [done|]]].
    + rewrite obtener_subcarpeta_efecto, Hc', Hsub.
      by rewrite bool_decide_eq_true_2.
    + intros otro Hotro. rewrite obtener_subcarpeta_efecto, Hc', Hsub.
      rewrite bool_decide_eq_false_2; [done|]. by intros [_ ?].
    + rewrite crear_subcarpeta_efecto, Hc', Hsub.
      by rewrite bool_decide_eq_true_2.
Qed.

Lemma crear_subcarpeta_una_vez_testigo :
  let w := (buzon_con [] mundo_vacio).2 in
  bien_formado w
  ∧ carpetas w !! 1 = Some (mkCarpeta "Entrada" 1 [] (Some 0))
  ∧ ∃ nueva w', Carpeta.crear_subcarpeta 1 "Trabajo" w = (Ok nueva, w')
      ∧ Carpeta.obtener_subcarpeta 1 "Trabajo" w' = (Ok (Some nueva), w')
      ∧ Carpeta.crear_subcarpeta 1 "Trabajo" w'
        = (Lanza (ValueError (subcarpeta_repetida "Trabajo")), w').
Proof.
  intros w.
  assert (H1 : bien_formado w) by apply preserva_buzon_con, bien_formado_vacio.
  assert (H2 : carpetas w !! 1 = Some (mkCarpeta "Entrada" 1 [] (Some 0)))
    by reflexivity.
  destruct (crear_subcarpeta_una_vez w 1 _ "Trabajo" H1 H2) as [_ Hnueva].
  destruct (Hnueva eq_refl)
    as (nueva & w' & cn & Hr & _ & _ & _ & _ & _ & _ & Hg & _ & _ & Hdos).
  exact (conj H1 (conj H2 (ex_intro _ nueva (ex_intro _ w'
           (conj Hr (conj Hg Hdos)))))).
Defined.


(** ** Folders of a user, and reading them through the server *)

Lemma obtener_carpeta_casos w u cr nombre :
  carpetas w !! _raiz u = Some cr →
  Usuario.obtener_carpeta u nombre w
  = match dict.get nombre (_subcarpetas cr) with
    | Some c => (Ok c, w)
    | None => Carpeta.crear_subcarpeta (_raiz u) nombre w
    end.
Proof.
  intros Hcr. unfold Usuario.obtener_carpeta, bind.
  rewrite obtener_subcarpeta_efecto, Hcr.
  by destruct (dict.get nombre (_subcarpetas cr)).
Qed.

(** X3. [Usuario.obtener_carpeta] never raises: it returns the folder of
    that name under the root of the user, creating it, empty, when the user
    has none.  Asking again returns the same folder and changes nothing;
    when the folder existed the first call changes nothing either.  The
    messages of the folders that existed are untouched. *)
Theorem obtener_carpeta_crea_una_vez (w : Mundo) (u : Usuario) (nombre : string) :
  bien_formado w →
  is_Some (carpetas w !! _raiz u) →
  ∃ c w',
    Usuario.obtener_carpeta u nombre w = (Ok c, w')
    ∧ carpeta_de w' u nombre = Some c
    ∧ Usuario.obtener_carpeta u nombre w' = (Ok c, w')
    ∧ (carpeta_de w u nombre = Some c ∧ w' = w
       ∨ carpeta_de w u nombre = None ∧ carpetas w !! c = None
         ∧ mensajes_de w' c = Some [])
    ∧ (∀ r, is_Some (carpetas w !! r) → mensajes_de w' r = mensajes_de w r)
    ∧ bien_formado w'.
Proof.
  intros Hw [cr Hcr]. rewrite (obtener_carpeta_casos _ _ _ _ Hcr).
  unfold carpeta_de at 2 3. rewrite Hcr.
  destruct (dict.get nombre (_subcarpetas cr)) as [c|] eqn:Hg.
  - exists c, w. split; [done|]. unfold carpeta_de. rewrite Hcr.
    split; [done|]. split; [by rewrite (obtener_carpeta_casos _ _ _ _ Hcr), Hg|].
    split; [by left|]. by split.
  - destruct (crear_subcarpeta_marco w (_raiz u) cr nombre Hw Hcr Hg)
      as (w' & Hr & Hn & Hmn & Hms & Hviejas & _).
    destruct (Hviejas _ cr Hcr) as (cr' & Hcr' & _ & _ & _ & Hsub).
    assert (Hde : dict.get nombre (_subcarpetas cr') = Some (length (carpetas w))).
    { rewrite Hsub. by rewrite bool_decide_eq_true_2. }
    exists (length (carpetas w)), w'. split; [done|].
    unfold carpeta_de. rewrite Hcr'. split; [done|].
    split; [by rewrite (obtener_carpeta_casos _ _ _ _ Hcr'), Hde|].
    split; [right; split; [done|]; split; [by apply lookup_ge_None_2|done]|].
    split; [done|].
    pose proof (preserva_crear_subcarpeta (_raiz u) nombre w Hw) as Hp.
    by rewrite Hr in Hp.
Qed.

Lemma obtener_carpeta_crea_una_vez_testigo :
  let w := (buzon_con [] mundo_vacio).2 in
  let u := mkUsuario "Luis" "luis@mail.com" 0 in
  bien_formado w
  ∧ is_Some (carpetas w !! _raiz u)
  ∧ ∃ c w', Usuario.obtener_carpeta u "Promociones" w = (Ok c, w')
      ∧ Usuario.obtener_carpeta u "Promociones" w' = (Ok c, w').
Proof.
  intros w u.
  assert (H1 : bien_formado w) by apply preserva_buzon_con, bien_formado_vacio.
  assert (H2 : is_Some (carpetas w !! _raiz u)) by (eexists; reflexivity).
  destruct (obtener_carpeta_crea_una_vez w u "Promociones" H1 H2)
    as (c & w' & Hr & _ & Hr2 & _).
  exact (conj H1 (conj H2 (ex_intro _ c (ex_intro _ w' (conj Hr Hr2))))).
Defined.

Lemma obtener_usuario_None w self s email :
  servidores w !! self = Some s →
  _usuarios s !! email = None →
  ServidorCorreo._obtener_usuario self email w
  = (Lanza (ValueError (usuario_inexistente email (ServidorCorreo_nombre s))), w).
Proof.
  intros Hs Hu. unfold ServidorCorreo._obtener_usuario, bind, leer_servidor.
  by rewrite Hs, Hu.
Qed.

Lemma obtener_usuario_Some w self s email u :
  servidores w !! self = Some s →
  _usuarios s !! email = Some u →
  ServidorCorreo._obtener_usuario self email w = (Ok u, w).
Proof.
  intros Hs Hu. unfold ServidorCorreo._obtener_usuario, bind, leer_servidor.
  by rewrite Hs, Hu.
Qed.

Lemma servidor_con_usuarios_valido :
  let w := (servidor_con_usuarios mundo_vacio).2 in
  bien_formado w
  ∧ servidores w !! 0 = Some (servidor_en w 0)
  ∧ raices_validas w (servidor_en w 0).
Proof.
  intros w.
  assert (H1 : bien_formado w).
  { apply (preserva_bind _ _ (preserva_nuevo_servidor _)); [|apply bien_formado_vacio].
    intros s.
    do 2 (apply preserva_bind; [apply preserva_Usuario_init|]; intros ?).
    do 2 (apply preserva_bind; [apply preserva_registrar_usuario|]; intros _).
    apply preserva_ret. }
  assert (H2 : servidores w !! 0 = Some (servidor_en w 0)) by (vm_compute; reflexivity).
  assert (Hu : _usuarios (servidor_en w 0)
               = <["ana@mail.com" := mkUsuario "Ana" "ana@mail.com" 4]>
                   (<["luis@mail.com" := mkUsuario "Luis" "luis@mail.com" 0]> ∅))
    by (vm_compute; reflexivity).
  assert (Hn : length (carpetas w) = 8) by (vm_compute; reflexivity).
  split; [done|]. split; [done|].
  intros email u. rewrite Hu. intros Hl.
  apply lookup_lt_is_Some_2. rewrite Hn.
  apply lookup_insert_Some in Hl as [[_ <-]|[_ Hl]]; [cbn; lia|].
  apply lookup_insert_Some in Hl as [[_ <-]|[_ Hl]]; [cbn; lia|].
  by rewrite lookup_empty in Hl.
Qed.

(** X4. [recibir] is [listar] of Entrada.  For an address that is not
    registered [listar] raises [ValueError] naming the address and the
    server, and changes nothing.  For a registered user it never raises: it
    returns a new list holding the messages of the folder of that name, and
    when the user has no such folder it creates it and returns an empty
    list.  The messages of the folders that existed and the servers are
    untouched. *)
Theorem listar_devuelve_o_crea
    (w : Mundo) (self : ref) (s : ServidorCorreo) (email carpeta : string) :
  bien_formado w →
  servidores w !! self = Some s →
  raices_validas w s →
  ServidorCorreo.recibir self email = ServidorCorreo.listar self email "Entrada"
  ∧ (_usuarios s !! email = None →
       ServidorCorreo.listar self email carpeta w
       = (Lanza (ValueError (usuario_inexistente email (ServidorCorreo_nombre s))), w))
  ∧ (∀ u, _usuarios s !! email = Some u →
       ∃ copia w' c,
         ServidorCorreo.listar self email carpeta w = (Ok copia, w')
         ∧ carpeta_de w' u carpeta = Some c
         ∧ listas w' !! copia = mensajes_de w' c
         ∧ (∀ r x, carpetas w' !! r = Some x → _mensajes x ≠ copia)
         ∧ (carpeta_de w u carpeta = Some c ∧ carpetas w' = carpetas w
              ∧ mensajes_de w' c = mensajes_de w c
            ∨ carpeta_de w u carpeta = None ∧ carpetas w !! c = None
              ∧ mensajes_de w' c = Some [])
         ∧ (∀ r, is_Some (carpetas w !! r) → mensajes_de w' r = mensajes_de w r)
         ∧ servidores w' = servidores w).
Proof.
  intros Hw Hs Hraices. split; [done|].
  split.
  - intros Hu. unfold ServidorCorreo.listar, bind at 1.
    by rewrite (obtener_usuario_None _ _ _ _ Hs Hu).
  - intros u Hu.
    destruct (obtener_carpeta_crea_una_vez w u carpeta Hw (Hraices _ _ Hu))
      as (c & w1 & Hr & Hde & _ & Hcasos & Hms & Hw1).
    assert (Hlistar : ServidorCorreo.listar self email carpeta w
                      = Carpeta.mensajes c w1).
    { unfold ServidorCorreo.listar, bind at 1.
      rewrite (obtener_usuario_Some _ _ _ _ _ Hs Hu). unfold bind at 1.
      by rewrite Hr. }
    rewrite Hlistar. clear Hlistar.
    assert (Hs1 : servidores w1 = servidores w).
    { destruct Hcasos as [[_ ->]|[Hnone _]]; [done|].
      unfold carpeta_de in Hnone.
      destruct (Hraices _ _ Hu) as [cr Hcr]. rewrite Hcr in Hnone.
      destruct (crear_subcarpeta_marco w _ cr carpeta Hw Hcr Hnone)
        as (w1' & Hr' & _ & _ & _ & _ & Hss).
      rewrite (obtener_carpeta_casos _ _ _ _ Hcr), Hnone, Hr' in Hr.
      injection Hr as _ <-. done. }
    assert (Hc1 : ∃ x l, carpetas w1 !! c = Some x ∧ listas w1 !! _mensajes x = Some l).
    { unfold carpeta_de in Hde.
      destruct (carpetas w1 !! _raiz u) as [cr1|] eqn:Hcr1; [|done].
      destruct (bf_hijo _ Hw1 _ _ _ _ Hcr1 (dict_get_elem _ _ _ Hde))
        as (_ & x & Hx & _).
      pose proof (bf_lista _ Hw1 _ _ Hx) as Hlt.
      destruct (lookup_lt_is_Some_2 _ _ Hlt) as [l Hl]. by exists x, l. }
    destruct Hc1 as (x & l & Hx & Hl).
    assert (Hmw1 : mensajes_de w1 c = Some l).
    { unfold mensajes_de. by rewrite Hx. }
    assert (Hmarco : ∀ r, mensajes_de
              (mkMundo (carpetas w1) (listas w1 ++ [l]) (servidores w1)) r
              = mensajes_de w1 r).
    { intros r. unfold mensajes_de. cbn [carpetas listas].
      destruct (carpetas w1 !! r) as [y|] eqn:Hy; [|done].
      apply lookup_app_l. by eapply (bf_lista _ Hw1). }
    exists (length (listas w1)),
           (mkMundo (carpetas w1) (listas w1 ++ [l]) (servidores w1)), c.
    split.
    { unfold Carpeta.mensajes, bind, leer_carpeta, leer_lista. by rewrite Hx, Hl. }
    split; [done|]. split.
    { rewrite Hmarco, Hmw1. cbn [listas]. by apply list_lookup_middle. }
    split.
    { cbn [carpetas]. intros r y Hy. pose proof (bf_lista _ Hw1 _ _ Hy). lia. }
    split; [|split; [|done]].
    + destruct Hcasos as [[Hd ->]|(Hd & Hno & Hvacia)].
      * left. split; [done|]. split; [done|]. apply Hmarco.
      * right. split; [done|]. split; [done|]. by rewrite Hmarco.
    + intros r Hr'. rewrite Hmarco. by apply Hms.
Qed.

Lemma listar_devuelve_o_crea_testigo :
  let w := (servidor_con_usuarios mundo_vacio).2 in
  bien_formado w
  ∧ servidores w !! 0 = Some (servidor_en w 0)
  ∧ raices_validas w (servidor_en w 0)
  ∧ ServidorCorreo.listar 0 "eva@otro.com" "Entrada" w
    = (Lanza (ValueError (usuario_inexistente "eva@otro.com" "Servidor_Local")), w)
  ∧ ∃ copia w', ServidorCorreo.listar 0 "ana@mail.com" "Promociones" w = (Ok copia, w')
        ∧ listas w' !! copia = Some [].
Proof.
  intros w.
  destruct servidor_con_usuarios_valido as (H1 & H2 & H3). fold w in H1, H2, H3.
  assert (Hs : ServidorCorreo_nombre (servidor_en w 0) = "Servidor_Local")
    by (vm_compute; reflexivity).
  assert (H4 : _usuarios (servidor_en w 0) !! "eva@otro.com" = None)
    by (vm_compute; reflexivity).
  assert (H5 : _usuarios (servidor_en w 0) !! "ana@mail.com"
               = Some (mkUsuario "Ana" "ana@mail.com" 4))
    by (vm_compute; reflexivity).
  destruct (listar_devuelve_o_crea w 0 _ "eva@otro.com" "Entrada" H1 H2 H3)
    as (_ & Hno & _).
  specialize (Hno H4). rewrite Hs in Hno.
  destruct (listar_devuelve_o_crea w 0 _ "ana@mail.com" "Promociones" H1 H2 H3)
    as (_ & _ & Hsi).
  destruct (Hsi _ H5) as (copia & w' & c & Hr & _ & Hcopia & _ & Hcasos & _).
  assert (Hvacia : listas w' !! copia = Some []).
  { rewrite Hcopia. destruct Hcasos as [(Hd & _)|(_ & _ & Hv)]; [|done].
    exfalso. revert Hd. vm_compute. discriminate. }
  exact (conj H1 (conj H2 (conj H3 (conj Hno
           (ex_intro _ copia (ex_intro _ w' (conj Hr Hvacia))))))).
Defined.


(** ** Messages of a folder *)

Lemma remove_ausente (l : list Mensaje) (m : Mensaje) :
  (∀ m', m' ∈ l → identidad m' ≠ identidad m) →
  pylist.remove Mensaje.es m l = None
  ∧ pylist.remove Mensaje.es m (l ++ [m]) = Some l.
Proof.
  induction l as [|y l IH]; intros Hno; cbn.
  - unfold Mensaje.es. by rewrite bool_decide_eq_true_2.
  - unfold Mensaje.es at 1 3.
    rewrite bool_decide_eq_false_2 by (apply Hno; left).
    destruct IH as [-> ->]; [|done].
    intros m' Hm'. apply Hno. by right.
Qed.

Lemma mundo_eta (w : Mundo) :
  mkMundo (carpetas w) (listas w) (servidores w) = w.
Proof. by destruct w. Qed.

(** X5. [quitar_mensaje] of a message that is not in the folder raises the
    [ValueError] of [list.remove] and changes nothing.  Adding such a
    message puts it last, and removing it afterwards gives back the store
    as it was before. *)
Theorem quitar_mensaje_ausente
    (w : Mundo) (r : ref) (c : Carpeta) (l : list Mensaje) (m : Mensaje) :
  carpetas w !! r = Some c →
  listas w !! _mensajes c = Some l →
  (∀ m', m' ∈ l → identidad m' ≠ identidad m) →
  Carpeta.quitar_mensaje r m w = (Lanza (ValueError no_esta_en_la_lista), w)
  ∧ ∃ w1, Carpeta.agregar_mensaje r m w = (Ok tt, w1)
        ∧ mensajes_de w1 r = Some (l ++ [m])
        ∧ Carpeta.quitar_mensaje r m w1 = (Ok tt, w).
Proof.
  intros Hc Hl Hno. destruct (remove_ausente l m Hno) as [Hr1 Hr2].
  pose proof (lookup_lt_Some _ _ _ Hl) as Hlt. split.
  - unfold Carpeta.quitar_mensaje, bind, leer_carpeta, leer_lista.
    by rewrite Hc, Hl, Hr1.
  - eexists. split; [by apply (agregar_mensaje_efecto _ _ _ _ _ Hc Hl)|].
    split.
    + unfold mensajes_de. cbn [carpetas listas]. rewrite Hc.
      by apply list_lookup_insert_eq.
    + erewrite quitar_mensaje_efecto; [|exact Hc| |exact Hr2].
      * cbn [carpetas listas servidores].
        rewrite list_insert_insert_eq, list_insert_id by done.
        by rewrite mundo_eta.
      * cbn [listas]. by apply list_lookup_insert_eq.
Qed.

Lemma quitar_mensaje_ausente_testigo :
  let w := (buzon_con [carta 1 "uno"] mundo_vacio).2 in
  let c := mkCarpeta "Entrada" 1 [] (Some 0) in
  carpetas w !! 1 = Some c
  ∧ listas w !! _mensajes c = Some [carta 1 "uno"]
  ∧ (∀ m', m' ∈ [carta 1 "uno"] → identidad m' ≠ identidad (carta 2 "dos"))
  ∧ Carpeta.quitar_mensaje 1 (carta 2 "dos") w
    = (Lanza (ValueError no_esta_en_la_lista), w).
Proof.
  intros w c.
  assert (H1 : carpetas w !! 1 = Some c) by reflexivity.
  assert (H2 : listas w !! _mensajes c = Some [carta 1 "uno"]) by reflexivity.
  assert (H3 : ∀ m', m' ∈ [carta 1 "uno"] → identidad m' ≠ identidad (carta 2 "dos")).
  { intros m' Hm'. apply list_elem_of_singleton in Hm'. by subst m'. }
  exact (conj H1 (conj H2 (conj H3
           (proj1 (quitar_mensaje_ausente w 1 c _ (carta 2 "dos") H1 H2 H3))))).
Defined.


(** ** Sending through a server *)

(** X6. The first message sent through a server (its queue is empty) is
    always accepted: [enviar] returns normally, a sender registered on the
    server gets the message at the end of Enviados, the queue holds exactly
    that message, and a recipient registered on the server gets the message
    at the end of the folder chosen by the filters; a recipient that is not
    registered is passed over without an error. *)
Theorem enviar_primer_mensaje
    (w : Mundo) (self : ref) (s : ServidorCorreo) (m : Mensaje) :
  bien_formado w →
  servidores w !! self = Some s →
  raices_validas w s →
  _heap (_cola_prioridades s) = [] →
  ∃ w1 w',
    ServidorCorreo.enviar self m w = (Ok tt, w')
    ∧ match _usuarios s !! _remitente m with
      | Some u => entregado w u "Enviados" m w1
      | None => w1 = w
      end
    ∧ match _usuarios s !! _destinatario m with
      | Some u =>
          entregado (con_cola_en w1 self s [(ordinal m, m)]) u
                    (carpeta_destino (_filtros s) m) m w'
      | None => w' = con_cola_en w1 self s [(ordinal m, m)]
      end
    ∧ cola_de w' self = Some [(ordinal m, m)]
    ∧ bien_formado w'.
Proof.
  intros Hw Hs Hraices Hvacia.
  destruct (enviar_si_la_cola_acepta w self s m [(ordinal m, m)] Hw Hs Hraices)
    as (w1 & w' & Hr & H1 & H2); [by rewrite Hvacia, heappush_vacio|].
  destruct (enviar_con_cola_vacia w self s m Hw Hs Hraices Hvacia)
    as (w'' & Hr' & Hcola).
  assert (w'' = w') as -> by congruence.
  exists w1, w'. split; [done|]. split; [done|]. split; [done|]. split; [done|].
  pose proof (preserva_enviar self m w Hw) as Hp. by rewrite Hr in Hp.
Qed.

Lemma enviar_primer_mensaje_testigo :
  let w := (servidor_con_usuarios mundo_vacio).2 in
  let m := mensaje_de_prueba 1 "luis@mail.com" "ana@mail.com" "Oferta final" "Alta" in
  bien_formado w
  ∧ servidores w !! 0 = Some (servidor_en w 0)
  ∧ raices_validas w (servidor_en w 0)
  ∧ _heap (_cola_prioridades (servidor_en w 0)) = []
  ∧ ∃ w', ServidorCorreo.enviar 0 m w = (Ok tt, w')
        ∧ cola_de w' 0 = Some [(1%Z, m)].
Proof.
  intros w m.
  destruct servidor_con_usuarios_valido as (H1 & H2 & H3). fold w in H1, H2, H3.
  assert (H4 : _heap (_cola_prioridades (servidor_en w 0)) = [])
    by (vm_compute; reflexivity).
  destruct (enviar_primer_mensaje w 0 _ m H1 H2 H3 H4)
    as (w1 & w' & Hr & _ & _ & Hcola & _).
  exact (conj H1 (conj H2 (conj H3 (conj H4 (ex_intro _ w' (conj Hr Hcola)))))).
Defined.


(** ** Filters *)

(** X7. [_aplicar_filtros] appends the message to one folder of the
    recipient, creating it if needed, and never raises.  The folder is that
    of the first keyword of the table, in insertion order, that occurs in
    the lower-cased subject, space, body; later keywords that also occur
    are ignored, and with no keyword occurring the folder is Entrada. *)
Theorem aplicar_filtros_primera_coincidencia
    (w : Mundo) (self : ref) (s : ServidorCorreo) (m : Mensaje) (u : Usuario) :
  bien_formado w →
  servidores w !! self = Some s →
  is_Some (carpetas w !! _raiz u) →
  ∃ nombre w',
    ServidorCorreo._aplicar_filtros self m u w = (Ok tt, w')
    ∧ entregado w u nombre m w'
    ∧ ((∃ antes palabra despues,
          _filtros s = antes ++ (palabra, nombre) :: despues
          ∧ Forall (λ f, str.contains f.1 (texto_de m) = false) antes
          ∧ str.contains palabra (texto_de m) = true)
       ∨ (Forall (λ f, str.contains f.1 (texto_de m) = false) (_filtros s)
          ∧ nombre = "Entrada")).
Proof.
  intros Hw Hs Hraiz.
  destruct (entregar_efecto w u (carpeta_destino (_filtros s) m) m Hw Hraiz)
    as (w' & Hr & Hent & _).
  exists (carpeta_destino (_filtros s) m), w'. split; [|split; [done|]].
  - unfold ServidorCorreo._aplicar_filtros, bind at 1, leer_servidor. by rewrite Hs.
  - unfold carpeta_destino. fold (texto_de m).
    destruct (aplicar_filtros_bucle_primera (texto_de m) (_filtros s))
      as [(antes & p & c & despues & Hf & Hantes & Hp & Hc)|[Hno Hc]].
    + left. exists antes, p, despues. by rewrite Hc.
    + right. by rewrite Hc.
Qed.

Lemma aplicar_filtros_primera_coincidencia_testigo :
  let w := (servidor_con_usuarios mundo_vacio).2 in
  let m := mkMensaje 1 "uuid" "luis@mail.com" "ana@mail.com"
             "OFERTA de la Universidad" "urgente" 0 false "Media" in
  let ana := mkUsuario "Ana" "ana@mail.com" 4 in
  bien_formado w
  ∧ servidores w !! 0 = Some (servidor_en w 0)
  ∧ is_Some (carpetas w !! _raiz ana)
  ∧ ∃ nombre w', ServidorCorreo._aplicar_filtros 0 m ana w = (Ok tt, w')
        ∧ entregado w ana nombre m w'.
Proof.
  intros w m ana.
  destruct servidor_con_usuarios_valido as (H1 & H2 & _). fold w in H1, H2.
  assert (H3 : is_Some (carpetas w !! _raiz ana)).
  { apply lookup_lt_is_Some_2. vm_compute. lia. }
  destruct (aplicar_filtros_primera_coincidencia w 0 _ m ana H1 H2 H3)
    as (nombre & w' & Hr & Hent & _).
  exact (conj H1 (conj H2 (conj H3
           (ex_intro _ nombre (ex_intro _ w' (conj Hr Hent)))))).
Defined.

Lemma aplicar_filtros_bucle_app texto filtros palabra carpeta :
  ServidorCorreo._aplicar_filtros_bucle texto (filtros ++ [(palabra, carpeta)]) "Entrada"
  = if algun_filtro filtros texto
    then ServidorCorreo._aplicar_filtros_bucle texto filtros "Entrada"
    else if str.contains palabra texto then carpeta else "Entrada".
Proof.
  induction filtros as [|[p c] filtros IH]; cbn; [done|].
  by destruct (str.contains p texto).
Qed.

(** X8. [agregar_filtro] never raises and touches only the filter table of
    its server.  The keyword is stored in lower case.  A keyword that is
    new goes to the end of the table: messages caught by an earlier filter
    go where they went before, and the others go to the new folder exactly
    when the lower-cased keyword occurs in their text.  A keyword already
    in the table keeps its place and only changes its folder. *)
Theorem agregar_filtro_efecto
    (w : Mundo) (self : ref) (s : ServidorCorreo) (palabra carpeta : string) :
  servidores w !! self = Some s →
  ∃ s',
    ServidorCorreo.agregar_filtro self palabra carpeta w
    = (Ok tt, mkMundo (carpetas w) (listas w) (<[self := s']> (servidores w)))
    ∧ ServidorCorreo_nombre s' = ServidorCorreo_nombre s
    ∧ _usuarios s' = _usuarios s
    ∧ _cola_prioridades s' = _cola_prioridades s
    ∧ dict.get (str.lower palabra) (_filtros s') = Some carpeta
    ∧ (∀ k, k ≠ str.lower palabra →
         dict.get k (_filtros s') = dict.get k (_filtros s))
    ∧ (_filtros s').*1
      = (_filtros s).*1
        ++ (if dict.contains (str.lower palabra) (_filtros s)
            then [] else [str.lower palabra])
    ∧ (dict.get (str.lower palabra) (_filtros s) = None →
       ∀ m, carpeta_destino (_filtros s') m
            = if algun_filtro (_filtros s) (texto_de m)
              then carpeta_destino (_filtros s) m
              else if str.contains (str.lower palabra) (texto_de m)
                   then carpeta else "Entrada").
Proof.
  intros Hs. eexists. split.
  { unfold ServidorCorreo.agregar_filtro, bind, leer_servidor. rewrite Hs.
    reflexivity. }
  cbn [ServidorCorreo_nombre _usuarios _cola_prioridades _filtros].
  split; [done|]. split; [done|]. split; [done|].
  split; [apply dict_get_set_eq|].
  split; [intros k Hk; by apply dict_get_set_ne|].
  split.
  - generalize (_filtros s) as d. intros d. unfold dict.contains.
    induction d as [|[k v] d IH]; cbn.
    + done.
    + case_bool_decide as Hk; cbn.
      * by rewrite app_nil_r.
      * by rewrite IH.
  - intros Hnuevo m. rewrite (dict_set_nuevo _ _ _ Hnuevo).
    unfold carpeta_destino. fold (texto_de m).
    apply aplicar_filtros_bucle_app.
Qed.

Lemma agregar_filtro_efecto_testigo :
  let w := (ServidorCorreo.__init__ "Local" mundo_vacio).2 in
  servidores w !! 0 = Some (servidor_en w 0)
  ∧ ∃ s', ServidorCorreo.agregar_filtro 0 "FACTURA" "Pagos" w
          = (Ok tt, mkMundo (carpetas w) (listas w) (<[0 := s']> (servidores w)))
        ∧ dict.get "factura" (_filtros s') = Some "Pagos".
Proof.
  intros w.
  assert (H1 : servidores w !! 0 = Some (servidor_en w 0)) by reflexivity.
  destruct (agregar_filtro_efecto w 0 _ "FACTURA" "Pagos" H1)
    as (s' & Hr & _ & _ & _ & Hg & _).
  exact (conj H1 (ex_intro _ s' (conj Hr Hg))).
Defined.


(** ** Building the network *)

Lemma get_setdefault_append (k v x : string) (d : list (string * list string)) :
  dict.get x (RedServidores.setdefault_append k v d)
  = if bool_decide (x = k) then Some (default [] (dict.get k d) ++ [v])
    else dict.get x d.
Proof.
  unfold RedServidores.setdefault_append, RedServidores.setdefault, dict.contains.
  case_bool_decide as Hx.
  - subst x. rewrite dict_get_set_eq. do 2 f_equal.
    destruct (dict.get k d) eqn:Hg; [by rewrite Hg|].
    by rewrite dict_get_set_eq.
  - rewrite dict_get_set_ne by done.
    destruct (dict.get k d) eqn:Hg; [done|].
    by rewrite dict_get_set_ne.
Qed.

Lemma vecinos_conectar (red : RedServidores) (a b x : string) :
  RedServidores.vecinos (RedServidores.conectar red a b) x
  = RedServidores.vecinos red x
    ++ (if bool_decide (x = a) then [b] else [])
    ++ (if bool_decide (x = b) then [a] else []).
Proof.
  unfold RedServidores.vecinos, RedServidores.conectar. cbn [_conexiones].
  rewrite !get_setdefault_append.
  destruct (bool_decide_reflect (x = b)) as [->|Hb].
  - cbn. destruct (bool_decide_reflect (b = a)) as [->|Ha]; cbn.
    + by rewrite <- ?app_assoc.
    + by rewrite ?app_nil_r.
  - destruct (bool_decide_reflect (x = a)) as [->|Ha]; cbn; [done|].
    by rewrite ?app_nil_r.
Qed.

Lemma simetrica_conectar (red : RedServidores) (a b : string) :
  simetrica red → simetrica (RedServidores.conectar red a b).
Proof.
  intros Hs x y. unfold arista. rewrite !vecinos_conectar.
  rewrite !elem_of_app. intros [Hxy|[Hxy|Hxy]].
  - left. by apply Hs.
  - case_bool_decide as Hx; [|by apply elem_of_nil in Hxy].
    apply list_elem_of_singleton in Hxy. subst x y.
    right. right. rewrite bool_decide_eq_true_2 by done. by left.
  - case_bool_decide as Hx; [|by apply elem_of_nil in Hxy].
    apply list_elem_of_singleton in Hxy. subst x y.
    right. left. rewrite bool_decide_eq_true_2 by done. by left.
Qed.

Lemma simetrica_vacia : simetrica RedServidores.__init__.
Proof. intros a b H. by apply elem_of_nil in H. Qed.

Lemma agregar_servidor_efecto w red srv s :
  servidores w !! srv = Some s →
  ∃ red', RedServidores.agregar_servidor red srv w = (Ok red', w)
    ∧ _servidores red' = dict.set (ServidorCorreo_nombre s) srv (_servidores red)
    ∧ ∀ x, RedServidores.vecinos red' x = RedServidores.vecinos red x.
Proof.
  intros Hs. eexists. split.
  { unfold RedServidores.agregar_servidor, bind, leer_servidor. by rewrite Hs. }
  split; [done|]. intros x.
  unfold RedServidores.vecinos, RedServidores.setdefault, dict.contains.
  cbn [_conexiones].
  destruct (dict.get (ServidorCorreo_nombre s) (_conexiones red)) eqn:Hg; [done|].
  destruct (decide (ServidorCorreo_nombre s = x)) as [<-|Hne].
  - by rewrite dict_get_set_eq, Hg.
  - by rewrite dict_get_set_ne.
Qed.

(** X9. [conectar] appends each name to the adjacency list of the other
    (twice to its own list when both names are the same), creating the
    lists that are missing; it leaves every other list and the table of
    servers as they were, and does not ask that the names be servers of the
    network.  So a network whose connections are listed on both sides
    stays so. *)
Theorem conectar_en_ambos_sentidos (red : RedServidores) (a b : string) :
  (∀ x, RedServidores.vecinos (RedServidores.conectar red a b) x
        = RedServidores.vecinos red x
          ++ (if bool_decide (x = a) then [b] else [])
          ++ (if bool_decide (x = b) then [a] else []))
  ∧ _servidores (RedServidores.conectar red a b) = _servidores red
  ∧ arista (RedServidores.conectar red a b) a b
  ∧ arista (RedServidores.conectar red a b) b a
  ∧ (simetrica red → simetrica (RedServidores.conectar red a b)).
Proof.
  split; [intros x; apply vecinos_conectar|]. split; [done|].
  unfold arista. rewrite !vecinos_conectar. split; [|split].
  - rewrite (bool_decide_eq_true_2 (a = a)) by done. set_solver.
  - rewrite (bool_decide_eq_true_2 (b = b)) by done. set_solver.
  - apply simetrica_conectar.
Qed.

(** X10. [agregar_servidor] records the server under its name, replacing a
    server of the same name, and gives the name an empty adjacency list if
    it has none; the connections of the network and the store are left as
    they were. *)
Theorem agregar_servidor_conserva_conexiones
    (w : Mundo) (red : RedServidores) (srv : ref) (s : ServidorCorreo) :
  servidores w !! srv = Some s →
  ∃ red', RedServidores.agregar_servidor red srv w = (Ok red', w)
    ∧ dict.get (ServidorCorreo_nombre s) (_servidores red') = Some srv
    ∧ (∀ nombre, nombre ≠ ServidorCorreo_nombre s →
         dict.get nombre (_servidores red') = dict.get nombre (_servidores red))
    ∧ dict.contains (ServidorCorreo_nombre s) (_conexiones red') = true
    ∧ (∀ x, RedServidores.vecinos red' x = RedServidores.vecinos red x)
    ∧ (simetrica red → simetrica red').
Proof.
  intros Hs. destruct (agregar_servidor_efecto w red srv s Hs) as (red' & Hr & Hsv & Hv).
  exists red'. split; [done|]. rewrite Hsv.
  split; [apply dict_get_set_eq|].
  split; [intros n Hn; by apply dict_get_set_ne|].
  split.
  - unfold RedServidores.agregar_servidor, bind, leer_servidor in Hr.
    rewrite Hs in Hr. injection Hr as <-. cbn [_conexiones].
    unfold RedServidores.setdefault, dict.contains.
    destruct (dict.get (ServidorCorreo_nombre s) (_conexiones red)) eqn:Hg.
    + by rewrite Hg.
    + by rewrite dict_get_set_eq.
  - split; [done|]. intros Hsim a b. unfold arista. rewrite !Hv. apply Hsim.
Qed.

Lemma agregar_servidor_conserva_conexiones_testigo :
  let w := (ServidorCorreo.__init__ "A" mundo_vacio).2 in
  servidores w !! 0 = Some (servidor_en w 0)
  ∧ ∃ red', RedServidores.agregar_servidor RedServidores.__init__ 0 w = (Ok red', w)
      ∧ dict.get "A" (_servidores red') = Some 0.
Proof.
  intros w.
  assert (H1 : servidores w !! 0 = Some (servidor_en w 0)) by reflexivity.
  destruct (agregar_servidor_conserva_conexiones w RedServidores.__init__ 0 _ H1)
    as (red' & Hr & Hg & _).
  exact (conj H1 (ex_intro _ red' (conj Hr Hg))).
Defined.


(** ** Routes in both directions *)

Lemma es_camino_anteponer (red : RedServidores) (d u b : string) (q : list string) :
  arista red d u → es_camino red u b q → es_camino red d b (d :: q).
Proof.
  intros Hdu. induction 1 as [|y x q' Hq IH Hyx].
  - apply (camino_paso red d d u [d]); [constructor|done].
  - apply (camino_paso red d y x (d :: q')); done.
Qed.

Lemma es_camino_inverso (red : RedServidores) (a b : string) (p : list string) :
  simetrica red → es_camino red a b p → es_camino red b a (rev p).
Proof.
  intros Hs. induction 1 as [|u d p Hp IH Hud].
  - constructor.
  - rewrite rev_unit. apply es_camino_anteponer with u; [by apply Hs|done].
Qed.

(** X11. In a network whose connections are listed on both sides, as
    [conectar] builds them, [bfs] finds a route from [a] to [b] exactly
    when it finds one from [b] to [a]; the two routes have the same number
    of servers, and each one read backwards is a route too. *)
Theorem bfs_ida_y_vuelta (red : RedServidores) (a b : string) :
  simetrica red →
  match RedServidores.bfs red a b, RedServidores.bfs red b a with
  | Ok (Some p), Ok (Some q) =>
      length p = length q
      ∧ es_camino red b a (rev p) ∧ es_camino red a b (rev q)
  | Ok None, Ok None => True
  | _, _ => False
  end.
Proof.
  intros Hs.
  pose proof (bfs_correcto red a b) as Hab.
  pose proof (bfs_correcto red b a) as Hba.
  destruct (RedServidores.bfs red a b) as [[p|]| | |]; try done;
    destruct (RedServidores.bfs red b a) as [[q|]| | |]; try done.
  - destruct Hab as [Hp Hpmin], Hba as [Hq Hqmin].
    pose proof (es_camino_inverso _ _ _ _ Hs Hp) as Hp'.
    pose proof (es_camino_inverso _ _ _ _ Hs Hq) as Hq'.
    split; [|done].
    pose proof (Hpmin _ Hq') as H1. pose proof (Hqmin _ Hp') as H2.
    rewrite length_rev in H1, H2. lia.
  - destruct Hab as [Hp _]. by apply (Hba (rev p)), es_camino_inverso.
  - destruct Hba as [Hq _]. by apply (Hab (rev q)), es_camino_inverso.
Qed.

Lemma bfs_ida_y_vuelta_testigo :
  let red := RedServidores.conectar
               (RedServidores.conectar RedServidores.__init__ "A" "C") "C" "B" in
  simetrica red
  ∧ RedServidores.bfs red "A" "B" = Ok (Some ["A"; "C"; "B"])
  ∧ RedServidores.bfs red "B" "A" = Ok (Some ["B"; "C"; "A"])
  ∧ es_camino red "B" "A" (rev ["A"; "C"; "B"]).
Proof.
  intros red.
  assert (H1 : simetrica red).
  { do 2 apply simetrica_conectar. apply simetrica_vacia. }
  assert (H2 : RedServidores.bfs red "A" "B" = Ok (Some ["A"; "C"; "B"]))
    by (vm_compute; reflexivity).
  assert (H3 : RedServidores.bfs red "B" "A" = Ok (Some ["B"; "C"; "A"]))
    by (vm_compute; reflexivity).
  pose proof (bfs_ida_y_vuelta red "A" "B" H1) as H.
  rewrite H2, H3 in H.
  exact (conj H1 (conj H2 (conj H3 (proj1 (proj2 H))))).
Defined.


(** ** Sending across the network *)

(** X12. [enviar_entre_servidores] delivers only when some walk leads from
    the origin to the destination.  With no walk it prints that there is no
    route and changes nothing.  With a walk it prints the route found by
    [bfs]; then, if the destination name is not in the table of servers, it
    prints that the destination does not exist and changes nothing, and
    otherwise it does what [enviar] of the destination server does with the
    message, and nothing else: the route stays printed also when that
    [enviar] raises, the exception is passed on, and the origin and the
    servers on the route are not asked to do anything, nor need the origin
    be a server. *)
Theorem enviar_entre_servidores_casos
    (red : RedServidores) (m : Mensaje) (o d : string)
    (salida : list string) (w : Mundo) :
  (¬ alcanzable red o d →
     RedServidores.enviar_entre_servidores red m o d (salida, w)
     = (Ok tt, (salida ++ ["No hay ruta entre servidores."], w)))
  ∧ (alcanzable red o d →
     ∃ p, RedServidores.bfs red o d = Ok (Some p)
       ∧ es_camino red o d p
       ∧ RedServidores.enviar_entre_servidores red m o d (salida, w)
         = match dict.get d (_servidores red) with
           | None =>
               (Ok tt,
                (salida ++ [linea_de_ruta p; "Servidor destino inexistente."], w))
           | Some destino =>
               let '(r, w') := ServidorCorreo.enviar destino m w in
               (r, (salida ++ [linea_de_ruta p], w'))
           end).
Proof.
  pose proof (bfs_correcto red o d) as Hbfs.
  unfold RedServidores.enviar_entre_servidores.
  destruct (RedServidores.bfs red o d) as [[p|]| | |]; try done.
  - destruct Hbfs as [Hp _]. split.
    + intros Hno. exfalso. apply Hno. by exists p.
    + intros _. exists p. split; [done|]. split; [done|].
      destruct p as [|x p]; [by apply es_camino_no_vacio in Hp|].
      fold (linea_de_ruta (x :: p)).
      unfold bind, imprimir. cbn [fst snd].
      destruct (dict.get d (_servidores red)) as [destino|].
      * unfold en_mundo, zoom. cbn [fst snd].
        by destruct (ServidorCorreo.enviar destino m w) as [r w'].
      * cbn [fst snd]. by rewrite <- app_assoc.
  - split; [done|]. intros [q Hq]. by apply Hbfs in Hq.
Qed.


(** ** Depth-first traversal *)

Lemma filter_menos (V V' : gset string) (l : list string) :
  V ⊆ V' →
  length (filter (λ x, x ∉ V') l) ≤ length (filter (λ x, x ∉ V) l).
Proof.
  intros Hsub. induction l as [|y l IH]; [done|].
  rewrite !filter_cons.
  destruct (decide (y ∉ V')), (decide (y ∉ V)); cbn; try lia.
  set_solver.
Qed.

Lemma filter_menos_estricto (V : gset string) (v : string) (l : list string) :
  v ∈ l → v ∉ V →
  length (filter (λ x, x ∉ V ∪ {[v]}) l) < length (filter (λ x, x ∉ V) l).
Proof.
  intros Hin Hv. induction l as [|y l IH]; [by apply elem_of_nil in Hin|].
  rewrite !filter_cons.
  pose proof (filter_menos V (V ∪ {[v]}) l ltac:(set_solver)) as Hle.
  apply elem_of_cons in Hin as [<-|Hin].
  - rewrite decide_False by set_solver. rewrite decide_True by done. cbn. lia.
  - specialize (IH Hin).
    destruct (decide (y ∉ V ∪ {[v]})), (decide (y ∉ V)); cbn; try lia.
    set_solver.
Qed.

Lemma por_visitar_mono (red : RedServidores) (V V' : gset string) :
  V ⊆ V' → por_visitar red V' ≤ por_visitar red V.
Proof.
  intros Hsub. unfold por_visitar.
  induction (_conexiones red) as [|[k l] d IH]; [done|]. cbn.
  pose proof (filter_menos V V' l Hsub). lia.
Qed.

Lemma por_visitar_vecino (red : RedServidores) (V : gset string) (o v : string) :
  arista red o v → v ∉ V →
  por_visitar red (V ∪ {[v]}) < por_visitar red V.
Proof.
  unfold arista, RedServidores.vecinos, por_visitar. intros Hin Hv.
  induction (_conexiones red) as [|[k l] d IH]; [by apply elem_of_nil in Hin|].
  cbn in *.
  pose proof (filter_menos V (V ∪ {[v]}) l ltac:(set_solver)) as Hle.
  assert (Hresto : sum_list ((λ kv : string * list string,
                     length (filter (λ x, x ∉ V ∪ {[v]}) kv.2)) <$> d)
                   ≤ sum_list ((λ kv : string * list string,
                     length (filter (λ x, x ∉ V) kv.2)) <$> d)).
  { apply (por_visitar_mono (mkRedServidores [] d) V (V ∪ {[v]})). set_solver. }
  case_bool_decide as Hk.
  - cbn in Hin. pose proof (filter_menos_estricto V v l Hin Hv). lia.
  - specialize (IH Hin). lia.
Qed.

Lemma por_visitar_cota (red : RedServidores) (V : gset string) :
  por_visitar red V < RedServidores.dfs_combustible red.
Proof.
  unfold por_visitar, RedServidores.dfs_combustible.
  apply Nat.lt_succ_r.
  induction (_conexiones red) as [|[k l] d IH]; [done|]. cbn.
  pose proof (length_filter (λ x, x ∉ V) l). lia.
Qed.

Lemma alcanzable_refl (red : RedServidores) (o : string) : alcanzable red o o.
Proof. exists [o]. constructor. Qed.

Lemma alcanzable_paso (red : RedServidores) (o u d : string) :
  alcanzable red o u → arista red u d → alcanzable red o d.
Proof. intros [p Hp] Hud. exists (p ++ [d]). by econstructor. Qed.

Lemma alcanzable_trans (red : RedServidores) (o v x : string) :
  alcanzable red o v → alcanzable red v x → alcanzable red o x.
Proof.
  intros Hov [q Hq]. induction Hq as [|u d q Hq IH Hud]; [done|].
  by eapply alcanzable_paso.
Qed.

(** The [for] loop of [dfs], given that the nested calls, which have fuel
    [n], do what [dfs_visita] says. *)
Lemma dfs_bucle_correcto (red : RedServidores) (n : nat) (o : string) (V : gset string) :
  (∀ v Vi, v ∉ Vi → por_visitar red (Vi ∪ {[v]}) < n →
     ∃ r V', RedServidores.dfs_rec n red v Vi = Ok (r, V')
             ∧ dfs_visita red v Vi r V') →
  ∀ vs res Vi,
    (∀ v, v ∈ vs → arista red o v) →
    Vi = V ∪ list_to_set res →
    NoDup res →
    (∀ x, x ∈ res → x ∉ V) →
    head res = Some o →
    (∀ x, x ∈ res → alcanzable red o x) →
    (∀ x y, x ∈ res → x ≠ o → arista red x y → y ∈ Vi) →
    por_visitar red Vi ≤ n →
    ∃ r V', RedServidores.dfs_bucle (RedServidores.dfs_rec n red) vs res Vi = Ok (r, V')
      ∧ V' = V ∪ list_to_set r
      ∧ NoDup r
      ∧ (∀ x, x ∈ r → x ∉ V)
      ∧ head r = Some o
      ∧ (∀ x, x ∈ r → alcanzable red o x)
      ∧ (∀ x y, x ∈ r → x ≠ o → arista red x y → y ∈ V')
      ∧ (∀ v, v ∈ vs → v ∈ V')
      ∧ Vi ⊆ V'.
Proof.
  intros Hrec vs. induction vs as [|v vs IH];
    intros res Vi Hvs HVi Hnd Hfuera Hcab Halc Hcerr Hfuel.
  - exists res, Vi. cbn. repeat split; try done.
    intros v Hv. by apply elem_of_nil in Hv.
  - cbn [RedServidores.dfs_bucle]. case_bool_decide as Hv.
    + destruct (Hrec v Vi Hv) as (r1 & V1 & Hr1 & HV1 & Hnd1 & Hfuera1 & Hcab1 & Halc1 & Hcerr1).
      { pose proof (por_visitar_vecino red Vi o v (Hvs v ltac:(left)) Hv). lia. }
      rewrite Hr1.
      assert (Ho : o ∈ res) by (destruct res; [done|]; injection Hcab as <-; left).
      assert (Hv1 : v ∈ r1) by (destruct r1; [done|]; injection Hcab1 as <-; left).
      destruct (IH (res ++ r1) V1) as (r & V' & Hr & HV' & Hnd' & Hfuera' & Hcab' & Halc' & Hcerr' & Hvs' & Hsub').
      * intros v' Hv'. apply Hvs. by right.
      * rewrite HV1, HVi, list_to_set_app_L. set_solver.
      * apply NoDup_app. split; [done|]. split; [|done].
        intros x Hx Hx1. apply (Hfuera1 x Hx1). rewrite HVi. set_solver.
      * intros x [Hx|Hx]%elem_of_app; [by apply Hfuera|].
        specialize (Hfuera1 x Hx). rewrite HVi in Hfuera1. set_solver.
      * by destruct res.
      * intros x [Hx|Hx]%elem_of_app; [by apply Halc|].
        apply alcanzable_trans with v; [|by apply Halc1].
        apply alcanzable_paso with o; [apply alcanzable_refl|]. apply Hvs. by left.
      * intros x y [Hx|Hx]%elem_of_app Hxo Hxy.
        -- rewrite HV1. apply elem_of_union_l. by eapply Hcerr.
        -- by eapply Hcerr1.
      * pose proof (por_visitar_mono red Vi V1 ltac:(set_solver)). lia.
      * exists r, V'. split; [done|]. repeat split; try done.
        -- intros v' [->|Hv']%elem_of_cons; [|by apply Hvs'].
           apply Hsub'. rewrite HV1. set_solver.
        -- set_solver.
    + destruct (IH res Vi) as (r & V' & Hr & HV' & Hnd' & Hfuera' & Hcab' & Halc' & Hcerr' & Hvs' & Hsub'); try done.
      { intros v' Hv'. apply Hvs. by right. }
      exists r, V'. split; [done|]. repeat split; try done.
      intros v' [->|Hv']%elem_of_cons; [|by apply Hvs'].
      by apply Hsub'.
Qed.

Lemma dfs_rec_correcto (red : RedServidores) (n : nat) : ∀ o V,
  o ∉ V → por_visitar red (V ∪ {[o]}) < n →
  ∃ r V', RedServidores.dfs_rec n red o V = Ok (r, V') ∧ dfs_visita red o V r V'.
Proof.
  induction n as [|n IH]; intros o V Ho Hfuel; [lia|].
  cbn [RedServidores.dfs_rec].
  destruct (dfs_bucle_correcto red n o V IH (RedServidores.vecinos red o) [o] (V ∪ {[o]}))
    as (r & V' & Hr & HV' & Hnd & Hfuera & Hcab & Halc & Hcerr & Hvs & Hsub).
  - done.
  - set_solver.
  - apply NoDup_singleton.
  - intros x Hx. apply list_elem_of_singleton in Hx. by subst.
  - done.
  - intros x Hx. apply list_elem_of_singleton in Hx. subst. apply alcanzable_refl.
  - intros x y Hx Hxo. apply list_elem_of_singleton in Hx. done.
  - lia.
  - exists r, V'. split; [done|]. repeat split; try done.
    intros x y Hx Hxy. destruct (decide (x = o)) as [->|Hxo].
    + by apply Hvs.
    + by eapply Hcerr.
Qed.

(** X13. [dfs] always returns: the list starts with the origin, names no
    server twice, and names exactly the servers to which some walk leads
    from the origin. *)
Theorem dfs_recorre_lo_alcanzable (red : RedServidores) (origen : string) :
  ∃ r, RedServidores.dfs red origen = Ok r
     ∧ head r = Some origen
     ∧ NoDup r
     ∧ ∀ x, x ∈ r ↔ alcanzable red origen x.
Proof.
  destruct (dfs_rec_correcto red (RedServidores.dfs_combustible red) origen ∅)
    as (r & V' & Hr & HV' & Hnd & _ & Hcab & Halc & Hcerr).
  - set_solver.
  - apply por_visitar_cota.
  - exists r. unfold RedServidores.dfs. rewrite Hr.
    split; [done|]. split; [done|]. split; [done|].
    intros x. split; [apply Halc|].
    intros [p Hp]. induction Hp as [|u d p Hp IH Hud].
    + destruct r; [done|]. injection Hcab as <-. left.
    + specialize (Hcerr u d IH Hud). rewrite HV' in Hcerr. set_solver.
Qed.


(** ** Names that a path can reach *)

Lemma sin_barra_strip_split (s : string) :
  tiene_barra s = false → str.strip s = s ∧ str.split s = [s].
Proof.
  intros Hs.
  assert (Hr : str.rstrip s = s ∧ str.split s = [s]).
  { induction s as [|c r IH]; [done|]. cbn in Hs.
    apply orb_false_iff in Hs as [Hc Hs]. destruct (IH Hs) as [IH1 IH2].
    cbn. rewrite IH1, IH2, Hc. by destruct r. }
  unfold str.strip. destruct s as [|c r]; [done|].
  cbn in Hs. apply orb_false_iff in Hs as [Hc Hs].
  cbn [str.lstrip]. by rewrite Hc.
Qed.

Lemma desciende_ultimo w a partes r :
  desciende w a partes r → partes ≠ [] →
  ∃ q c p, carpetas w !! q = Some c ∧ p ∈ partes
           ∧ dict.get p (_subcarpetas c) = Some r.
Proof.
  induction 1 as [|a c p h partes r Hc Hg Hd IH]; [done|]. intros _.
  destruct partes as [|p' partes].
  - inversion Hd; subst. exists a, c, p. split; [done|]. split; [by left|done].
  - destruct IH as (q & cq & p0 & Hq & Hp0 & Hg0); [done|].
    exists q, cq, p0. split; [done|]. split; [by right|done].
Qed.

Lemma crear_subcarpeta_longitud w self nombre h w' :
  Carpeta.crear_subcarpeta self nombre w = (Ok h, w') →
  h = length (carpetas w) ∧ length (carpetas w') = S (length (carpetas w)).
Proof.
  rewrite crear_subcarpeta_efecto.
  destruct (carpetas w !! self) as [c|]; [|done].
  destruct (dict.get nombre (_subcarpetas c)); [done|].
  intros [= <- <-]. split; [done|]. cbn [carpetas].
  rewrite length_insert, length_app. cbn. lia.
Qed.

(** X14. A subfolder can be created under any name, but [obtener_por_ruta]
    only follows names without a slash: a folder created with a slash in
    its name is returned for no path at all, from no root, while a folder
    created with a name without slashes is returned for that name as the
    path from its parent. *)
Theorem carpeta_con_barra_inalcanzable
    (w : Mundo) (self : ref) (c : Carpeta) (nombre : string) :
  bien_formado w →
  carpetas w !! self = Some c →
  dict.get nombre (_subcarpetas c) = None →
  ∃ h w',
    Carpeta.crear_subcarpeta self nombre w = (Ok h, w')
    ∧ (tiene_barra nombre = true →
       ∀ sis ruta r w'',
         SistemaCorreo.obtener_por_ruta sis ruta w' = (Ok r, w'') → r ≠ h)
    ∧ (tiene_barra nombre = false →
       SistemaCorreo.obtener_por_ruta (mkSistemaCorreo self) nombre w' = (Ok h, w')).
Proof.
  intros Hw Hc Hg.
  destruct (crear_subcarpeta_marco w self c nombre Hw Hc Hg)
    as (w' & Hr & Hn & _ & _ & Hviejas & _).
  destruct (crear_subcarpeta_longitud _ _ _ _ _ Hr) as [_ Hlen].
  exists (length (carpetas w)), w'. split; [done|]. split.
  - intros Hbarra sis ruta r w'' Hruta ->.
    unfold SistemaCorreo.obtener_por_ruta in Hruta.
    apply obtener_por_ruta_bucle_Ok in Hruta as [_ Hd].
    destruct (desciende_ultimo _ _ _ _ Hd (split_no_vacio _))
      as (q & cq & p & Hq & Hp & Hgp).
    pose proof (split_sin_barras (str.strip ruta)) as Hsin.
    rewrite Forall_forall in Hsin. specialize (Hsin p Hp). cbn in Hsin.
    pose proof (lookup_lt_Some _ _ _ Hq) as Hlt. rewrite Hlen in Hlt.
    destruct (decide (q = length (carpetas w))) as [->|Hne].
    + rewrite Hn in Hq. injection Hq as <-. done.
    + destruct (lookup_lt_is_Some_2 (carpetas w) q) as [x Hx]; [lia|].
      destruct (Hviejas q x Hx) as (x' & Hx' & _ & _ & _ & Hsub).
      rewrite Hq in Hx'. injection Hx' as <-. rewrite Hsub in Hgp.
      case_bool_decide as Hqp.
      * destruct Hqp as [_ ->]. congruence.
      * destruct (bf_hijo _ Hw _ _ _ _ Hx (dict_get_elem _ _ _ Hgp))
          as (_ & y & Hy & _).
        apply lookup_lt_Some in Hy. lia.
  - intros Hbarra. unfold SistemaCorreo.obtener_por_ruta.
    destruct (sin_barra_strip_split nombre Hbarra) as [-> ->].
    cbn [SistemaCorreo.obtener_por_ruta_bucle _carpeta_raiz]. unfold bind.
    rewrite obtener_subcarpeta_efecto.
    destruct (Hviejas self c Hc) as (x' & Hx' & _ & _ & _ & Hsub).
    rewrite Hx', Hsub. by rewrite bool_decide_eq_true_2.
Qed.

Lemma carpeta_con_barra_inalcanzable_testigo :
  let w := (buzon_con [] mundo_vacio).2 in
  let c := mkCarpeta "Entrada" 1 [] (Some 0) in
  bien_formado w
  ∧ carpetas w !! 1 = Some c
  ∧ dict.get "2024/enero" (_subcarpetas c) = None
  ∧ ∃ h w', Carpeta.crear_subcarpeta 1 "2024/enero" w = (Ok h, w')
      ∧ ∀ ruta r w'',
          SistemaCorreo.obtener_por_ruta (mkSistemaCorreo 0) ruta w' = (Ok r, w'')
          → r ≠ h.
Proof.
  intros w c.
  assert (H1 : bien_formado w) by apply preserva_buzon_con, bien_formado_vacio.
  assert (H2 : carpetas w !! 1 = Some c) by reflexivity.
  assert (H3 : dict.get "2024/enero" (_subcarpetas c) = None) by reflexivity.
  destruct (carpeta_con_barra_inalcanzable w 1 c "2024/enero" H1 H2 H3)
    as (h & w' & Hr & Hno & _).
  exact (conj H1 (conj H2 (conj H3
           (ex_intro _ h (ex_intro _ w' (conj Hr (Hno eq_refl (mkSistemaCorreo 0)))))))).
Defined.


(** ** Searching again, and searching for nothing *)

Lemma coincidencias_texto_vacio (w : Mundo) (l : list ref) :
  coincidencias w "" l = todos_los_mensajes w l.
Proof.
  unfold coincidencias, todos_los_mensajes. f_equal.
  apply list_fmap_ext. intros _ r _. unfold coincidencias_en. f_equal.
  induction (default [] (mensajes_de w r)) as [|m ms IH]; [done|].
  rewrite filter_cons. rewrite decide_True; [by rewrite IH|].
  unfold SistemaCorreo.coincide. cbn. by destruct (str.lower (_asunto m)).
Qed.

(** X15. A search changes nothing that a later search can see: run again
    on the store it leaves, with the same text written in any mix of upper
    and lower case, it returns the same pairs.  With the empty text it
    returns every message of every folder of the tree, folder by folder in
    preorder. *)
Theorem buscar_de_nuevo (w : Mundo) (sis : SistemaCorreo) (texto otro : string) :
  bien_formado w →
  is_Some (carpetas w !! _carpeta_raiz sis) →
  str.lower otro = str.lower texto →
  ∃ l res w' w'',
    preorden w (_carpeta_raiz sis) l
    ∧ SistemaCorreo.buscar_mensajes_recursivo sis texto w = (Ok res, w')
    ∧ SistemaCorreo.buscar_mensajes_recursivo sis otro w' = (Ok res, w'')
    ∧ (texto = "" → res = todos_los_mensajes w l).
Proof.
  intros Hw Hraiz Hotro.
  destruct (preorden_existe w Hw (length (carpetas w)) (_carpeta_raiz sis))
    as [l Hl]; [lia|done|].
  destruct (buscar_correcto w texto Hw (S (length (carpetas w)))
              (_carpeta_raiz sis) l w (extiende_refl w) Hl)
    as (w' & Hr & Hext); [lia|].
  destruct (buscar_correcto w texto Hw (S (length (carpetas w)))
              (_carpeta_raiz sis) l w' Hext Hl)
    as (w'' & Hr' & _); [lia|].
  exists l, (coincidencias w texto l), w', w''.
  split; [done|]. split; [exact Hr|]. split.
  - unfold SistemaCorreo.buscar_mensajes_recursivo. rewrite Hotro.
    destruct Hext as (-> & _). exact Hr'.
  - intros ->. apply coincidencias_texto_vacio.
Qed.

Lemma buscar_de_nuevo_testigo :
  let w := (arbol_de_ejemplo mundo_vacio).2 in
  bien_formado w
  ∧ is_Some (carpetas w !! 0)
  ∧ str.lower "URGENTE" = str.lower "urgente"
  ∧ ∃ res w' w'',
      SistemaCorreo.buscar_mensajes_recursivo (mkSistemaCorreo 0) "urgente" w
      = (Ok res, w')
      ∧ SistemaCorreo.buscar_mensajes_recursivo (mkSistemaCorreo 0) "URGENTE" w'
        = (Ok res, w'').
Proof.
  intros w.
  assert (H1 : bien_formado w) by apply preserva_arbol_de_ejemplo, bien_formado_vacio.
  assert (H2 : is_Some (carpetas w !! 0)) by (eexists; reflexivity).
  assert (H3 : str.lower "URGENTE" = str.lower "urgente") by reflexivity.
  destruct (buscar_de_nuevo w (mkSistemaCorreo 0) "urgente" "URGENTE" H1 H2 H3)
    as (l & res & w' & w'' & _ & Hr & Hr' & _).
  exact (conj H1 (conj H2 (conj H3
           (ex_intro _ res (ex_intro _ w' (ex_intro _ w'' (conj Hr Hr'))))))).
Defined.


(** ** A queue without ties *)

Lemma en_cola_efecto {A} w self s (m : M ColaPrioridades A) :
  servidores w !! self = Some s →
  ServidorCorreo.en_cola self m w
  = let '(r, c) := m (_cola_prioridades s) in
    (r, con_cola_en w self s (_heap c)).
Proof.
  intros Hs. unfold ServidorCorreo.en_cola, zoom. rewrite Hs.
  by destruct (m (_cola_prioridades s)) as [r [h]].
Qed.

Lemma con_cola_en_servidor w self s h :
  servidores w !! self = Some s →
  servidores (con_cola_en w self s h) !! self = Some (con_cola s h).
Proof.
  intros Hs. unfold con_cola_en. cbn [servidores].
  apply list_lookup_insert_eq. by eapply lookup_lt_Some.
Qed.

Lemma con_cola_en_dos_veces w self s h1 h2 :
  con_cola_en (con_cola_en w self s h1) self (con_cola s h1) h2
  = con_cola_en w self s h2.
Proof.
  unfold con_cola_en. cbn [carpetas listas servidores].
  by rewrite list_insert_insert_eq.
Qed.

Lemma procesar_bucle_vaciar self : ∀ n acc w s,
  servidores w !! self = Some s →
  ServidorCorreo.procesar_bucle n self acc w
  = let '(r, c) := vaciar n acc (_cola_prioridades s) in
    (r, con_cola_en w self s (_heap c)).
Proof.
  assert (Hpaso : ∀ n acc w s,
    servidores w !! self = Some s →
    (∀ acc w s, servidores w !! self = Some s →
       match n with
       | 0 => True
       | S n => ServidorCorreo.procesar_bucle n self acc w
                = let '(r, c) := vaciar n acc (_cola_prioridades s) in
                  (r, con_cola_en w self s (_heap c))
       end) →
    ServidorCorreo.procesar_bucle n self acc w
    = let '(r, c) := vaciar n acc (_cola_prioridades s) in
      (r, con_cola_en w self s (_heap c))).
  { intros n acc w s Hs IH.
    destruct s as [nombre usuarios filtros [h]].
    set (s := mkServidorCorreo nombre usuarios filtros (mkColaPrioridades h)) in *.
    assert (Hcab : ServidorCorreo.procesar_bucle n self acc w
      = (let* vacia := ServidorCorreo.en_cola self ColaPrioridades.esta_vacia in
         if (vacia : bool) then ret acc
         else match n with
              | 0 => λ w, (SinCombustible, w)
              | S n =>
                  let* m := ServidorCorreo.en_cola self ColaPrioridades.procesar in
                  match m with
                  | None => raise (AttributeError
                              "'NoneType' object has no attribute 'prioridad'")
                  | Some m => ServidorCorreo.procesar_bucle n self (acc ++ [m])
                  end
              end) w) by (by destruct n).
    assert (Hvac : vaciar n acc (mkColaPrioridades h)
      = (let* vacia := ColaPrioridades.esta_vacia in
         if (vacia : bool) then ret acc
         else match n with
              | 0 => λ c, (SinCombustible, c)
              | S n =>
                  let* m := ColaPrioridades.procesar in
                  match m with
                  | None => raise (AttributeError
                              "'NoneType' object has no attribute 'prioridad'")
                  | Some m => vaciar n (acc ++ [m])
                  end
              end) (mkColaPrioridades h)) by (by destruct n).
    rewrite Hcab. cbn [_cola_prioridades s]. rewrite Hvac. clear Hcab Hvac.
    unfold bind at 1. rewrite (en_cola_efecto _ _ _ _ Hs).
    unfold bind at 2. unfold ColaPrioridades.esta_vacia at 1 2.
    cbn [_cola_prioridades s _heap].
    set (w1 := con_cola_en w self s h).
    assert (Hs1 : servidores w1 !! self = Some s).
    { unfold w1. by rewrite (con_cola_en_servidor _ _ _ _ Hs). }
    case_bool_decide as Hh; [done|].
    destruct n as [|n]; [done|].
    unfold bind at 1. rewrite (en_cola_efecto _ _ _ _ Hs1).
    unfold bind. cbn [_cola_prioridades s].
    destruct (ColaPrioridades.procesar (mkColaPrioridades h)) as [[[m|]| | |] [h2]];
      cbn [_heap]; unfold w1, s; rewrite ?con_cola_en_dos_veces; try done.
    fold s. set (w2 := con_cola_en w self s h2).
    assert (Hs2 : servidores w2 !! self = Some (con_cola s h2)).
    { unfold w2. by rewrite (con_cola_en_servidor _ _ _ _ Hs). }
    rewrite (IH (acc ++ [m]) w2 _ Hs2). cbn [_cola_prioridades con_cola].
    destruct (vaciar n (acc ++ [m]) (mkColaPrioridades h2)) as [r [h3]].
    cbn [_heap]. unfold w2. by rewrite con_cola_en_dos_veces. }
  induction n as [|n IH]; intros acc w s Hs.
  - apply Hpaso; [done|]. by intros.
  - apply Hpaso; [done|]. intros acc' w' s' Hs'. by apply IH.
Qed.

Lemma encolar_empujar : ∀ ms c,
  encolar ms c
  = let '(r, h) := empujar ((λ m, (ordinal m, m)) <$> ms) (_heap c) in
    (r, mkColaPrioridades h).
Proof.
  induction ms as [|m ms IH]; intros [h]; [done|].
  cbn [encolar empujar fmap list_fmap]. unfold bind.
  unfold ColaPrioridades.agregar, ColaPrioridades.en_heap, zoom.
  cbn [_heap]. fold (ordinal m).
  destruct (heapq.heappush ColaPrioridades.tupla_lt (ordinal m, m) h)
    as [[[]| | |] h']; by rewrite ?IH.
Qed.

Lemma ordinal_casos (m : Mensaje) :
  ordinal m = 1%Z ∨ ordinal m = 2%Z ∨ ordinal m = 3%Z.
Proof.
  unfold ordinal, ColaPrioridades._valor. cbn.
  repeat case_bool_decide; cbn; auto.
Qed.

Lemma sin_empates_corta (ms : list Mensaje) :
  NoDup (ordinal <$> ms) → length ms ≤ 3.
Proof.
  intros Hnd.
  assert (Hsub : ordinal <$> ms ⊆+ [1%Z; 2%Z; 3%Z]).
  { apply NoDup_submseteq; [done|]. intros x Hx.
    apply list_elem_of_fmap in Hx as (m & Hx & _). subst x.
    destruct (ordinal_casos m) as [ -> | [ -> | -> ] ]; set_solver. }
  apply submseteq_length in Hsub. by rewrite length_fmap in Hsub.
Qed.

Local Ltac repetida H :=
  exfalso; apply (bool_decide_eq_true_2 _) in H; vm_compute in H; discriminate H.

Local Ltac en_orden H1 H2 H3 :=
  intros [|[|[|i]]] [|[|[|j]]] a b Hij Ha Hb; try lia; try done;
  cbn in Ha, Hb; simplify_eq; rewrite ?H1, ?H2, ?H3; lia.

(** Up to three messages with different priority numbers: every push is
    accepted, and the loop hands them back by increasing number. *)
Lemma cola_sin_empates (ms : list Mensaje) :
  NoDup (ordinal <$> ms) →
  ∃ h r,
    empujar ((λ m, (ordinal m, m)) <$> ms) [] = (Ok tt, h)
    ∧ length h = length ms
    ∧ vaciar (length ms) [] (mkColaPrioridades h) = (Ok r, mkColaPrioridades [])
    ∧ r ≡ₚ ms
    ∧ por_prioridad r.
Proof.
  intros Hnd. pose proof (sin_empates_corta ms Hnd) as Hlen.
  destruct ms as [|m1 [|m2 [|m3 [|m4 ms]]]]; cbn [length] in Hlen; [| | | |lia];
    cbn [fmap list_fmap] in *.
  - exists [], []. split_and!; try done; by intros i j a b _ Ha.
  - exists [(ordinal m1, m1)], [m1]. split_and!; try done;
      intros [|i] [|j] a b Hij Ha Hb; try lia; done.
  - destruct (ordinal_casos m1) as [H1|[H1|H1]],
             (ordinal_casos m2) as [H2|[H2|H2]];
      rewrite H1, H2 in *; try (repetida Hnd);
      eexists _, _;
      (split; [vm_compute; reflexivity|]); (split; [reflexivity|]);
      (split; [vm_compute; reflexivity|]);
      (split; [solve_Permutation|]); en_orden H1 H2 H2.
  - destruct (ordinal_casos m1) as [H1|[H1|H1]],
             (ordinal_casos m2) as [H2|[H2|H2]],
             (ordinal_casos m3) as [H3|[H3|H3]];
      rewrite H1, H2, H3 in *; try (repetida Hnd);
      eexists _, _;
      (split; [vm_compute; reflexivity|]); (split; [reflexivity|]);
      (split; [vm_compute; reflexivity|]);
      (split; [solve_Permutation|]); en_orden H1 H2 H3.
Qed.

(** X16. When the messages put in an empty queue all have different
    priorities, no [agregar] raises, and [procesar_mensajes_prioritarios]
    prints every one of them once, Alta before Media before Baja, whatever
    the order in which they were added; it returns with the queue empty and
    nothing else changed. *)
Theorem procesar_sin_empates (ms : list Mensaje) :
  NoDup (ordinal <$> ms) →
  ∃ c r,
    encolar ms ColaPrioridades.__init__ = (Ok tt, c)
    ∧ r ≡ₚ ms
    ∧ por_prioridad r
    ∧ ∀ w self s,
        servidores w !! self = Some s →
        _cola_prioridades s = c →
        ServidorCorreo.procesar_mensajes_prioritarios self w
        = (Ok r, con_cola_en w self s []).
Proof.
  intros Hnd.
  destruct (cola_sin_empates ms Hnd) as (h & r & Hpush & Hlen & Hvac & Hperm & Hord).
  exists (mkColaPrioridades h), r. split.
  { rewrite encolar_empujar. cbn [_heap ColaPrioridades.__init__]. by rewrite Hpush. }
  split; [done|]. split; [done|].
  intros w self s Hs Hc.
  unfold ServidorCorreo.procesar_mensajes_prioritarios, bind, leer_servidor.
  rewrite Hs, (procesar_bucle_vaciar self _ _ _ _ Hs), Hc. cbn [_heap].
  by rewrite Hlen, Hvac.
Qed.

Lemma procesar_sin_empates_testigo :
  let ms := [mensaje_de_prueba 1 "luis@mail.com" "ana@mail.com" "uno" "Baja";
             mensaje_de_prueba 2 "luis@mail.com" "ana@mail.com" "dos" "Alta";
             mensaje_de_prueba 3 "luis@mail.com" "ana@mail.com" "tres" "Media"] in
  NoDup (ordinal <$> ms)
  ∧ ∃ c r, encolar ms ColaPrioridades.__init__ = (Ok tt, c)
         ∧ r ≡ₚ ms ∧ por_prioridad r.
Proof.
  intros ms.
  assert (H1 : NoDup (ordinal <$> ms)).
  { apply (bool_decide_unpack _). vm_compute. exact I. }
  destruct (procesar_sin_empates ms H1) as (c & r & Hc & Hperm & Hord & _).
  exact (conj H1 (ex_intro _ c (ex_intro _ r (conj Hc (conj Hperm Hord))))).
Defined.


(** ** Every operation keeps the store well formed *)

Lemma preserva_obtener_usuario self email :
  preserva (ServidorCorreo._obtener_usuario self email).
Proof.
  unfold ServidorCorreo._obtener_usuario.
  apply preserva_bind; [apply preserva_leer_servidor|]. intros s.
  destruct (_usuarios s !! email); [apply preserva_ret|apply preserva_raise].
Qed.

Lemma preserva_listar self email carpeta :
  preserva (ServidorCorreo.listar self email carpeta).
Proof.
  unfold ServidorCorreo.listar.
  apply preserva_bind; [apply preserva_obtener_usuario|]. intros u.
  apply preserva_bind; [apply preserva_obtener_carpeta|]. intros c.
  apply preserva_mensajes.
Qed.

Lemma preserva_agregar_filtro self palabra carpeta :
  preserva (ServidorCorreo.agregar_filtro self palabra carpeta).
Proof.
  unfold ServidorCorreo.agregar_filtro.
  apply preserva_bind; [apply preserva_leer_servidor|]. intros s.
  apply preserva_escribir_servidor.
Qed.

Lemma preserva_procesar_bucle self : ∀ n impresos,
  preserva (ServidorCorreo.procesar_bucle n self impresos).
Proof.
  induction n as [|n IH]; intros impresos; cbn [ServidorCorreo.procesar_bucle].
  - apply preserva_bind; [apply preserva_en_cola|]. intros [|]; [apply preserva_ret|].
    by intros w Hw.
  - apply preserva_bind; [apply preserva_en_cola|]. intros [|]; [apply preserva_ret|].
    apply preserva_bind; [apply preserva_en_cola|]. intros [m|].
    + apply IH.
    + apply preserva_raise.
Qed.

Lemma preserva_procesar_mensajes_prioritarios self :
  preserva (ServidorCorreo.procesar_mensajes_prioritarios self).
Proof.
  unfold ServidorCorreo.procesar_mensajes_prioritarios.
  apply preserva_bind; [apply preserva_leer_servidor|]. intros s.
  apply preserva_procesar_bucle.
Qed.

Lemma preserva_obtener_por_ruta_bucle ruta : ∀ partes actual,
  preserva (SistemaCorreo.obtener_por_ruta_bucle ruta partes actual).
Proof.
  induction partes as [|p partes IH]; intros actual;
    cbn [SistemaCorreo.obtener_por_ruta_bucle]; [apply preserva_ret|].
  apply preserva_bind; [apply preserva_obtener_subcarpeta|].
  intros [sub|]; [apply IH|apply preserva_raise].
Qed.

Lemma preserva_extender_con {A B} (f : A → M Mundo (list B)) :
  (∀ a, preserva (f a)) →
  ∀ subs resultado, preserva (SistemaCorreo.extender_con f subs resultado).
Proof.
  intros Hf. induction subs as [|sub subs IH]; intros resultado;
    cbn [SistemaCorreo.extender_con]; [apply preserva_ret|].
  apply preserva_bind; [apply Hf|]. intros r. apply IH.
Qed.

Lemma preserva_buscar texto : ∀ n carpeta,
  preserva (SistemaCorreo._buscar n texto carpeta).
Proof.
  induction n as [|n IH]; intros carpeta; cbn [SistemaCorreo._buscar].
  - by intros w Hw.
  - apply preserva_bind; [apply preserva_mensajes|]. intros copia.
    apply preserva_bind; [apply preserva_leer_lista|]. intros ms.
    apply preserva_bind; [apply preserva_leer_carpeta|]. intros c.
    apply preserva_extender_con, IH.
Qed.

Lemma bien_formado_enviar_entre_servidores red m o d salida w :
  bien_formado w →
  bien_formado (RedServidores.enviar_entre_servidores red m o d (salida, w)).2.2.
Proof.
  intros Hw. unfold RedServidores.enviar_entre_servidores.
  destruct (RedServidores.bfs red o d) as [[[|x p]|]| | |]; try done.
  unfold bind, imprimir. cbn [fst snd].
  destruct (dict.get d (_servidores red)) as [destino|]; [|done].
  unfold en_mundo, zoom. cbn [fst snd].
  pose proof (preserva_enviar destino m w Hw) as Hp.
  by destruct (ServidorCorreo.enviar destino m w) as [r w'].
Qed.

(** X17. Whatever they return or raise, the operations on folders, users,
    servers and the network keep the store well formed: every folder has
    its own list of messages, and every subfolder was created after its
    parent, exists, and names that parent.  So every store reached from the
    empty one by running them is well formed. *)
Theorem operaciones_conservan_bien_formado :
  bien_formado mundo_vacio
  ∧ (∀ nombre padre, preserva (Carpeta.__init__ nombre padre))
  ∧ (∀ c m, preserva (Carpeta.agregar_mensaje c m))
  ∧ (∀ c m, preserva (Carpeta.quitar_mensaje c m))
  ∧ (∀ c, preserva (Carpeta.mensajes c))
  ∧ (∀ c nombre, preserva (Carpeta.crear_subcarpeta c nombre))
  ∧ (∀ c nombre, preserva (Carpeta.obtener_subcarpeta c nombre))
  ∧ (∀ nombre email, preserva (Usuario.__init__ nombre email))
  ∧ (∀ u nombre, preserva (Usuario.obtener_carpeta u nombre))
  ∧ (∀ env u s d a c p, preserva (Usuario_enviar_mensaje env u s d a c p))
  ∧ (∀ sis ruta, preserva (SistemaCorreo.obtener_por_ruta sis ruta))
  ∧ (∀ sis texto, preserva (SistemaCorreo.buscar_mensajes_recursivo sis texto))
  ∧ (∀ sis o i d, preserva (SistemaCorreo.mover_mensaje sis o i d))
  ∧ (∀ nombre, preserva (ServidorCorreo.__init__ nombre))
  ∧ (∀ s u, preserva (ServidorCorreo.registrar_usuario s u))
  ∧ (∀ s p c, preserva (ServidorCorreo.agregar_filtro s p c))
  ∧ (∀ s m, preserva (ServidorCorreo.enviar s m))
  ∧ (∀ s, preserva (ServidorCorreo.procesar_mensajes_prioritarios s))
  ∧ (∀ s email, preserva (ServidorCorreo.recibir s email))
  ∧ (∀ s email c, preserva (ServidorCorreo.listar s email c))
  ∧ (∀ red s, preserva (RedServidores.agregar_servidor red s))
  ∧ (∀ red m o d salida w,
       bien_formado w →
       bien_formado
         (RedServidores.enviar_entre_servidores red m o d (salida, w)).2.2).
Proof.
  split_and!.
  - apply bien_formado_vacio.
  - apply preserva_Carpeta_init.
  - apply preserva_agregar_mensaje.
  - apply preserva_quitar_mensaje.
  - apply preserva_mensajes.
  - apply preserva_crear_subcarpeta.
  - apply preserva_obtener_subcarpeta.
  - apply preserva_Usuario_init.
  - apply preserva_obtener_carpeta.
  - intros env u s d a c p. unfold Usuario_enviar_mensaje.
    destruct (Usuario.redactar env u d a c p);
      [apply preserva_enviar|apply preserva_raise|by intros w Hw..].
  - intros sis ruta. apply preserva_obtener_por_ruta_bucle.
  - intros sis texto w Hw. by apply preserva_buscar.
  - apply preserva_mover_mensaje.
  - intros nombre. apply preserva_nuevo_servidor.
  - apply preserva_registrar_usuario.
  - apply preserva_agregar_filtro.
  - apply preserva_enviar.
  - apply preserva_procesar_mensajes_prioritarios.
  - intros s email. apply (preserva_listar s email "Entrada").
  - apply preserva_listar.
  - intros red s. unfold RedServidores.agregar_servidor.
    apply preserva_bind; [apply preserva_leer_servidor|]. intros x.
    apply preserva_ret.
  - apply bien_formado_enviar_entre_servidores.
Qed.


(** ** A user sends a message *)

(** X18. [Usuario.enviar_mensaje] with an empty recipient raises the
    [ValueError] of the constructor before the server is reached, so
    nothing is stored or queued.  Otherwise, for a user registered on a
    server whose queue is empty, the message composed by [redactar] is
    sent, and in the store the call leaves: the message is in the user's
    Enviados, right after the messages that were there (followed by a
    second copy only if the recipient's folder is that same folder); it is
    the one entry of the queue, with number 1 for Alta, 3 for Baja and 2
    for Media or any other priority text; and a recipient registered on
    the server has it at the end of the folder chosen by the filters. *)
Theorem enviar_mensaje_de_usuario
    (env : Entorno) (w : Mundo) (u : Usuario) (servidor : ref) (s : ServidorCorreo)
    (destinatario asunto cuerpo prioridad : string) :
  bien_formado w →
  servidores w !! servidor = Some s →
  raices_validas w s →
  _heap (_cola_prioridades s) = [] →
  _usuarios s !! _email u = Some u →
  let n := (if bool_decide (prioridad = "Alta") then 1
            else if bool_decide (prioridad = "Baja") then 3 else 2)%Z in
  Usuario_enviar_mensaje env u servidor "" asunto cuerpo prioridad w
  = (Lanza (ValueError "El mensaje debe tener destinatario."), w)
  ∧ (destinatario ≠ "" →
     ∃ m w1 w',
       Usuario.redactar env u destinatario asunto cuerpo prioridad = Ok m
       ∧ Usuario_enviar_mensaje env u servidor destinatario asunto cuerpo prioridad w
         = (Ok tt, w')
       ∧ entregado w u "Enviados" m w1
       ∧ match _usuarios s !! destinatario with
         | Some u2 =>
             entregado (con_cola_en w1 servidor s [(n, m)]) u2
                       (carpeta_destino (_filtros s) m) m w'
         | None => w' = con_cola_en w1 servidor s [(n, m)]
         end
       ∧ (∃ c resto,
            carpeta_de w' u "Enviados" = Some c
            ∧ mensajes_de w' c = Some (default [] (mensajes_de w c) ++ m :: resto)
            ∧ (resto = [] ∨ resto = [m]))
       ∧ cola_de w' servidor = Some [(n, m)]).
Proof.
  intros Hw Hs Hraices Hvacia Hu n. split; [done|]. intros Hd.
  unfold Usuario_enviar_mensaje, Usuario.redactar, Mensaje.__init__.
  rewrite bool_decide_eq_false_2 by done.
  set (m := mkMensaje _ _ _ _ _ _ _ _ _).
  assert (Hord : ordinal m = n).
  { unfold ordinal, m, n. cbn [_prioridad]. unfold Mensaje.prioridades.
    repeat case_bool_decide; subst; try done; set_solver. }
  destruct (enviar_si_la_cola_acepta w servidor s m [(ordinal m, m)] Hw Hs Hraices)
    as (w1 & w' & Hr & H1 & H2); [by rewrite Hvacia, heappush_vacio|].
  destruct (enviar_con_cola_vacia w servidor s m Hw Hs Hraices Hvacia)
    as (w'' & Hr' & Hcola).
  assert (w'' = w') as -> by congruence.
  change (_remitente m) with (_email u) in H1. rewrite Hu in H1.
  change (_destinatario m) with destinatario in H2.
  rewrite Hord in H2, Hcola.
  exists m, w1, w'. split; [done|]. split; [done|]. split; [done|].
  split; [done|]. split; [|done].
  destruct H1 as (c & Hc1 & _ & Hm1 & _).
  set (w2 := con_cola_en w1 servidor s [(n, m)]) in *.
  assert (Hc2 : carpeta_de w2 u "Enviados" = Some c) by done.
  assert (Hm2 : mensajes_de w2 c = Some (default [] (mensajes_de w c) ++ [m])) by done.
  destruct (_usuarios s !! destinatario) as [u2|].
  - destruct H2 as (c2 & _ & _ & Hmc2 & Hotros & Hcarp & _).
    exists c. destruct (decide (c = c2)) as [<-|Hne].
    + exists [m]. split; [by apply Hcarp|]. split; [|by right].
      rewrite Hmc2, Hm2. cbn -[mensajes_de]. by rewrite <- app_assoc.
    + exists []. split; [by apply Hcarp|]. split; [|by left].
      rewrite Hotros; [done|done|].
      destruct (mensajes_de_Some _ _ _ Hm2) as (x & Hx & _). by exists x.
  - subst w'. exists c, []. split; [done|]. split; [done|by left].
Qed.

Lemma enviar_mensaje_de_usuario_testigo :
  let w := (servidor_con_usuarios mundo_vacio).2 in
  let luis := mkUsuario "Luis" "luis@mail.com" 0 in
  let env := mkEntorno 1 "uuid" 0 in
  bien_formado w
  ∧ servidores w !! 0 = Some (servidor_en w 0)
  ∧ raices_validas w (servidor_en w 0)
  ∧ _heap (_cola_prioridades (servidor_en w 0)) = []
  ∧ _usuarios (servidor_en w 0) !! _email luis = Some luis
  ∧ Usuario_enviar_mensaje env luis 0 "" "Hola" "texto" "Alta" w
    = (Lanza (ValueError "El mensaje debe tener destinatario."), w)
  ∧ ∃ m w', Usuario_enviar_mensaje env luis 0 "ana@mail.com" "Hola" "texto" "Alta" w
            = (Ok tt, w')
          ∧ (∃ c resto, carpeta_de w' luis "Enviados" = Some c
               ∧ mensajes_de w' c = Some (default [] (mensajes_de w c) ++ m :: resto)
               ∧ (resto = [] ∨ resto = [m]))
          ∧ cola_de w' 0 = Some [(1%Z, m)].
Proof.
  intros w luis env.
  destruct servidor_con_usuarios_valido as (H1 & H2 & H3). fold w in H1, H2, H3.
  assert (H4 : _heap (_cola_prioridades (servidor_en w 0)) = [])
    by (vm_compute; reflexivity).
  assert (H5 : _usuarios (servidor_en w 0) !! _email luis = Some luis)
    by (vm_compute; reflexivity).
  destruct (enviar_mensaje_de_usuario env w luis 0 _ "ana@mail.com" "Hola" "texto"
              "Alta" H1 H2 H3 H4 H5) as [Hvacio Hsi].
  destruct (Hsi ltac:(done)) as (m & w1 & w' & _ & Hr & _ & _ & Henv & Hcola).
  exact (conj H1 (conj H2 (conj H3 (conj H4 (conj H5 (conj Hvacio
           (ex_intro _ m (ex_intro _ w' (conj Hr (conj Henv Hcola)))))))))).
Defined.


(** ** A new user *)

Lemma carpetas_de_usuario_nuevo w i :
  i < 4 →
  carpetas (mundo_con_usuario w) !! (length (carpetas w) + i)
  = [mkCarpeta "Root" (length (listas w))
       [("Entrada", length (carpetas w) + 1); ("Enviados", length (carpetas w) + 2);
        ("Prioritarios", length (carpetas w) + 3)] None;
     mkCarpeta "Entrada" (length (listas w) + 1) [] (Some (length (carpetas w)));
     mkCarpeta "Enviados" (length (listas w) + 2) [] (Some (length (carpetas w)));
     mkCarpeta "Prioritarios" (length (listas w) + 3) [] (Some (length (carpetas w)))]
    !! i.
Proof.
  intros Hi. unfold mundo_con_usuario. cbn [carpetas].
  rewrite lookup_app_r by lia. f_equal. lia.
Qed.

Lemma listas_de_usuario_nuevo w i :
  i < 4 →
  listas (mundo_con_usuario w) !! (length (listas w) + i) = Some [].
Proof.
  intros Hi. unfold mundo_con_usuario. cbn [listas].
  rewrite lookup_app_r by lia.
  replace (length (listas w) + i - length (listas w)) with i by lia.
  by do 4 (destruct i as [|i]; [done|]); lia.
Qed.

(** X19. [Usuario.__init__] never raises.  The new user gets a root folder
    called Root, with no parent, whose subfolders are Entrada, Enviados and
    Prioritarios, in that order and no others; the three are new, empty,
    without subfolders, and name the root as parent.  Nothing that existed
    before is changed, so two users never share a folder. *)
Theorem usuario_nuevo (w : Mundo) (nombre email : string) :
  ∃ u w',
    Usuario.__init__ nombre email w = (Ok u, w')
    ∧ Usuario_nombre u = nombre ∧ _email u = email
    ∧ carpetas w !! _raiz u = None
    ∧ (∃ c, carpetas w' !! _raiz u = Some c
          ∧ _nombre c = "Root" ∧ _padre c = None
          ∧ (_subcarpetas c).*1 = ["Entrada"; "Enviados"; "Prioritarios"]
          ∧ mensajes_de w' (_raiz u) = Some [])
    ∧ (∀ n h, carpeta_de w' u n = Some h →
         carpetas w !! h = None
         ∧ mensajes_de w' h = Some []
         ∧ ∃ ch, carpetas w' !! h = Some ch ∧ _nombre ch = n
               ∧ _subcarpetas ch = [] ∧ _padre ch = Some (_raiz u))
    ∧ (∀ r, is_Some (carpetas w !! r) → carpetas w' !! r = carpetas w !! r)
    ∧ (∀ k, is_Some (listas w !! k) → listas w' !! k = listas w !! k)
    ∧ servidores w' = servidores w.
Proof.
  exists (mkUsuario nombre email (length (carpetas w))), (mundo_con_usuario w).
  split; [apply Usuario_init_efecto|]. cbn [Usuario_nombre _email _raiz].
  split; [done|]. split; [done|].
  split; [by apply lookup_ge_None_2|].
  pose proof (raiz_de_usuario w) as Hraiz.
  split; [|split; [|split; [|split; [|done]]]].
  - eexists. split; [exact Hraiz|]. split; [done|]. split; [done|]. split; [done|].
    unfold mensajes_de. rewrite Hraiz. cbn [_mensajes].
    pose proof (listas_de_usuario_nuevo w 0 ltac:(lia)) as Hl.
    by rewrite Nat.add_0_r in Hl.
  - intros n h. unfold carpeta_de. cbn [_raiz]. rewrite Hraiz.
    cbn [_subcarpetas dict.get].
    repeat case_bool_decide; intros [= <-]; subst n;
      (split; [apply lookup_ge_None_2; lia|]);
      unfold mensajes_de;
      rewrite carpetas_de_usuario_nuevo by lia; cbn [lookup list_lookup _mensajes];
      rewrite listas_de_usuario_nuevo by lia; (split; [done|]);
      eexists; by split_and!.
  - intros r [c Hc]. unfold mundo_con_usuario. cbn [carpetas].
    rewrite Hc. by apply lookup_app_l_Some.
  - intros k [l Hl]. unfold mundo_con_usuario. cbn [listas].
    rewrite Hl. by apply lookup_app_l_Some.
Qed.
